(** * tint: a colourising [slog.Handler] with gorm and kratos adapters

    A shallow embedding of [src/handler.go], [src/logger.go] and the buffer
    of the package (type [buffer]) together with the properties stated
    about them.

    Go strings and byte buffers are Rocq [string]s (sequences of 8-bit
    characters); runes and integers are [Z], with the wrap-around of the
    64-bit [int] written out where the code does arithmetic.  The parts of
    the Go standard library the handler calls are modelled next to the code
    that calls them: UTF-8 decoding, [unicode.IsSpace], the Latin-1 half of
    [unicode.IsPrint], [strconv.AppendInt], [strconv.AppendQuote] and the
    binary64 arithmetic behind [fmt.Sprintf("%.3fms", ...)].  What depends
    on tables or on the platform (the Unicode print tables above Latin-1,
    time and float formatting, [path/filepath], the frames of the runtime,
    the growth policy of [append]) is collected in the class [GoLib]. *)

From Stdlib Require Import ZArith List String Ascii Bool Lia PeanoNat.
From Stdlib Require Import Numbers.DecimalString.
From Stdlib Require Import Floats.SpecFloat.
Import ListNotations.

Set Warnings "-register-all".

Open Scope string_scope.
Open Scope Z_scope.

(** ** Bytes and strings *)

Definition byte := ascii.

Definition Z_of_byte (c : byte) : Z := Z.of_N (N_of_ascii c).

(** The conversion [byte(x)] of an integer: truncation to eight bits. *)
Definition byte_of_Z (z : Z) : byte := ascii_of_N (Z.to_N (z mod 256)).

Definition str1 (c : byte) : string := String c EmptyString.

Definition len (s : string) : Z := Z.of_nat (String.length s).

(** [s[n:]] for [n <= len(s)]. *)
Fixpoint drop (n : nat) (s : string) : string :=
  match n, s with
  | O, _ => s
  | S n', String _ s' => drop n' s'
  | S _, EmptyString => EmptyString
  end.

(** [s[i]], with 0 standing for an index the code never reads. *)
Definition at_ (s : string) (i : nat) : Z :=
  match String.get i s with
  | Some c => Z_of_byte c
  | None => 0
  end.

(** ** Package [unicode/utf8] *)

Module utf8.

Definition RuneError : Z := 0xFFFD.
Definition RuneSelf : Z := 0x80.
Definition MaxRune : Z := 0x10FFFF.

Definition surrogateMin : Z := 0xD800.
Definition surrogateMax : Z := 0xDFFF.

Definition t2 : Z := 0xC0.
Definition t3 : Z := 0xE0.
Definition t4 : Z := 0xF0.
Definition tx : Z := 0x80.

Definition maskx : Z := 0x3F.
Definition mask2 : Z := 0x1F.
Definition mask3 : Z := 0x0F.
Definition mask4 : Z := 0x07.

Definition rune1Max : Z := 0x7F.
Definition rune2Max : Z := 0x7FF.
Definition rune3Max : Z := 0xFFFF.

Definition locb : Z := 0x80.
Definition hicb : Z := 0xBF.

(** The entries of the table [first]: [xx] invalid, [as_] ASCII, and
    [s1] .. [s7] carrying the size in the low bits and the index of the
    accept range in the high ones. *)
Definition xx : Z := 0xF1.
Definition as_ : Z := 0xF0.
Definition s1 : Z := 0x02.
Definition s2 : Z := 0x13.
Definition s3 : Z := 0x03.
Definition s4 : Z := 0x23.
Definition s5 : Z := 0x34.
Definition s6 : Z := 0x04.
Definition s7 : Z := 0x44.

Definition first (b : Z) : Z :=
  if b <? 0x80 then as_
  else if b <? 0xC2 then xx
  else if b <? 0xE0 then s1
  else if b =? 0xE0 then s2
  else if b <? 0xED then s3
  else if b =? 0xED then s4
  else if b <? 0xF0 then s3
  else if b =? 0xF0 then s5
  else if b <? 0xF4 then s6
  else if b =? 0xF4 then s7
  else xx.

Definition acceptRanges (i : Z) : Z * Z :=
  match i with
  | 0 => (locb, hicb)
  | 1 => (0xA0, hicb)
  | 2 => (locb, 0x9F)
  | 3 => (0x90, hicb)
  | 4 => (locb, 0x8F)
  | _ => (0, 0)
  end.

(** [utf8.DecodeRuneInString]: the rune at the head of [s] and its width;
    an invalid encoding gives [(RuneError, 1)], the empty string
    [(RuneError, 0)]. *)
Definition DecodeRuneInString (s : string) : Z * nat :=
  let n := String.length s in
  if (n <? 1)%nat then (RuneError, 0%nat)
  else
    let s0 := at_ s 0 in
    let x := first s0 in
    if as_ <=? x then
      ((if Z.odd x then RuneError else s0), 1%nat)
    else
      let sz := Z.to_nat (Z.land x 7) in
      let accept := acceptRanges (Z.shiftr x 4) in
      if (n <? sz)%nat then (RuneError, 1%nat)
      else
        let b1 := at_ s 1 in
        if (b1 <? fst accept) || (snd accept <? b1) then (RuneError, 1%nat)
        else if (sz <=? 2)%nat then
          (Z.lor (Z.shiftl (Z.land s0 mask2) 6) (Z.land b1 maskx), 2%nat)
        else
          let b2 := at_ s 2 in
          if (b2 <? locb) || (hicb <? b2) then (RuneError, 1%nat)
          else if (sz <=? 3)%nat then
            (Z.lor (Z.lor (Z.shiftl (Z.land s0 mask3) 12)
                          (Z.shiftl (Z.land b1 maskx) 6))
                   (Z.land b2 maskx), 3%nat)
          else
            let b3 := at_ s 3 in
            if (b3 <? locb) || (hicb <? b3) then (RuneError, 1%nat)
            else
              (Z.lor (Z.lor (Z.lor (Z.shiftl (Z.land s0 mask4) 18)
                                   (Z.shiftl (Z.land b1 maskx) 12))
                            (Z.shiftl (Z.land b2 maskx) 6))
                     (Z.land b3 maskx), 4%nat).

Definition ValidRune (r : Z) : bool :=
  ((0 <=? r) && (r <? surrogateMin)) || ((surrogateMax <? r) && (r <=? MaxRune)).

(** [utf8.AppendRune] on a rune that is not negative (the runes the
    decoder produces). *)
Definition AppendRune (p : string) (r : Z) : string :=
  if r <=? rune1Max then p ++ str1 (byte_of_Z r)
  else if r <=? rune2Max then
    p ++ str1 (byte_of_Z (Z.lor t2 (Z.shiftr r 6)))
      ++ str1 (byte_of_Z (Z.lor tx (Z.land r maskx)))
  else
    let r3 := if (MaxRune <? r) || ((surrogateMin <=? r) && (r <=? surrogateMax))
              then RuneError else r in
    if (MaxRune <? r) || ((surrogateMin <=? r) && (r <=? surrogateMax))
       || (r <=? rune3Max) then
      p ++ str1 (byte_of_Z (Z.lor t3 (Z.shiftr r3 12)))
        ++ str1 (byte_of_Z (Z.lor tx (Z.land (Z.shiftr r3 6) maskx)))
        ++ str1 (byte_of_Z (Z.lor tx (Z.land r3 maskx)))
    else
      p ++ str1 (byte_of_Z (Z.lor t4 (Z.shiftr r 18)))
        ++ str1 (byte_of_Z (Z.lor tx (Z.land (Z.shiftr r 12) maskx)))
        ++ str1 (byte_of_Z (Z.lor tx (Z.land (Z.shiftr r 6) maskx)))
        ++ str1 (byte_of_Z (Z.lor tx (Z.land r maskx))).

End utf8.

(** The runes a [for _, r := range s] loop visits, in order.  The loop
    decodes one rune, then skips the remaining bytes of its encoding;
    [skip] counts the bytes still to be skipped. *)
Fixpoint range_from (skip : nat) (s : string) : list Z :=
  match s with
  | EmptyString => []
  | String _ s' =>
      match skip with
      | S k => range_from k s'
      | O => let '(r, w) := utf8.DecodeRuneInString s in
             r :: range_from (Nat.pred w) s'
      end
  end.

Definition range_runes (s : string) : list Z := range_from 0 s.

(** ** Characters the code names *)

Definition dquote : byte := "034"%char.
Definition backslash : byte := "092"%char.
Definition space : byte := " "%char.
Definition newline : byte := "010"%char.
Definition esc : byte := "027"%char.

(** ** What the model takes from the Go library and runtime *)

(** [runtime.Frame], as far as [Handle] reads it. *)
Record Frame := mkFrame {
  Frame_Function : string;
  Frame_File : string;
  Frame_Line : Z
}.

(** [slog.Source]. *)
Record Source := mkSource {
  Source_Function : string;
  Source_File : string;
  Source_Line : Z
}.

Class GoLib := {
  (** [unicode.In(r, unicode.PrintRanges...)], consulted by
      [unicode.IsPrint] for runes above Latin-1. *)
  IsPrintTable : Z -> bool;
  (** [time.Time] with [IsZero], [Round(0)], [Format(layout)] and
      [String()]. *)
  Time : Type;
  Time_IsZero : Time -> bool;
  Time_Round0 : Time -> Time;
  Time_Format : Time -> string -> string;
  Time_String : Time -> string;
  (** [time.Duration.String()], on the nanosecond count. *)
  Duration_String : Z -> string;
  (** [strconv.FormatFloat(f, 'g', -1, 64)]. *)
  FormatFloat_g : spec_float -> string;
  (** The first frame of [runtime.CallersFrames([]uintptr{pc})]. *)
  CallersFrames : Z -> Frame;
  (** [filepath.Split], [filepath.Base] and [filepath.Join] of two
      elements. *)
  filepath_Split : string -> string * string;
  filepath_Base : string -> string;
  filepath_Join : string -> string -> string;
  (** The capacity [append] gives the new backing array when one element
      is appended to a full slice of the given capacity. *)
  growslice : nat -> nat;
  growslice_fits : forall c : nat, (c < growslice c)%nat
}.

(** ** Package [unicode] *)

Module unicode.

Definition MaxLatin1 : Z := 0xFF.

(** [unicode.White_Space] without its Latin-1 entries. *)
Definition White_Space_above_Latin1 (r : Z) : bool :=
  (r =? 0x1680) || ((0x2000 <=? r) && (r <=? 0x200A))
  || ((0x2028 <=? r) && (r <=? 0x2029)) || (r =? 0x202F)
  || (r =? 0x205F) || (r =? 0x3000).

Definition IsSpace (r : Z) : bool :=
  if (0 <=? r) && (r <=? MaxLatin1) then
    (r =? 9) || (r =? 10) || (r =? 11) || (r =? 12) || (r =? 13)
    || (r =? 32) || (r =? 0x85) || (r =? 0xA0)
  else White_Space_above_Latin1 r.

(** In Latin-1 the printable runes are U+0020..U+007E and
    U+00A1..U+00FF without the soft hyphen U+00AD. *)
Definition IsPrint `{L : GoLib} (r : Z) : bool :=
  if (0 <=? r) && (r <=? MaxLatin1) then
    ((0x20 <=? r) && (r <=? 0x7E))
    || ((0xA1 <=? r) && (r <=? 0xFF) && negb (r =? 0xAD))
  else IsPrintTable r.

End unicode.

(** ** Package [strconv] *)

Module strconv.

Definition lowerhex : string := "0123456789abcdef".

Definition hexdigit (n : Z) : string :=
  match String.get (Z.to_nat n) lowerhex with
  | Some c => str1 c
  | None => EmptyString
  end.

(** [strconv.AppendInt(buf, i, 10)] and [strconv.AppendUint(buf, u, 10)]. *)
Definition AppendInt (buf : string) (i : Z) : string :=
  buf ++ NilZero.string_of_int (Z.to_int i).

Definition AppendUint (buf : string) (u : Z) : string :=
  buf ++ NilZero.string_of_int (Z.to_int u).

Definition Itoa (i : Z) : string := AppendInt EmptyString i.

Definition AppendBool (buf : string) (b : bool) : string :=
  if b then buf ++ "true" else buf ++ "false".

(** [strconv.IsPrint] has the definition of [unicode.IsPrint]. *)
Definition IsPrint `{L : GoLib} (r : Z) : bool := unicode.IsPrint r.

(** The hexadecimal digits the [for s := hi; s >= 0; s -= 4] loops of
    [appendEscapedRune] write, [n] of them. *)
Fixpoint hexdigits (n : nat) (r : Z) : string :=
  match n with
  | O => EmptyString
  | S n' => hexdigit (Z.land (Z.shiftr r (4 * Z.of_nat n')) 0xF) ++ hexdigits n' r
  end.

(** [appendEscapedRune] with the double quote as [quote], [ASCIIonly]
    and [graphicOnly] false. *)
Definition appendEscapedRune `{L : GoLib} (buf : string) (r : Z) : string :=
  if (r =? Z_of_byte dquote) || (r =? Z_of_byte backslash) then
    buf ++ str1 backslash ++ str1 (byte_of_Z r)
  else if IsPrint r then utf8.AppendRune buf r
  else if r =? 7 then buf ++ str1 backslash ++ "a"
  else if r =? 8 then buf ++ str1 backslash ++ "b"
  else if r =? 12 then buf ++ str1 backslash ++ "f"
  else if r =? 10 then buf ++ str1 backslash ++ "n"
  else if r =? 13 then buf ++ str1 backslash ++ "r"
  else if r =? 9 then buf ++ str1 backslash ++ "t"
  else if r =? 11 then buf ++ str1 backslash ++ "v"
  else if (r <? 32) || (r =? 0x7F) then
    buf ++ str1 backslash ++ "x"
        ++ hexdigit (Z.shiftr (Z_of_byte (byte_of_Z r)) 4)
        ++ hexdigit (Z.land (Z_of_byte (byte_of_Z r)) 0xF)
  else if negb (utf8.ValidRune r) then
    buf ++ str1 backslash ++ "u" ++ hexdigits 4 0xFFFD
  else if r <? 0x10000 then
    buf ++ str1 backslash ++ "u" ++ hexdigits 4 r
  else
    buf ++ str1 backslash ++ "U" ++ hexdigits 8 r.

(** The loop of [appendQuotedWith]: one rune of [s] per iteration. *)
Fixpoint quoteLoop `{L : GoLib} (fuel : nat) (buf s : string) : string :=
  match fuel with
  | O => buf
  | S fuel' =>
      match s with
      | EmptyString => buf
      | String c _ =>
          let r0 := Z_of_byte c in
          let '(r, width) :=
            if utf8.RuneSelf <=? r0 then utf8.DecodeRuneInString s
            else (r0, 1%nat) in
          if (width =? 1)%nat && (r =? utf8.RuneError) then
            quoteLoop fuel'
              (buf ++ str1 backslash ++ "x"
                   ++ hexdigit (Z.shiftr r0 4) ++ hexdigit (Z.land r0 0xF))
              (drop width s)
          else quoteLoop fuel' (appendEscapedRune buf r) (drop width s)
      end
  end.

(** [strconv.AppendQuote(buf, s)].  Every iteration consumes at least one
    byte, so [length s] iterations exhaust [s]. *)
Definition AppendQuote `{L : GoLib} (buf s : string) : string :=
  quoteLoop (String.length s) (buf ++ str1 dquote) s ++ str1 dquote.

End strconv.

(** ** The buffer ([type buffer []byte])

    A buffer is the byte sequence it holds.  [newBuffer] takes a buffer from
    the pool; [Free] truncates a buffer to length 0 before it returns it
    there, and the pool's constructor makes one of length 0, so the buffer
    [newBuffer] hands out is always empty. *)

Definition buffer := string.

Definition newBuffer : buffer := EmptyString.

Definition WriteByte (b : buffer) (c : byte) : buffer := b ++ str1 c.

Definition WriteString (b : buffer) (s : string) : buffer := b ++ s.

Definition WriteStringIf (b : buffer) (ok : bool) (s : string) : buffer :=
  if negb ok then b else WriteString b s.

(** ** ANSI modes *)

Definition ansiReset : string := str1 esc ++ "[0m".
Definition ansiFaint : string := str1 esc ++ "[2m".
Definition ansiResetFaint : string := str1 esc ++ "[22m".
Definition ansiBrightRed : string := str1 esc ++ "[91m".
Definition ansiBrightGreen : string := str1 esc ++ "[92m".
Definition ansiBrightYellow : string := str1 esc ++ "[93m".
Definition ansiBrightRedFaint : string := str1 esc ++ "[91;2m".
Definition ansiBrightBlue : string := str1 esc ++ "[34;1m".

Definition errKey : string := "err".

(** ** [needsQuoting] and [appendString] *)

Definition needsQuoting `{L : GoLib} (s : string) : bool :=
  if len s =? 0 then true
  else
    existsb (fun r => unicode.IsSpace r || (r =? Z_of_byte dquote)
                      || (r =? Z_of_byte "="%char) || negb (unicode.IsPrint r))
            (range_runes s).

Definition appendString `{L : GoLib} (buf : buffer) (s : string) (quote : bool) : buffer :=
  if quote && needsQuoting s then strconv.AppendQuote buf s
  else WriteString buf s.

(** ** 64-bit integers *)

Definition min_int64 : Z := - 2 ^ 63.
Definition max_int64 : Z := 2 ^ 63 - 1.

Definition in_int64 (z : Z) : Prop := min_int64 <= z <= max_int64.

(** The value of an [int] computation: the exact result wrapped to 64 bits. *)
Definition wrap64 (z : Z) : Z := (z + 2 ^ 63) mod 2 ^ 64 - 2 ^ 63.

(** ** Go errors

    An [error] is [nil] or a value with its [Error()] text. *)

Definition error : Type := option string.

Definition nil_error : error := None.

(** ** Slices of strings

    A [[]string] is a window on a backing array: the array, the length and
    the capacity.  The slices of the handler all start at index 0 of their
    array (they are only ever appended to).  Backing arrays live in a heap,
    a list indexed by address; the nil slice has length and capacity 0. *)

Record slice := mkSlice {
  slice_array : nat;
  slice_len : nat;
  slice_cap : nat
}.

Definition nil_slice : slice := mkSlice 0 0 0.

Definition arrays := list (list string).

Definition slice_view (m : arrays) (s : slice) : list string :=
  firstn (slice_len s) (nth (slice_array s) m []).

Fixpoint list_set {A : Type} (i : nat) (x : A) (l : list A) : list A :=
  match l, i with
  | [], _ => []
  | _ :: l', O => x :: l'
  | y :: l', S i' => y :: list_set i' x l'
  end.

(** ** The data model of [log/slog] *)

Module slog.

Definition LevelDebug : Z := -4.
Definition LevelInfo : Z := 0.
Definition LevelWarn : Z := 4.
Definition LevelError : Z := 8.

Definition TimeKey : string := "time".
Definition LevelKey : string := "level".
Definition MessageKey : string := "msg".
Definition SourceKey : string := "source".

Definition badKey : string := "!BADKEY".

Inductive Kind :=
| KindAny | KindBool | KindDuration | KindFloat64 | KindInt64
| KindString | KindTime | KindUint64 | KindGroup | KindLogValuer.

Definition Kind_eqb (a b : Kind) : bool :=
  match a, b with
  | KindAny, KindAny | KindBool, KindBool | KindDuration, KindDuration
  | KindFloat64, KindFloat64 | KindInt64, KindInt64 | KindString, KindString
  | KindTime, KindTime | KindUint64, KindUint64 | KindGroup, KindGroup
  | KindLogValuer, KindLogValuer => true
  | _, _ => false
  end.

End slog.

(** What a value of kind [KindAny] holds, as the type switches of the
    handler tell it apart:  the nil interface; a [slog.Level]; a
    [tint.Error] wrapping an error with the given text; a value with a
    [MarshalText] method, given by what the method returns (the text, or
    the text of its error); a [*slog.Source]; and a value of any other
    type, given by the text [fmt.Sprint] makes of it. *)
Inductive AnyVal :=
| ANil
| ALevel (l : Z)
| AError (msg : string)
| ATextMarshaler (res : string + string)
| ASource (src : Source)
| AOther (sprint : string).

Section Tint.

Context `{L : GoLib}.

(** [slog.Value] with [slog.Attr] as the pair of a key and a value.  A
    [LogValuer] is given by the [%T] name of its type and the value its
    [LogValue] method returns. *)
Inductive Value :=
| StringValue (s : string)
| Int64Value (i : Z)
| Uint64Value (u : Z)
| Float64Value (f : spec_float)
| BoolValue (b : bool)
| DurationValue (d : Z)
| TimeValue (t : Time)
| AnyValue (a : AnyVal)
| GroupValue (l : list (string * Value))
| LogValuerValue (type_name : string) (v : Value).

Definition Attr : Type := string * Value.

Definition Key (a : Attr) : string := fst a.
Definition Value_of (a : Attr) : Value := snd a.

Definition Value_Kind (v : Value) : slog.Kind :=
  match v with
  | StringValue _ => slog.KindString
  | Int64Value _ => slog.KindInt64
  | Uint64Value _ => slog.KindUint64
  | Float64Value _ => slog.KindFloat64
  | BoolValue _ => slog.KindBool
  | DurationValue _ => slog.KindDuration
  | TimeValue _ => slog.KindTime
  | AnyValue _ => slog.KindAny
  | GroupValue _ => slog.KindGroup
  | LogValuerValue _ _ => slog.KindLogValuer
  end.

(** [Value.Any()]: for a value of kind [KindAny] what it holds; the
    other kinds box a string, a number, a time and so on, none of which is
    one of the types the handler switches on. *)
Definition Value_Any (v : Value) : option AnyVal :=
  match v with
  | AnyValue a => Some a
  | _ => None
  end.

(** [fmt.Sprint(v.Any())] for a value of kind [KindAny]. *)
Definition Sprint (a : AnyVal) : string :=
  match a with
  | ANil => "<nil>"
  | AError msg => msg
  | AOther text => text
  | ALevel _ | ATextMarshaler _ | ASource _ => EmptyString
  end.

(** [Value.Resolve()]: [LogValue] is called while the value is a
    [LogValuer], at most [maxLogValues] times; after that many calls the
    result is an error value. *)
Definition maxLogValues : nat := 100.

Fixpoint resolve_loop (n : nat) (orig : string) (v : Value) : Value :=
  match n with
  | O => AnyValue (AOther ("LogValue called too many times on Value of type " ++ orig))
  | S n' =>
      match v with
      | LogValuerValue _ v' => resolve_loop n' orig v'
      | _ => v
      end
  end.

Definition Resolve (v : Value) : Value :=
  match v with
  | LogValuerValue ty _ => resolve_loop maxLogValues ty v
  | _ => v
  end.

(** [attr.Equal(slog.Attr{})]: the key is empty and the value is the zero
    [Value], which is of kind [KindAny] and holds nil. *)
Definition Attr_Equal_zero (a : Attr) : bool :=
  (Key a =? EmptyString)%string
  && match Value_of a with
     | AnyValue ANil => true
     | _ => false
     end.

Definition isEmptyGroup (v : Value) : bool :=
  match v with
  | GroupValue [] => true
  | _ => false
  end.

Definition slog_String (key value : string) : Attr := (key, StringValue value).
Definition slog_Time (key : string) (t : Time) : Attr := (key, TimeValue t).

(** ** [slog.Record] *)

Record Record_ := mkRecord {
  Record_Time : Time;
  Record_Message : string;
  Record_Level : Z;
  Record_PC : Z;
  Record_Attrs : list Attr
}.

Definition NewRecord (t : Time) (level : Z) (msg : string) (pc : Z) : Record_ :=
  mkRecord t msg level pc [].

(** [Record.AddAttrs]: the attributes are appended, empty groups left out. *)
Definition AddAttrs (r : Record_) (attrs : list Attr) : Record_ :=
  mkRecord (Record_Time r) (Record_Message r) (Record_Level r) (Record_PC r)
           (Record_Attrs r ++ filter (fun a => negb (isEmptyGroup (Value_of a))) attrs).

(** An argument of a variadic [...any] parameter, as [argsToAttr] tells
    them apart: a string, an [Attr] (with the text [fmt.Sprint] makes of
    it), or a value of another type, given by the [Value] that
    [slog.AnyValue] makes of it. *)
Inductive GoArg :=
| GString (s : string)
| GAttr (a : Attr) (sprint : string)
| GOther (v : Value).

Definition slog_AnyValue (x : GoArg) : Value :=
  match x with
  | GString s => StringValue s
  | GAttr _ text => AnyValue (AOther text)
  | GOther v => v
  end.

(** The loop of [Record.Add] over [argsToAttr]. *)
Fixpoint argsToAttrs (args : list GoArg) : list Attr :=
  match args with
  | [] => []
  | GString x :: [] => [slog_String slog.badKey x]
  | GString x :: v :: rest => (x, slog_AnyValue v) :: argsToAttrs rest
  | GAttr a _ :: rest => a :: argsToAttrs rest
  | GOther v :: rest => (slog.badKey, v) :: argsToAttrs rest
  end.

Definition Add (r : Record_) (args : list GoArg) : Record_ :=
  AddAttrs r (argsToAttrs args).

(** ** [Options] and [Handler] *)

Definition ReplaceAttrFn : Type := list string -> Attr -> Attr.

Definition defaultLevel : Z := slog.LevelInfo.

(** [time.DateTime]. *)
Definition defaultTimeFormat : string := "2006-01-02 15:04:05".

(** [Options]; a nil [Level] or [ReplaceAttr] is [None].  A [Leveler] is
    given by the level its [Level()] method reports. *)
Record Options := mkOptions {
  AddSource : bool;
  Level : option Z;
  ReplaceAttr : option ReplaceAttrFn;
  TimeFormat : string;
  NoColor : bool;
  Skip : Z
}.

(** The [Handler] struct.  [w] is the address of the writer.  [mu] is the
    mutex the struct contains, by value: [true] when it is locked. *)
Record Handler := mkHandler {
  attrsPrefix : string;
  groupPrefix : string;
  groups : slice;
  mu : bool;
  w : nat;
  addSource : bool;
  level : Z;
  replaceAttr : option ReplaceAttrFn;
  timeFormat : string;
  noColor : bool;
  skip : Z
}.

(** ** The formatter *)

Definition appendTime (h : Handler) (buf : buffer) (t : Time) : buffer :=
  let buf := WriteStringIf buf (negb (noColor h)) ansiFaint in
  let buf := buf ++ Time_Format t (timeFormat h) in
  WriteStringIf buf (negb (noColor h)) ansiReset.

Definition appendLevelDelta (buf : buffer) (delta : Z) : buffer :=
  if delta =? 0 then buf
  else
    let buf := if delta >? 0 then WriteByte buf "+"%char else buf in
    strconv.AppendInt buf delta.

Definition appendLevel (h : Handler) (buf : buffer) (level : Z) : buffer :=
  if level <? slog.LevelInfo then
    let buf := WriteStringIf buf (negb (noColor h)) ansiBrightBlue in
    let buf := WriteString buf "DEBUG" in
    let buf := appendLevelDelta buf (wrap64 (level - slog.LevelDebug)) in
    WriteStringIf buf (negb (noColor h)) ansiReset
  else if level <? slog.LevelWarn then
    let buf := WriteStringIf buf (negb (noColor h)) ansiBrightGreen in
    let buf := WriteString buf "INFO" in
    let buf := appendLevelDelta buf (wrap64 (level - slog.LevelInfo)) in
    WriteStringIf buf (negb (noColor h)) ansiReset
  else if level <? slog.LevelError then
    let buf := WriteStringIf buf (negb (noColor h)) ansiBrightYellow in
    let buf := WriteString buf "WARN" in
    let buf := appendLevelDelta buf (wrap64 (level - slog.LevelWarn)) in
    WriteStringIf buf (negb (noColor h)) ansiReset
  else
    let buf := WriteStringIf buf (negb (noColor h)) ansiBrightRed in
    let buf := WriteString buf "ERROR" in
    let buf := appendLevelDelta buf (wrap64 (level - slog.LevelError)) in
    WriteStringIf buf (negb (noColor h)) ansiReset.

Definition appendSource (h : Handler) (buf : buffer) (src : Source) : buffer :=
  let '(dir, file) := filepath_Split (Source_File src) in
  let buf := WriteStringIf buf (negb (noColor h)) ansiFaint in
  let buf := WriteString buf (filepath_Join (filepath_Base dir) file) in
  let buf := WriteByte buf ":"%char in
  let buf := WriteString buf (strconv.Itoa (Source_Line src)) in
  WriteStringIf buf (negb (noColor h)) ansiReset.

Definition appendKey (h : Handler) (buf : buffer) (key groups : string) : buffer :=
  let buf := WriteStringIf buf (negb (noColor h)) ansiFaint in
  let buf := appendString buf (groups ++ key) true in
  let buf := WriteByte buf "="%char in
  WriteStringIf buf (negb (noColor h)) ansiReset.

Definition appendValue (h : Handler) (buf : buffer) (v : Value) (quote : bool) : buffer :=
  match v with
  | StringValue s => appendString buf s quote
  | Int64Value i => strconv.AppendInt buf i
  | Uint64Value u => strconv.AppendUint buf u
  | Float64Value f => buf ++ FormatFloat_g f
  | BoolValue b => strconv.AppendBool buf b
  | DurationValue d => appendString buf (Duration_String d) quote
  | TimeValue t => appendString buf (Time_String t) quote
  | AnyValue a =>
      match a with
      | ALevel cv => appendLevel h buf cv
      | ATextMarshaler res =>
          match res with
          | inr _ => buf
          | inl data => appendString buf data quote
          end
      | ASource cv => appendSource h buf cv
      | _ => appendString buf (Sprint a) quote
      end
  | GroupValue _ | LogValuerValue _ _ => buf
  end.

(** [appendError]; [err] is the text of [err.Error()]. *)
Definition appendError (h : Handler) (buf : buffer) (err : string)
           (groupsPrefix : string) : buffer :=
  let buf := WriteStringIf buf (negb (noColor h)) ansiBrightRedFaint in
  let buf := appendString buf (groupsPrefix ++ errKey) true in
  let buf := WriteByte buf "="%char in
  let buf := WriteStringIf buf (negb (noColor h)) ansiResetFaint in
  let buf := appendString buf err true in
  WriteStringIf buf (negb (noColor h)) ansiReset.

(** [append(s, x)] on a slice of strings: in place when the capacity
    allows it, else into a new backing array that receives the elements
    of [s]. *)
Definition append1 (m : arrays) (s : slice) (x : string) : arrays * slice :=
  if (slice_len s <? slice_cap s)%nat then
    (list_set (slice_array s)
              (list_set (slice_len s) x (nth (slice_array s) m [])) m,
     mkSlice (slice_array s) (S (slice_len s)) (slice_cap s))
  else
    let c := growslice (slice_cap s) in
    ((m ++ [slice_view m s ++ x :: repeat EmptyString (c - S (slice_len s))])%list,
     mkSlice (List.length m) (S (slice_len s)) c).

(** [appendAttr].  The rewrite hook may return a group, whose members
    are rewritten in turn, so the recursion is not bounded by the
    attribute: [fuel] bounds its depth and [None] is the call that has
    not returned within it.  The heap of backing arrays is threaded
    through, since [append(groups, attr.Key)] may write into the array
    of [groups]. *)
Fixpoint appendAttr (fuel : nat) (h : Handler) (m : arrays) (buf : buffer)
         (attr : Attr) (groupsPrefix : string) (groups : slice)
  : option (arrays * buffer) :=
  match fuel with
  | O => None
  | S fuel' =>
      let attr : Attr := (Key attr, Resolve (Value_of attr)) in
      let attr : Attr :=
        match replaceAttr h with
        | Some rep =>
            if negb (slog.Kind_eqb (Value_Kind (Value_of attr)) slog.KindGroup) then
              let attr := rep (slice_view m groups) attr in
              (Key attr, Resolve (Value_of attr))
            else attr
        | None => attr
        end in
      if Attr_Equal_zero attr then Some (m, buf)
      else
        match Value_of attr with
        | GroupValue members =>
            let '(m, groupsPrefix, groups) :=
              if negb (Key attr =? EmptyString)%string then
                let '(m', groups') := append1 m groups (Key attr) in
                (m', groupsPrefix ++ Key attr ++ ".", groups')
              else (m, groupsPrefix, groups) in
            (fix each (l : list Attr) (m : arrays) (buf : buffer)
               : option (arrays * buffer) :=
               match l with
               | [] => Some (m, buf)
               | groupAttr :: l' =>
                   match appendAttr fuel' h m buf groupAttr groupsPrefix groups with
                   | Some (m', buf') => each l' m' buf'
                   | None => None
                   end
               end) members m buf
        | v =>
            match Value_Any v with
            | Some (AError err) =>
                let buf := appendError h buf err groupsPrefix in
                Some (m, WriteByte buf space)
            | _ =>
                let buf := appendKey h buf (Key attr) groupsPrefix in
                let buf := appendValue h buf v true in
                Some (m, WriteByte buf space)
            end
        end
  end.

(** The loop [for _, attr := range attrs { h.appendAttr(buf, attr, ...) }]
    of [WithAttrs], which is also the walk of [r.Attrs] in [Handle]. *)
Fixpoint appendAttrs (fuel : nat) (h : Handler) (m : arrays) (buf : buffer)
         (attrs : list Attr) (groupsPrefix : string) (groups : slice)
  : option (arrays * buffer) :=
  match attrs with
  | [] => Some (m, buf)
  | attr :: rest =>
      match appendAttr fuel h m buf attr groupsPrefix groups with
      | Some (m', buf') => appendAttrs fuel h m' buf' rest groupsPrefix groups
      | None => None
      end
  end.

(** ** The world: handlers, backing arrays, writers

    A [*Handler] is the address of a [Handler] struct in [handlers].  A
    writer is an address in [writers]; it keeps the byte sequences it was
    given, one per call of [Write], and answers each call with an error or
    nil.  [events] is the history of what the handlers did to the mutexes
    and the writers; a mutex is named by the address of the struct that
    contains it. *)

Record Writer := mkWriter {
  written : list string;
  write_result : string -> error
}.

Inductive Event :=
| EvLock (h : nat)
| EvWrite (w : nat) (p : string)
| EvUnlock (h : nat).

Record World := mkWorld {
  handlers : list Handler;
  heap : arrays;
  writers : list Writer;
  events : list Event
}.

Definition io_Write (wr : Writer) (p : string) : Writer * error :=
  (mkWriter (written wr ++ [p])%list (write_result wr), write_result wr p).

Definition Enabled (h : Handler) (lvl : Z) : bool := lvl >=? level h.

(** The assignment of [c] to the last byte of the buffer, index
    [len - 1], on a buffer that is not empty. *)
Fixpoint set_last (buf : buffer) (c : byte) : buffer :=
  match buf with
  | EmptyString => EmptyString
  | String _ EmptyString => String c EmptyString
  | String x rest => String x (set_last rest c)
  end.

(** The first part of [Handle]: what the buffer holds when the record has
    been rendered, before its last byte is overwritten. *)
Definition Handle_render (fuel : nat) (h : Handler) (m : arrays) (r : Record_)
  : option (arrays * buffer) :=
  let buf := newBuffer in
  let rep := replaceAttr h in
  let buf :=
    if negb (Time_IsZero (Record_Time r)) then
      let val := Time_Round0 (Record_Time r) in
      match rep with
      | None => WriteByte (appendTime h buf (Record_Time r)) space
      | Some rep =>
          let a := rep [] (slog_Time slog.TimeKey val) in
          if negb (Key a =? EmptyString)%string then
            let buf :=
              match Value_of a with
              | TimeValue t => appendTime h buf t
              | v => appendValue h buf v false
              end in
            WriteByte buf space
          else buf
      end
    else buf in
  let buf :=
    match rep with
    | None => WriteByte (appendLevel h buf (Record_Level r)) space
    | Some rep =>
        let a := rep [] (slog.LevelKey, AnyValue (ALevel (Record_Level r))) in
        if negb (Key a =? EmptyString)%string then
          WriteByte (appendValue h buf (Value_of a) false) space
        else buf
    end in
  let buf :=
    if addSource h then
      let f := CallersFrames (Record_PC r) in
      if negb (Frame_File f =? EmptyString)%string then
        let src := mkSource (Frame_Function f) (Frame_File f) (Frame_Line f) in
        match rep with
        | None => WriteByte (appendSource h buf src) space
        | Some rep =>
            let a := rep [] (slog.SourceKey, AnyValue (ASource src)) in
            if negb (Key a =? EmptyString)%string then
              WriteByte (appendValue h buf (Value_of a) false) space
            else buf
        end
      else buf
    else buf in
  let buf :=
    match rep with
    | None => WriteByte (WriteString buf (Record_Message r)) space
    | Some rep =>
        let a := rep [] (slog_String slog.MessageKey (Record_Message r)) in
        if negb (Key a =? EmptyString)%string then
          WriteByte (appendValue h buf (Value_of a) false) space
        else buf
    end in
  let buf :=
    if 0 <? len (attrsPrefix h) then WriteString buf (attrsPrefix h) else buf in
  appendAttrs fuel h m buf (Record_Attrs r) (groupPrefix h) (groups h).

Definition set_handler (st : World) (hp : nat) (h : Handler) : World :=
  mkWorld (list_set hp h (handlers st)) (heap st) (writers st) (events st).

(** [Handle].  [None] stands for a call that does not return: the
    rendering has not finished within [fuel], [hp] is not a handler of the
    world or its writer is not one, or the mutex of the handler is held
    (the call blocks in [Lock]). *)
Definition Handle (fuel : nat) (st : World) (hp : nat) (r : Record_)
  : option (World * error) :=
  match nth_error (handlers st) hp with
  | None => None
  | Some h =>
      match Handle_render fuel h (heap st) r with
      | None => None
      | Some (m, buf) =>
          if len buf =? 0 then
            Some (mkWorld (handlers st) m (writers st) (events st), nil_error)
          else
            let buf := set_last buf newline in
            if mu h then None
            else
              match nth_error (writers st) (w h) with
              | None => None
              | Some wr =>
                  let '(wr', err) := io_Write wr buf in
                  Some (mkWorld (handlers st) m
                                (list_set (w h) wr' (writers st))
                                (events st ++ [EvLock hp; EvWrite (w h) buf; EvUnlock hp])%list,
                        err)
              end
      end
  end.

(** [NewHandler]: the new struct is allocated at the next free address. *)
Definition NewHandler (st : World) (wr : nat) (opts : option Options) : World * nat :=
  let h := mkHandler EmptyString EmptyString nil_slice false wr
                     false defaultLevel None defaultTimeFormat false 0 in
  let h :=
    match opts with
    | None => h
    | Some o =>
        mkHandler (attrsPrefix h) (groupPrefix h) (groups h) (mu h) (w h)
                  (AddSource o)
                  (match Level o with Some l => l | None => level h end)
                  (ReplaceAttr o)
                  (if negb (TimeFormat o =? EmptyString)%string
                   then TimeFormat o else timeFormat h)
                  (NoColor o)
                  (if Skip o >? 0 then Skip o else 4)
    end in
  (mkWorld (handlers st ++ [h])%list (heap st) (writers st) (events st),
   List.length (handlers st)).

(** [clone]: a struct literal that names nine fields; [mu] and [skip] are
    not among them and take their zero values. *)
Definition clone (h : Handler) : Handler :=
  mkHandler (attrsPrefix h) (groupPrefix h) (groups h)
            false
            (w h) (addSource h) (level h) (replaceAttr h) (timeFormat h) (noColor h)
            0.

Definition set_attrsPrefix (h : Handler) (p : string) : Handler :=
  mkHandler p (groupPrefix h) (groups h) (mu h) (w h) (addSource h) (level h)
            (replaceAttr h) (timeFormat h) (noColor h) (skip h).

Definition set_groupPrefix (h : Handler) (p : string) : Handler :=
  mkHandler (attrsPrefix h) p (groups h) (mu h) (w h) (addSource h) (level h)
            (replaceAttr h) (timeFormat h) (noColor h) (skip h).

Definition set_groups (h : Handler) (g : slice) : Handler :=
  mkHandler (attrsPrefix h) (groupPrefix h) g (mu h) (w h) (addSource h) (level h)
            (replaceAttr h) (timeFormat h) (noColor h) (skip h).

(** [WithAttrs] returns the receiver itself for an empty list; otherwise
    the clone is a new struct at the next free address. *)
Definition WithAttrs (fuel : nat) (st : World) (hp : nat) (attrs : list Attr)
  : option (World * nat) :=
  if (List.length attrs =? 0)%nat then Some (st, hp)
  else
    match nth_error (handlers st) hp with
    | None => None
    | Some h =>
        let h2 := clone h in
        let buf := newBuffer in
        match appendAttrs fuel h (heap st) buf attrs (groupPrefix h) (groups h) with
        | None => None
        | Some (m, buf) =>
            let h2 := set_attrsPrefix h2 (attrsPrefix h ++ buf) in
            Some (mkWorld (handlers st ++ [h2])%list m (writers st) (events st),
                  List.length (handlers st))
        end
    end.

Definition WithGroup (st : World) (hp : nat) (name : string) : option (World * nat) :=
  if (name =? EmptyString)%string then Some (st, hp)
  else
    match nth_error (handlers st) hp with
    | None => None
    | Some h =>
        let h2 := clone h in
        let h2 := set_groupPrefix h2 (groupPrefix h2 ++ name ++ ".") in
        let '(m, g) := append1 (heap st) (groups h2) name in
        let h2 := set_groups h2 g in
        Some (mkWorld (handlers st ++ [h2])%list m (writers st) (events st),
              List.length (handlers st))
    end.

(** ** [Err] and the wrapper type [Error] *)

(** [Err]: a non-nil error is wrapped in [Error] before [slog.Any] makes
    the attribute; nil stays the nil interface. *)
Definition Err (err : error) : Attr :=
  let a := match err with
           | Some msg => AError msg
           | None => ANil
           end in
  (errKey, AnyValue a).

(** ** [fmt.Sprintf("%.3fms", float64(ns)/1e6)]

    The arithmetic is that of binary64, taken from [SpecFloat]; the verb
    [%.3f] prints the exact value of the float rounded to three decimals,
    ties to even. *)

Definition float64_of_int (i : Z) : spec_float := binary_normalize 53 1024 i 0 false.

Definition float64_div (x y : spec_float) : spec_float := SFdiv 53 1024 x y.

Definition round_half_even (num den : Z) : Z :=
  let q := num / den in
  let r := num mod den in
  if 2 * r <? den then q
  else if den <? 2 * r then q + 1
  else if Z.even q then q else q + 1.

Definition digit (n : Z) : string := strconv.hexdigit n.

Definition pad3 (n : Z) : string :=
  digit (n / 100) ++ digit ((n / 10) mod 10) ++ digit (n mod 10).

Definition Sprintf_f3 (f : spec_float) : string :=
  match f with
  | S754_nan => "NaN"
  | S754_infinity s => if s then "-Inf" else "+Inf"
  | S754_zero s => (if s then "-" else EmptyString) ++ "0.000"
  | S754_finite s m e =>
      let n := if 0 <=? e then Zpos m * 2 ^ e * 1000
               else round_half_even (Zpos m * 1000) (2 ^ (- e)) in
      (if s then "-" else EmptyString)
        ++ strconv.Itoa (n / 1000) ++ "." ++ pad3 (n mod 1000)
  end.

Definition Sprintf_3fms (ns : Z) : string :=
  Sprintf_f3 (float64_div (float64_of_int ns) (float64_of_int 1000000)) ++ "ms".

(** ** The adapter methods of [Handler] (gorm's [logger.Interface])

    [now] is what [time.Now()] returns and [pc] the program counter
    [runtime.Callers(4, ...)] stores; a method that returns nothing gives
    the world it leaves. *)

Definition Handler_Info (fuel : nat) (st : World) (hp : nat) (now : Time) (pc : Z)
           (s : string) (i : list GoArg) : option World :=
  match nth_error (handlers st) hp with
  | None => None
  | Some h =>
      if Enabled h slog.LevelInfo then
        let r := NewRecord now slog.LevelInfo EmptyString pc in
        let r := AddAttrs r [slog_String "msg" s] in
        let r := Add r i in
        option_map fst (Handle fuel st hp r)
      else Some st
  end.

Definition Handler_Warn (fuel : nat) (st : World) (hp : nat) (now : Time) (pc : Z)
           (s : string) (i : list GoArg) : option World :=
  match nth_error (handlers st) hp with
  | None => None
  | Some h =>
      if Enabled h slog.LevelWarn then
        let r := NewRecord now slog.LevelInfo EmptyString pc in
        let r := AddAttrs r [slog_String "msg" s] in
        let r := Add r i in
        option_map fst (Handle fuel st hp r)
      else Some st
  end.

Definition Handler_Error (fuel : nat) (st : World) (hp : nat) (now : Time) (pc : Z)
           (s : string) (i : list GoArg) : option World :=
  match nth_error (handlers st) hp with
  | None => None
  | Some h =>
      if Enabled h slog.LevelError then
        let r := NewRecord now slog.LevelInfo EmptyString pc in
        let r := AddAttrs r [slog_String "msg" s] in
        let r := Add r i in
        option_map fst (Handle fuel st hp r)
      else Some st
  end.

(** [Trace]: [fc] is given by the pair it returns and [elapsed] is
    [time.Since(begin).Nanoseconds()]. *)
Definition Handler_Trace (fuel : nat) (st : World) (hp : nat) (now : Time) (pc : Z)
           (elapsed : Z) (fc : string * Z) (err : error) : option World :=
  match nth_error (handlers st) hp with
  | None => None
  | Some h =>
      if Enabled h slog.LevelInfo then
        let r := NewRecord now slog.LevelInfo EmptyString pc in
        let '(sql, rows) := fc in
        let r := match err with
                 | Some _ => AddAttrs r [Err err]
                 | None => r
                 end in
        let r :=
          if rows =? -1 then
            AddAttrs r [slog_String "time" (Sprintf_3fms elapsed);
                        slog_String "sql" "-"]
          else
            AddAttrs r [slog_String "time" (Sprintf_3fms elapsed);
                        slog_String "sql" sql] in
        option_map fst (Handle fuel st hp r)
      else Some st
  end.

(** ** [Logger]

    The struct embeds a [*slog.Logger] and a [*Handler]; [NewLogger] builds
    both on one handler.  The methods repeat those of [Handler] on the
    embedded handler. *)

Record Logger := mkLogger {
  Logger_Logger : nat;
  Logger_Handler : nat
}.

Definition NewLogger (st : World) (writer : nat) (lvl : Z) : World * Logger :=
  let '(st', h) :=
    NewHandler st writer
               (Some (mkOptions false (Some lvl) None defaultTimeFormat false 0)) in
  (st', mkLogger h h).

Definition Logger_Info (fuel : nat) (st : World) (l : Logger) (now : Time) (pc : Z)
           (s : string) (i : list GoArg) : option World :=
  match nth_error (handlers st) (Logger_Handler l) with
  | None => None
  | Some h =>
      if Enabled h slog.LevelInfo then
        let r := NewRecord now slog.LevelInfo EmptyString pc in
        let r := AddAttrs r [slog_String "msg" s] in
        let r := Add r i in
        option_map fst (Handle fuel st (Logger_Handler l) r)
      else Some st
  end.

Definition Logger_Warn (fuel : nat) (st : World) (l : Logger) (now : Time) (pc : Z)
           (s : string) (i : list GoArg) : option World :=
  match nth_error (handlers st) (Logger_Handler l) with
  | None => None
  | Some h =>
      if Enabled h slog.LevelWarn then
        let r := NewRecord now slog.LevelInfo EmptyString pc in
        let r := AddAttrs r [slog_String "msg" s] in
        let r := Add r i in
        option_map fst (Handle fuel st (Logger_Handler l) r)
      else Some st
  end.

Definition Logger_Error (fuel : nat) (st : World) (l : Logger) (now : Time) (pc : Z)
           (s : string) (i : list GoArg) : option World :=
  match nth_error (handlers st) (Logger_Handler l) with
  | None => None
  | Some h =>
      if Enabled h slog.LevelError then
        let r := NewRecord now slog.LevelInfo EmptyString pc in
        let r := AddAttrs r [slog_String "msg" s] in
        let r := Add r i in
        option_map fst (Handle fuel st (Logger_Handler l) r)
      else Some st
  end.

Definition Logger_Trace (fuel : nat) (st : World) (l : Logger) (now : Time) (pc : Z)
           (elapsed : Z) (fc : string * Z) (err : error) : option World :=
  match nth_error (handlers st) (Logger_Handler l) with
  | None => None
  | Some h =>
      if Enabled h slog.LevelInfo then
        let r := NewRecord now slog.LevelInfo EmptyString pc in
        let '(sql, rows) := fc in
        let r := match err with
                 | Some _ => AddAttrs r [Err err]
                 | None => r
                 end in
        let r :=
          if rows =? -1 then
            AddAttrs r [slog_String "time" (Sprintf_3fms elapsed);
                        slog_String "sql" "-"]
          else
            AddAttrs r [slog_String "time" (Sprintf_3fms elapsed);
                        slog_String "sql" sql] in
        option_map fst (Handle fuel st (Logger_Handler l) r)
      else Some st
  end.

End Tint.

(** ** An instance of the library for running the model

    Every rune above Latin-1 counts as printable, a time is a number of
    seconds printed in decimal (0 is the zero time), paths are Unix paths
    cut at their last two slashes, and [append] doubles capacities. *)

Fixpoint split_last_slash (s : string) : string * string :=
  match s with
  | EmptyString => (EmptyString, EmptyString)
  | String c s' =>
      let '(d, f) := split_last_slash s' in
      if (d =? EmptyString)%string && negb (Ascii.eqb c "/"%char) then
        (EmptyString, String c f)
      else (String c d, f)
  end.

Definition demo_Base (dir : string) : string :=
  let trimmed := String.substring 0 (Nat.pred (String.length dir)) dir in
  snd (split_last_slash trimmed).

Definition demo : GoLib :=
  {| IsPrintTable := fun _ => true;
     Time := Z;
     Time_IsZero := fun t => t =? 0;
     Time_Round0 := fun t => t;
     Time_Format := fun t _ => "T" ++ strconv.Itoa t;
     Time_String := fun t => "T" ++ strconv.Itoa t;
     Duration_String := fun d => strconv.Itoa d ++ "ns";
     FormatFloat_g := fun f => Sprintf_f3 f;
     CallersFrames := fun pc => mkFrame "main.main" "/src/app/main.go" pc;
     filepath_Split := split_last_slash;
     filepath_Base := demo_Base;
     filepath_Join := fun a b => a ++ "/" ++ b;
     growslice := fun c => match c with O => 1%nat | S _ => (c + c)%nat end;
     growslice_fits :=
       fun c =>
         match c return (c < match c with O => 1 | S _ => c + c end)%nat with
         | O => le_n 1
         | S c' => Nat.lt_add_pos_r (S c') (S c') (Nat.lt_0_succ c')
         end |}.


(** * Specifications *)

(** ** Level bands

    The table of the level rendering: the name of the band a level falls
    in, the canonical level of the band, and the suffix for an offset from
    it. *)

Definition band_name (lvl : Z) : string :=
  if lvl <? slog.LevelInfo then "DEBUG"
  else if lvl <? slog.LevelWarn then "INFO"
  else if lvl <? slog.LevelError then "WARN"
  else "ERROR".

Definition band_level (lvl : Z) : Z :=
  if lvl <? slog.LevelInfo then slog.LevelDebug
  else if lvl <? slog.LevelWarn then slog.LevelInfo
  else if lvl <? slog.LevelError then slog.LevelWarn
  else slog.LevelError.

Definition band_colour (lvl : Z) : string :=
  if lvl <? slog.LevelInfo then ansiBrightBlue
  else if lvl <? slog.LevelWarn then ansiBrightGreen
  else if lvl <? slog.LevelError then ansiBrightYellow
  else ansiBrightRed.

(** The decimal digits of a natural number. *)
Definition decimal (n : Z) : string := NilZero.string_of_uint (N.to_uint (Z.to_N n)).

Definition offset_suffix (d : Z) : string :=
  if d =? 0 then EmptyString
  else if 0 <? d then "+" ++ decimal d
  else "-" ++ decimal (- d).

(** An ANSI sequence, present when colour is on. *)
Definition styled `{L : GoLib} (h : Handler) (code : string) : string :=
  if noColor h then EmptyString else code.

(** ** Escaped quotes

    [escaped esc s]: reading [s] from the left, where a backslash escapes
    the byte after it, no double quote stands unescaped and the text does
    not end in the middle of an escape.  [esc] tells whether the byte
    before [s] was an escaping backslash. *)
Fixpoint escaped (esc : bool) (s : string) : bool :=
  match s with
  | EmptyString => negb esc
  | String c s' =>
      if esc then escaped false s'
      else if Ascii.eqb c backslash then escaped true s'
      else if Ascii.eqb c dquote then false
      else escaped false s'
  end.

(** ** Fields of a line *)

(** A field as it stands in the buffer: nothing, when it is not emitted,
    or its text followed by one space. *)
Definition field (s : string) : Prop :=
  s = EmptyString \/ exists text, s = text ++ str1 space.

(** The nesting depth of groups in a value, the bound on the recursion of
    [appendAttr] for a handler whose hook returns no groups. *)
Fixpoint depth `{L : GoLib} (v : Value) : nat :=
  match v with
  | GroupValue l => S (list_max (map (fun a => depth (snd a)) l))
  | LogValuerValue _ v' => depth v'
  | _ => O
  end.

Definition fuel_for `{L : GoLib} (attrs : list Attr) : nat :=
  S (list_max (map (fun a => depth (snd a)) attrs)).

(** A hook that never turns an attribute into a group. *)
Definition flat_hook `{L : GoLib} (h : Handler) : Prop :=
  forall rep, replaceAttr h = Some rep ->
  forall gs a, Value_Kind (Resolve (Value_of (rep gs a))) <> slog.KindGroup.

(** The hook, if there is one, returns the attribute it is given. *)
Definition hook_keeps `{L : GoLib} (h : Handler) (gs : list string) (a : Attr) : Prop :=
  match replaceAttr h with
  | None => True
  | Some rep => rep gs a = a
  end.

(** The attribute prefix of a handler is empty or ends in the space that
    closes its last field. *)
Definition prefix_ok `{L : GoLib} (h : Handler) : Prop := field (attrsPrefix h).

(** ** The fields [Handle] writes before the attributes, each rendered on
    its own. *)

Definition time_field `{L : GoLib} (h : Handler) (r : Record_) : string :=
  if Time_IsZero (Record_Time r) then EmptyString
  else
    match replaceAttr h with
    | None => appendTime h EmptyString (Record_Time r) ++ str1 space
    | Some rep =>
        let a := rep [] (slog_Time slog.TimeKey (Time_Round0 (Record_Time r))) in
        if (Key a =? EmptyString)%string then EmptyString
        else
          match Value_of a with
          | TimeValue t => appendTime h EmptyString t
          | v => appendValue h EmptyString v false
          end ++ str1 space
    end.

Definition level_field `{L : GoLib} (h : Handler) (r : Record_) : string :=
  match replaceAttr h with
  | None => appendLevel h EmptyString (Record_Level r) ++ str1 space
  | Some rep =>
      let a := rep [] (slog.LevelKey, AnyValue (ALevel (Record_Level r))) in
      if (Key a =? EmptyString)%string then EmptyString
      else appendValue h EmptyString (Value_of a) false ++ str1 space
  end.

Definition source_field `{L : GoLib} (h : Handler) (r : Record_) : string :=
  let f := CallersFrames (Record_PC r) in
  if addSource h && negb (Frame_File f =? EmptyString)%string then
    let src := mkSource (Frame_Function f) (Frame_File f) (Frame_Line f) in
    match replaceAttr h with
    | None => appendSource h EmptyString src ++ str1 space
    | Some rep =>
        let a := rep [] (slog.SourceKey, AnyValue (ASource src)) in
        if (Key a =? EmptyString)%string then EmptyString
        else appendValue h EmptyString (Value_of a) false ++ str1 space
    end
  else EmptyString.

Definition message_field `{L : GoLib} (h : Handler) (r : Record_) : string :=
  match replaceAttr h with
  | None => Record_Message r ++ str1 space
  | Some rep =>
      let a := rep [] (slog_String slog.MessageKey (Record_Message r)) in
      if (Key a =? EmptyString)%string then EmptyString
      else appendValue h EmptyString (Value_of a) false ++ str1 space
  end.

(** The texts of the attributes of a list, each rendered on an empty
    buffer, in order, the heap passing from one to the next. *)
Fixpoint attr_fields `{L : GoLib} (fuel : nat) (h : Handler) (m : arrays)
         (attrs : list Attr) (groupsPrefix : string) (groups : slice)
  : option (arrays * list string) :=
  match attrs with
  | [] => Some (m, [])
  | a :: rest =>
      match appendAttr fuel h m EmptyString a groupsPrefix groups with
      | None => None
      | Some (m', text) =>
          match attr_fields fuel h m' rest groupsPrefix groups with
          | None => None
          | Some (m'', texts) => Some (m'', text :: texts)
          end
      end
  end.

Definition concat_strings (l : list string) : string :=
  fold_right String.append EmptyString l.


(** * Concrete handlers and records

    Inputs on which the model is run, all over the instance [demo]. *)

Module Demo.

#[local] Existing Instance demo.

(** A writer that accepts everything. *)
Definition sink : Writer := mkWriter [] (fun _ => nil_error).

(** A handler without colour and without hook, writing to writer 0. *)
Definition plain_handler : Handler :=
  mkHandler EmptyString EmptyString nil_slice false 0 false slog.LevelInfo None
            defaultTimeFormat true 4.

(** The hook that returns every attribute as it is. *)
Definition keep : ReplaceAttrFn := fun _ a => a.

Definition keep_handler : Handler :=
  mkHandler EmptyString EmptyString nil_slice false 0 false slog.LevelInfo (Some keep)
            defaultTimeFormat true 4.

(** A hook that renames every attribute to the empty key. *)
Definition unname : ReplaceAttrFn := fun _ a => (EmptyString, Value_of a).

Definition unname_handler : Handler :=
  mkHandler EmptyString EmptyString nil_slice false 0 false slog.LevelInfo (Some unname)
            defaultTimeFormat true 4.

(** A hook that drops every attribute: it returns the zero [Attr]. *)
Definition drop_all : ReplaceAttrFn := fun _ _ => (EmptyString, AnyValue ANil).

Definition drop_handler : Handler :=
  mkHandler EmptyString EmptyString nil_slice false 0 false slog.LevelInfo (Some drop_all)
            defaultTimeFormat true 4.

Definition world_of (h : Handler) : World := mkWorld [h] [] [sink] [].

(** What a call of [Handle] has written, with the error it returned. *)
Definition output (res : option (World * error)) : option (list Event * error) :=
  option_map (fun x => (events (fst x), snd x)) res.

End Demo.

(** The record the adapter methods [Info], [Warn] and [Error] build from
    their arguments, as the three bodies have it: tagged [slog.LevelInfo],
    with an empty message, the text as the attribute [msg] and the
    remaining arguments after it. *)
Definition info_record `{L : GoLib} (now : Time) (pc : Z) (s : string)
           (i : list GoArg) : Record_ :=
  Add (AddAttrs (NewRecord now slog.LevelInfo EmptyString pc) [slog_String "msg" s]) i.

(** ** The steps of [appendAttr], named

    [rewritten]: the attribute after [Resolve], the hook and the second
    [Resolve]; [leaf]: what the last branch writes for an attribute that is
    not a group. *)

Definition resolved `{L : GoLib} (a : Attr) : Attr := (Key a, Resolve (Value_of a)).

Definition rewritten `{L : GoLib} (h : Handler) (gs : list string) (a : Attr) : Attr :=
  match replaceAttr h with
  | Some rep =>
      if negb (slog.Kind_eqb (Value_Kind (Value_of (resolved a))) slog.KindGroup)
      then resolved (rep gs (resolved a))
      else resolved a
  | None => resolved a
  end.

Definition leaf `{L : GoLib} (h : Handler) (buf : buffer) (a : Attr)
           (groupsPrefix : string) : buffer :=
  match Value_Any (Value_of a) with
  | Some (AError err) => WriteByte (appendError h buf err groupsPrefix) space
  | _ => WriteByte (appendValue h (appendKey h buf (Key a) groupsPrefix) (Value_of a) true)
                   space
  end.

(** The result of a rendering on the empty buffer, moved behind [buf]. *)
Definition behind (buf : buffer) (res : option (arrays * buffer))
  : option (arrays * buffer) :=
  match res with
  | Some (m, text) => Some (m, buf ++ text)
  | None => None
  end.

(** The buffer [Handle] has built when the attributes rendered as [texts]. *)
Definition line_buffer `{L : GoLib} (h : Handler) (r : Record_) (texts : list string)
  : buffer :=
  time_field h r ++ level_field h r ++ source_field h r ++ message_field h r
    ++ attrsPrefix h ++ concat_strings texts.

(** The world after a call of [Handle] that wrote [line]: the heap is [m],
    the writer of the handler has received [line] in one call, and the
    history shows the write between the lock and the unlock of the mutex of
    the handler. *)
Definition wrote `{L : GoLib} (st : World) (hp : nat) (h : Handler) (wr : Writer)
           (m : arrays) (line : string) : World :=
  mkWorld (handlers st) m
          (list_set (w h) (mkWriter (written wr ++ [line])%list (write_result wr))
                    (writers st))
          (events st ++ [EvLock hp; EvWrite (w h) line; EvUnlock hp])%list.

(** The world after a call of [Handle] that wrote nothing. *)
Definition wrote_nothing `{L : GoLib} (st : World) (m : arrays) : World :=
  mkWorld (handlers st) m (writers st) (events st).

(** The record [Trace] builds: level Info, no message, the wrapped error
    first when there is one, then the elapsed time, as the text [text],
    and the SQL text, or [-] in its place when the row count is -1. *)
Definition trace_attrs `{L : GoLib} (text sql : string) (rows : Z)
           (err : error) : list Attr :=
  (match err with
   | Some msg => [(errKey, AnyValue (AError msg))]
   | None => []
   end
   ++ [("time", StringValue text);
       ("sql", StringValue (if rows =? -1 then "-" else sql))])%list.

Definition trace_record `{L : GoLib} (now : Time) (pc : Z) (text sql : string)
           (rows : Z) (err : error) : Record_ :=
  mkRecord now EmptyString slog.LevelInfo pc (trace_attrs text sql rows err).

(** A figure with three decimals followed by [ms]. *)
Definition milliseconds_text (s : string) : Prop :=
  exists (neg : bool) (whole d1 d2 d3 : Z),
    0 <= whole /\ 0 <= d1 <= 9 /\ 0 <= d2 <= 9 /\ 0 <= d3 <= 9
    /\ s = (if neg then "-" else EmptyString) ++ decimal whole ++ "."
             ++ decimal d1 ++ decimal d2 ++ decimal d3 ++ "ms".

(** ** Slices in the heap *)

(** A slice fits the heap: its length is within its capacity, and a slice
    with room (capacity above 0) has a backing array of that many
    elements. *)
Definition slice_ok (m : arrays) (s : slice) : Prop :=
  (slice_len s <= slice_cap s)%nat
  /\ ((0 < slice_cap s)%nat ->
      (slice_array s < List.length m)%nat
      /\ List.length (nth (slice_array s) m []) = slice_cap s).

(** From [m] to [m'] no array of [m] has changed, except that the array of
    [g] may have changed from index [len(g)] on; arrays may have been
    added. *)
Definition frame (g : slice) (m m' : arrays) : Prop :=
  (List.length m <= List.length m')%nat
  /\ forall a, (a < List.length m)%nat ->
       (a <> slice_array g -> nth a m' [] = nth a m [])
       /\ (a = slice_array g ->
           firstn (slice_len g) (nth a m' []) = firstn (slice_len g) (nth a m [])
           /\ List.length (nth a m' []) = List.length (nth a m [])).

(** [g'] was made from [g] by [append] in the heap [m]: the same array
    with at least the length of [g], or an array added after [m]. *)
Definition extends (g g' : slice) (m : arrays) : Prop :=
  (slice_array g' = slice_array g /\ (slice_len g <= slice_len g')%nat)
  \/ (List.length m <= slice_array g')%nat.

(** The state a derived handler shares with or copies from its parent:
    the writer, and the options of the handler. *)
Definition same_options `{L : GoLib} (parent derived : Handler) : Prop :=
  w derived = w parent
  /\ addSource derived = addSource parent
  /\ level derived = level parent
  /\ replaceAttr derived = replaceAttr parent
  /\ timeFormat derived = timeFormat parent
  /\ noColor derived = noColor parent.

Module Derived.

#[local] Existing Instance demo.

(** A handler made by [NewHandler] with the default options, and the
    handler derived from it by [WithGroup]. *)
Definition fresh : World * nat :=
  NewHandler (mkWorld [] [] [Demo.sink] [])
             0 (Some (mkOptions false None None EmptyString true 0)).

Definition derived : option (World * nat) :=
  WithGroup (fst fresh) (snd fresh) "db".

(** Handlers derived one from the other by [WithGroup], three deep, and
    two handlers derived from the third. *)
Definition chain : option (World * (nat * nat)) :=
  match WithGroup (fst fresh) (snd fresh) "a" with
  | Some (st1, h1) =>
      match WithGroup st1 h1 "b" with
      | Some (st2, h2) =>
          match WithGroup st2 h2 "c" with
          | Some (st3, h3) =>
              match WithGroup st3 h3 "d" with
              | Some (st4, h4) =>
                  match WithGroup st4 h3 "e" with
                  | Some (st5, h5) => Some (st5, (h4, h5))
                  | None => None
                  end
              | None => None
              end
          | None => None
          end
      | None => None
      end
  | None => None
  end.

(** The group names a handler of a world stands under. *)
Definition groups_of (st : World) (hp : nat) : option (list string) :=
  option_map (fun h => slice_view (heap st) (groups h)) (nth_error (handlers st) hp).

End Derived.

(** ** The handlers of a world

    What [NewHandler] establishes and the derivations and [Handle] keep:
    the attribute prefix of every handler is a sequence of fields, its
    group stack fits the heap, and its mutex is free between calls. *)
Definition handler_ok `{L : GoLib} (m : arrays) (h : Handler) : Prop :=
  prefix_ok h /\ slice_ok m (groups h) /\ mu h = false.

Definition World_ok `{L : GoLib} (st : World) : Prop :=
  Forall (handler_ok (heap st)) (handlers st).

(** A byte that is neither the backslash nor the double quote. *)
Definition plain (c : byte) : Prop :=
  Ascii.eqb c backslash = false /\ Ascii.eqb c dquote = false.

(** A piece of text that leaves the reading of escapes where it was. *)
Definition chunk (a : string) : Prop :=
  forall b, escaped false (a ++ b) = escaped false b.

(** A float that is zero or finite, with bounds on the size of its
    mantissa and on its exponent. *)
Definition finite_within (D E : Z) (x : spec_float) : Prop :=
  match x with
  | S754_zero _ => True
  | S754_finite _ m e => Zpos (digits2_pos m) <= D /\ e <= E
  | _ => False
  end.

(** * The rest of the package

    [Log] and [LogMode] of [Handler] and [Logger] (the kratos adapter), the
    buffer pool, and the definitions the properties of derivation, of
    quoting and of termination are stated with. *)

(** ** Package [github.com/go-kratos/kratos/v2/log] *)

Module kratos.

Definition LevelDebug : Z := -1.
Definition LevelInfo : Z := 0.
Definition LevelWarn : Z := 1.
Definition LevelError : Z := 2.
Definition LevelFatal : Z := 3.

End kratos.

(** [var r slog.Record]: the zero record, whose time is the zero
    [time.Time] [t0]. *)
Definition zero_Record `{L : GoLib} (t0 : Time) : Record_ :=
  mkRecord t0 EmptyString 0 0 [].

(** [Handler.Log].  The switch has no default: a level that is none of
    the five leaves [r] the zero record. *)
Definition Handler_Log `{L : GoLib} (fuel : nat) (st : World) (hp : nat) (lvl : Z)
           (now t0 : Time) (pc : Z) (keyvals : list GoArg) : option (World * error) :=
  let r := zero_Record t0 in
  let r :=
    if lvl =? kratos.LevelDebug then
      Add (NewRecord now slog.LevelDebug EmptyString pc) keyvals
    else if lvl =? kratos.LevelInfo then
      Add (NewRecord now slog.LevelInfo EmptyString pc) keyvals
    else if lvl =? kratos.LevelWarn then
      Add (NewRecord now slog.LevelWarn EmptyString pc) keyvals
    else if lvl =? kratos.LevelError then
      Add (NewRecord now slog.LevelError EmptyString pc) keyvals
    else if lvl =? kratos.LevelFatal then
      Add (NewRecord now slog.LevelError EmptyString pc) keyvals
    else r in
  Handle fuel st hp r.

Definition Logger_Log `{L : GoLib} (fuel : nat) (st : World) (l : Logger) (lvl : Z)
           (now t0 : Time) (pc : Z) (keyAndValues : list GoArg)
  : option (World * error) :=
  let r := zero_Record t0 in
  let r :=
    if lvl =? kratos.LevelDebug then
      Add (NewRecord now slog.LevelDebug EmptyString pc) keyAndValues
    else if lvl =? kratos.LevelInfo then
      Add (NewRecord now slog.LevelInfo EmptyString pc) keyAndValues
    else if lvl =? kratos.LevelWarn then
      Add (NewRecord now slog.LevelWarn EmptyString pc) keyAndValues
    else if lvl =? kratos.LevelError then
      Add (NewRecord now slog.LevelError EmptyString pc) keyAndValues
    else if lvl =? kratos.LevelFatal then
      Add (NewRecord now slog.LevelError EmptyString pc) keyAndValues
    else r in
  Handle fuel st (Logger_Handler l) r.

(** [LogMode] ignores its argument and returns the receiver. *)
Definition Handler_LogMode (hp : nat) (lvl : Z) : nat := hp.

Definition Logger_LogMode `{L : GoLib} (l : Logger) (lvl : Z) : Logger := l.

(** ** The buffer pool

    A [*buffer] with its capacity; [bufPool] as the buffers it holds.
    [sync.Pool.Get] may return any buffer of the pool or none of them, in
    which case [New] makes one: [pick] is the choice it makes. *)

Module pool.

Record buffer := mkBuffer {
  data : string;
  cap : nat
}.

Definition maxBufferSize : nat := 16 * 1024.

Definition New : buffer := mkBuffer EmptyString 1024.

Fixpoint remove_nth {A : Type} (i : nat) (l : list A) : list A :=
  match l, i with
  | [], _ => []
  | _ :: l', O => l'
  | x :: l', S i' => x :: remove_nth i' l'
  end.

Definition Get (p : list buffer) (pick : option nat) : buffer * list buffer :=
  match pick with
  | Some i =>
      match nth_error p i with
      | Some b => (b, remove_nth i p)
      | None => (New, p)
      end
  | None => (New, p)
  end.

Definition Put (p : list buffer) (b : buffer) : list buffer := b :: p.

Definition newBuffer (p : list buffer) (pick : option nat) : buffer * list buffer :=
  Get p pick.

(** [Free]: a buffer within the size limit is cut to length 0 and put
    back; a larger one is left to the garbage collector. *)
Definition Free (p : list buffer) (b : buffer) : list buffer :=
  if (cap b <=? maxBufferSize)%nat then Put p (mkBuffer EmptyString (cap b))
  else p.

(** What every buffer of the pool satisfies. *)
Definition pooled (b : buffer) : Prop :=
  data b = EmptyString /\ (cap b <= maxBufferSize)%nat.

(** What the callers do to the pool: they take a buffer with [newBuffer]
    and give one back with [Free], in whatever state they have brought
    it to.  A caller does not write to a buffer it has freed, as [Handle]
    and [WithAttrs], which free theirs on return, do not. *)
Inductive op :=
| OpGet (pick : option nat)
| OpFree (b : buffer).

Definition step (p : list buffer) (o : op) : list buffer :=
  match o with
  | OpGet pick => snd (newBuffer p pick)
  | OpFree b => Free p b
  end.

(** The pool after a sequence of calls, from the empty pool the program
    starts with. *)
Definition run (ops : list op) : list buffer := fold_left step ops [].

End pool.

(** ** Definitions for the properties *)

(** The four fields of a handler that the formatter reads. *)
Definition style_of `{L : GoLib} (h : Handler) : Handler :=
  mkHandler EmptyString EmptyString nil_slice false 0 (addSource h) 0 (replaceAttr h)
            (timeFormat h) (noColor h) 0.

(** What the writer at [wr] holds after a call of [Handle], with the
    error the call returned. *)
Definition outcome `{L : GoLib} (wr : nat) (res : option (World * error))
  : option (option (list string) * error) :=
  option_map (fun x => (option_map written (nth_error (writers (fst x)) wr), snd x)) res.

(** [r] with the attributes [attrs] before its own. *)
Definition with_attrs_first `{L : GoLib} (attrs : list Attr) (r : Record_) : Record_ :=
  mkRecord (Record_Time r) (Record_Message r) (Record_Level r) (Record_PC r)
           (attrs ++ Record_Attrs r)%list.

(** [r] with its attributes as the members of one group [name]. *)
Definition in_group `{L : GoLib} (name : string) (r : Record_) : Record_ :=
  mkRecord (Record_Time r) (Record_Message r) (Record_Level r) (Record_PC r)
           [(name, GroupValue (Record_Attrs r))].

(** The bytes of a string. *)
Definition bytes (s : string) : list Z := map Z_of_byte (list_ascii_of_string s).

(** No control character: every byte is at least the space and is not
    DEL. *)
Definition no_control (s : string) : Prop :=
  forall b, In b (bytes s) -> 0x20 <= b /\ b <> 0x7F.

(** The first [k] bytes of [s] are there and are not ASCII. *)
Definition high_prefix (k : nat) (s : string) : Prop :=
  forall i, (i < k)%nat -> 0x80 <= at_ s i.

(** A hook that turns every attribute into a group with a member that is
    not a group. *)
Definition expanding_hook `{L : GoLib} (rep : ReplaceAttrFn) : Prop :=
  forall gs a,
  exists members x,
    Resolve (Value_of (rep gs a)) = GroupValue members
    /\ In x members
    /\ Value_Kind (Resolve (Value_of x)) <> slog.KindGroup.

(** [&Options{}]: the options with every field at its zero value. *)
Definition zero_Options `{L : GoLib} : Options :=
  mkOptions false None None EmptyString false 0.

Module Demo2.

#[local] Existing Instance demo.

(** A hook that wraps whatever it gets in a group. *)
Definition wrap : ReplaceAttrFn := fun _ a => ("g", GroupValue [("x", Int64Value 1)]).

Definition wrap_handler : Handler :=
  mkHandler EmptyString EmptyString nil_slice false 0 false slog.LevelInfo (Some wrap)
            defaultTimeFormat true 4.

(** A handler whose minimum level is Error. *)
Definition error_handler : Handler :=
  mkHandler EmptyString EmptyString nil_slice false 0 false slog.LevelError None
            defaultTimeFormat true 4.

(** The plain handler with the attribute [request=7] added, and the
    plain handler under the group [db]. *)
Definition with_request : World * nat :=
  match WithAttrs 1 (Demo.world_of Demo.plain_handler) 0 [("request", Int64Value 7)] with
  | Some x => x
  | None => (Demo.world_of Demo.plain_handler, 0%nat)
  end.

Definition under_db : World * nat :=
  match WithGroup (Demo.world_of Demo.plain_handler) 0 "db" with
  | Some x => x
  | None => (Demo.world_of Demo.plain_handler, 0%nat)
  end.

Definition rows_record : Record_ :=
  AddAttrs (NewRecord 5 slog.LevelInfo "query" 0) [("rows", Int64Value 3)].

(** The world after the plain handler has handled [rows_record]. *)
Definition after_rows : World :=
  match Handle 1 (Demo.world_of Demo.plain_handler) 0 rows_record with
  | Some x => fst x
  | None => Demo.world_of Demo.plain_handler
  end.

End Demo2.

(** ** The line, without the heap

    The text of an attribute as a function of the attribute, the names of
    the groups it stands under and their prefix.  An attribute that the
    hook has turned into the zero attribute gives nothing; a group gives
    the texts of its members, under its name when it has one; any other
    attribute gives its key, the equals sign and its value, followed by
    one space. *)

(** A hook that returns no group for an attribute that is not a group.
    The hook is never given a group: [appendAttr] walks into it. *)
Definition leaf_hook `{L : GoLib} (h : Handler) : Prop :=
  forall rep, replaceAttr h = Some rep ->
  forall gs a,
    Value_Kind (Resolve (Value_of a)) <> slog.KindGroup ->
    Value_Kind (Resolve (Value_of (rep gs (resolved a)))) <> slog.KindGroup.

(** The key and the value of an attribute that is not a group, as
    [appendError] writes them for a wrapped error and [appendKey] and
    [appendValue] for anything else. *)
Definition key_value `{L : GoLib} (h : Handler) (a : Attr) (gp : string) : string :=
  match Value_Any (Value_of a) with
  | Some (AError err) => appendError h EmptyString err gp
  | _ => appendValue h (appendKey h EmptyString (Key a) gp) (Value_of a) true
  end.

Fixpoint all_texts (l : list (option string)) : option (list string) :=
  match l with
  | [] => Some []
  | None :: _ => None
  | Some t :: rest =>
      match all_texts rest with
      | Some ts => Some (t :: ts)
      | None => None
      end
  end.

Fixpoint attr_text `{L : GoLib} (fuel : nat) (h : Handler) (gs : list string)
         (gp : string) (a : Attr) : option string :=
  match fuel with
  | O => None
  | S fuel' =>
      let a' := rewritten h gs a in
      if Attr_Equal_zero a' then Some EmptyString
      else
        match Value_of a' with
        | GroupValue members =>
            if (Key a' =? EmptyString)%string then
              option_map concat_strings (all_texts (map (attr_text fuel' h gs gp) members))
            else
              option_map concat_strings
                (all_texts (map (attr_text fuel' h (gs ++ [Key a'])%list
                                           (gp ++ Key a' ++ "."))
                                members))
        | _ => Some (key_value h a' gp ++ str1 space)
        end
  end.

(** The texts of the attributes of a list, in order; [None] when the
    rendering of one of them does not return. *)
Definition attr_texts `{L : GoLib} (fuel : nat) (h : Handler) (gs : list string)
           (gp : string) (attrs : list Attr) : option (list string) :=
  all_texts (map (attr_text fuel h gs gp) attrs).

(** The text of a value that is written through [appendString]: a
    string, a duration, a time, the text a [MarshalText] method has
    returned, and what [fmt.Sprint] prints for a value of a type the
    handler does not know. *)
Definition value_text `{L : GoLib} (v : Value) : option string :=
  match v with
  | StringValue s => Some s
  | DurationValue d => Some (Duration_String d)
  | TimeValue t => Some (Time_String t)
  | AnyValue (ATextMarshaler (inl data)) => Some data
  | AnyValue ANil => Some (Sprint ANil)
  | AnyValue (AError msg) => Some (Sprint (AError msg))
  | AnyValue (AOther text) => Some (Sprint (AOther text))
  | _ => None
  end.

(** [out] is [buf] followed by a text between two double quotes in which
    every double quote is escaped. *)
Definition quoted_after (buf out : string) : Prop :=
  exists body,
    out = buf ++ str1 dquote ++ body ++ str1 dquote /\ escaped false body = true.

(** [s] is the figure [%.3fms] prints for [ns] nanoseconds: a sign for a
    negative count, then the milliseconds with three decimals.  Read as a
    count of microseconds, the figure is the count of nanoseconds divided
    by 1000 and rounded: it is within half a microsecond of it, and one
    part in [2 ^ 50] of the elapsed time more, which is what the two
    roundings of binary64, of the conversion and of the division, can
    add. *)
Definition milliseconds_of (ns : Z) (s : string) : Prop :=
  exists whole d1 d2 d3 : Z,
    0 <= whole /\ 0 <= d1 <= 9 /\ 0 <= d2 <= 9 /\ 0 <= d3 <= 9
    /\ s = (if ns <? 0 then "-" else EmptyString) ++ decimal whole ++ "."
             ++ decimal d1 ++ decimal d2 ++ decimal d3 ++ "ms"
    /\ 2 ^ 50 * (Z.abs (1000 * (1000 * whole + 100 * d1 + 10 * d2 + d3) - Z.abs ns) - 500)
       <= Z.abs ns.

(** * Package [log] ([log.go] and its gorm adapter)

    The package builds a [*slog.Logger] on the handler of
    [github.com/lmittmann/tint] and keeps two package-level variables:
    [defaultOptions], a pointer to one [Options] struct, and [levelVar],
    the [slog.LevelVar] every handler it makes reads its level from.  A
    call of a method of the [*slog.Logger] is given by its level, its
    message and its attributes. *)

Module gormlogger.

(** [gorm.io/gorm/logger]: the levels and [Config]. *)
Definition Silent : Z := 1.
Definition Error : Z := 2.
Definition Warn : Z := 3.
Definition Info : Z := 4.

Record Config := mkConfig {
  SlowThreshold : Z;
  Colorful : bool;
  IgnoreRecordNotFoundError : bool;
  ParameterizedQueries : bool;
  LogLevel : Z
}.

Definition zero_Config : Config := mkConfig 0 false false false 0.

End gormlogger.

Module logpkg.

Record Options := mkOptions {
  FilenamePrefix : string;
  Level : string;
  Filepath : string;
  OutputType : string;
  MaxSize : Z;
  MaxBackups : Z;
  MaxAge : Z;
  Compress : bool
}.

(** [Option], a function on a pointer to [Options]: what the function
    leaves in the struct it is given. *)
Definition Option : Type := Options -> Options.

Definition WithLevel (level : string) : Option :=
  fun o => mkOptions (FilenamePrefix o) level (Filepath o) (OutputType o) (MaxSize o)
                     (MaxBackups o) (MaxAge o) (Compress o).

Definition WithOutputType (outputType : string) : Option :=
  fun o => mkOptions (FilenamePrefix o) (Level o) (Filepath o) outputType (MaxSize o)
                     (MaxBackups o) (MaxAge o) (Compress o).

Definition WithMaxSize (maxSize : Z) : Option :=
  fun o => mkOptions (FilenamePrefix o) (Level o) (Filepath o) (OutputType o) maxSize
                     (MaxBackups o) (MaxAge o) (Compress o).

Definition WithMaxBackups (maxBackups : Z) : Option :=
  fun o => mkOptions (FilenamePrefix o) (Level o) (Filepath o) (OutputType o) (MaxSize o)
                     maxBackups (MaxAge o) (Compress o).

Definition WithMaxAge (maxAge : Z) : Option :=
  fun o => mkOptions (FilenamePrefix o) (Level o) (Filepath o) (OutputType o) (MaxSize o)
                     (MaxBackups o) maxAge (Compress o).

Definition WithCompress (compress : bool) : Option :=
  fun o => mkOptions (FilenamePrefix o) (Level o) (Filepath o) (OutputType o) (MaxSize o)
                     (MaxBackups o) (MaxAge o) compress.

(** The package-level variables.  [defaultOptions] is the struct the
    pointer of that name points to; [levelVar] is the level the
    [slog.LevelVar] holds. *)
Record Globals := mkGlobals {
  defaultOptions : Options;
  levelVar : Z
}.

(** The variables as the program starts: the literal of
    [defaultOptions], and a new [slog.LevelVar], which holds
    [slog.LevelInfo]. *)
Definition initial : Globals :=
  mkGlobals (mkOptions EmptyString "INFO" EmptyString "console" 1 1 1 true) slog.LevelInfo.

(** The map [Level]; an index with a key that is absent gives the zero
    level. *)
Definition Level_map : list (string * Z) :=
  [("INFO", slog.LevelInfo); ("WARN", slog.LevelWarn); ("DEBUG", slog.LevelDebug);
   ("ERROR", slog.LevelError)].

Definition Level_at (name : string) : Z :=
  match find (fun kv => (fst kv =? name)%string) Level_map with
  | Some kv => snd kv
  | None => 0
  end.

(** [strings.ToUpper]: a string of ASCII has its letters [a] to [z]
    replaced; any other string goes through [strings.Map] with
    [unicode.ToUpper], which is [mapped]. *)
Definition upper (c : byte) : byte :=
  if (Z_of_byte "a"%char <=? Z_of_byte c) && (Z_of_byte c <=? Z_of_byte "z"%char)
  then byte_of_Z (Z_of_byte c - 32) else c.

Definition isASCII (s : string) : bool :=
  forallb (fun c => Z_of_byte c <? utf8.RuneSelf) (list_ascii_of_string s).

Definition ToUpper (mapped : string -> string) (s : string) : string :=
  if isASCII s then string_of_list_ascii (map upper (list_ascii_of_string s))
  else mapped s.

(** The writer [NewLogger] makes: [os.Stdout], or a [lumberjack.Logger]
    with these fields. *)
Inductive Output :=
| Stdout
| File (Filename : string) (maxSize maxBackups maxAge : Z) (compress : bool).

(** What the library gives [NewLogger]: [strings.Map(unicode.ToUpper, _)],
    [filepath.Clean], [filepath.Join] of two elements, and the date of
    [time.Now()] in the layout [time.DateOnly]. *)
Record Env := mkEnv {
  mapped_upper : string -> string;
  Clean : string -> string;
  Join : string -> string -> string;
  today : string
}.

(** A [*Logger]: the writer and the options its tint handler was made
    with (the level is [levelVar], the time format [time.DateTime]), and
    the gorm configuration. *)
Record Logger := mkLogger {
  writer : Output;
  NoColor : bool;
  AddSource : bool;
  gormLoggerConfig : gormlogger.Config
}.

(** [NewLogger].  [options := defaultOptions] copies the pointer, so the
    options of the call are applied to the package-level struct. *)
Definition NewLogger (g : Globals) (opts : list Option) (e : Env) : Globals * Logger :=
  let options := fold_left (fun o opt => opt o) opts (defaultOptions g) in
  let lvl := Level_at (ToUpper (mapped_upper e) (Level options)) in
  let '(w, noColor) :=
    if (OutputType options =? "file")%string then
      (File (Join e (Clean e (Filepath options))
                  (FilenamePrefix options ++ "_" ++ today e ++ ".log"))
            (MaxSize options) (MaxBackups options) (MaxAge options) (Compress options),
       true)
    else (Stdout, false) in
  (mkGlobals options lvl, mkLogger w noColor true gormlogger.zero_Config).

Definition SetLevel (g : Globals) (level : string) : Globals :=
  mkGlobals (defaultOptions g) (Level_at level).

(** [LogMode] assigns to the field of the receiver and returns the
    receiver: the struct after the call. *)
Definition LogMode (l : Logger) (level : Z) : Logger :=
  mkLogger (writer l) (NoColor l) (AddSource l)
           (gormlogger.mkConfig (gormlogger.SlowThreshold (gormLoggerConfig l))
                                (gormlogger.Colorful (gormLoggerConfig l))
                                (gormlogger.IgnoreRecordNotFoundError (gormLoggerConfig l))
                                (gormlogger.ParameterizedQueries (gormLoggerConfig l))
                                level).

Section Calls.

Context `{L : GoLib}.

(** A call of [Debug], [Info], [Warn] or [Error] (or of their [Context]
    forms) on the embedded [*slog.Logger]. *)
Record Call := mkCall {
  call_level : Z;
  call_msg : string;
  call_args : list GoArg
}.

(** An attribute given as an argument; [fmt.Sprint] is not asked for. *)
Definition arg (a : Attr) : GoArg := GAttr a EmptyString.

(** [Logger.Log], the kratos method: the call it makes; it returns nil. *)
Definition Log (lvl : Z) (args : list GoArg) : Call * error :=
  (if lvl =? kratos.LevelDebug then mkCall slog.LevelDebug EmptyString args
   else if lvl =? kratos.LevelWarn then mkCall slog.LevelWarn EmptyString args
   else if lvl =? kratos.LevelError then mkCall slog.LevelError EmptyString args
   else if lvl =? kratos.LevelInfo then mkCall slog.LevelInfo EmptyString args
   else mkCall slog.LevelError EmptyString args,
   nil_error).

Definition Info (s : string) (i : list GoArg) : Call := mkCall slog.LevelInfo s i.
Definition Warn (s : string) (i : list GoArg) : Call := mkCall slog.LevelWarn s i.
Definition Error (s : string) (i : list GoArg) : Call := mkCall slog.LevelError s i.

(** An error as [Trace] reads it: the text of [err.Error()] and whether
    [errors.Is(err, gorm.ErrRecordNotFound)]. *)
Record GormError := mkGormError {
  Error_text : string;
  is_ErrRecordNotFound : bool
}.

(** [Trace]: the call it makes, if it makes one.  [elapsed] is
    [time.Since(begin)] in nanoseconds, [fc] the pair the callback
    returns and [line] the text of [utils.FileWithLineNum()]. *)
Definition Trace (l : Logger) (elapsed : Z) (fc : string * Z) (err : option GormError)
           (line : string) : option Call :=
  let cfg := gormLoggerConfig l in
  if gormlogger.LogLevel cfg <=? gormlogger.Silent then None
  else
    let '(sql, rows) := fc in
    let attrs (sql : string) :=
      [arg (slog_String "line" line);
       arg (slog_String "elapsed" (Sprintf_3fms elapsed));
       arg (slog_String "sql" sql)] in
    if match err with
       | Some e =>
           (gormlogger.LogLevel cfg >=? gormlogger.Error)
           && (negb (is_ErrRecordNotFound e)
               || negb (gormlogger.IgnoreRecordNotFoundError cfg))
       | None => false
       end
    then
      match err with
      | Some e =>
          if rows =? -1 then Some (mkCall slog.LevelError (Error_text e) (attrs "-"))
          else Some (mkCall slog.LevelError (Error_text e) (attrs sql))
      | None => None
      end
    else if (elapsed >? gormlogger.SlowThreshold cfg)
            && negb (gormlogger.SlowThreshold cfg =? 0)
            && (gormlogger.LogLevel cfg >=? gormlogger.Warn)
    then
      let slowLog := "SLOW SQL >= " ++ Duration_String (gormlogger.SlowThreshold cfg) in
      if rows =? -1 then Some (mkCall slog.LevelWarn slowLog (attrs "-"))
      else Some (mkCall slog.LevelWarn slowLog (attrs sql))
    else if gormlogger.LogLevel cfg =? gormlogger.Info then
      if rows =? -1 then Some (mkCall slog.LevelInfo EmptyString (attrs "-"))
      else Some (mkCall slog.LevelInfo EmptyString (attrs sql))
    else None.

(** The attributes of a call of [Trace]. *)
Definition trace_args (line text sql : string) (rows : Z) : list GoArg :=
  [arg (slog_String "line" line); arg (slog_String "elapsed" text);
   arg (slog_String "sql" (if rows =? -1 then "-" else sql))].

End Calls.

(** An environment for the examples, and options that choose a file. *)
Definition demo_Env : Env :=
  mkEnv (fun s => s) (fun s => s) (fun a b => a ++ "/" ++ b) "2024-01-02".

End logpkg.

(** * Proofs *)

(** Case analysis on every condition of the goal. *)
Ltac case_ifs :=
  repeat match goal with |- context [if ?c then _ else _] => destruct c end.

Lemma some_eq {A : Type} (x y : A) : Some x = Some y -> x = y.
Proof. intros E. now injection E. Qed.

(** From [Some (a, b) = Some (c, d)] to the two equations. *)
Tactic Notation "some_pair" hyp(E) "as" simple_intropattern(pat) :=
  apply some_eq in E; apply pair_equal_spec in E; destruct E as pat.

(** ** Strings *)

Lemma sapp_nil_r (s : string) : s ++ EmptyString = s.
Proof. induction s as [|c s IH]; simpl; [reflexivity | now rewrite IH]. Qed.

Lemma sapp_assoc (a b c : string) : (a ++ b) ++ c = a ++ (b ++ c).
Proof. induction a as [|x a IH]; simpl; [reflexivity | now rewrite IH]. Qed.

Lemma sapp_inv_l (a b c : string) : a ++ b = a ++ c -> b = c.
Proof.
  induction a as [|x a IH]; simpl; intros E; [exact E|].
  injection E as E. now apply IH.
Qed.

Lemma slength_app (a b : string) :
  String.length (a ++ b) = (String.length a + String.length b)%nat.
Proof. induction a as [|x a IH]; simpl; [reflexivity | now rewrite IH]. Qed.

Lemma sapp_eq_nil (a b : string) : a ++ b = EmptyString -> a = EmptyString /\ b = EmptyString.
Proof. destruct a; simpl; intros E; [now split | discriminate]. Qed.

Lemma len_zero (s : string) : (len s =? 0) = true <-> s = EmptyString.
Proof.
  unfold len. destruct s; simpl; split; intros E; try reflexivity; discriminate.
Qed.

Lemma set_last_snoc (s : string) (c d : byte) :
  set_last (s ++ str1 c) d = s ++ str1 d.
Proof.
  induction s as [|x s IH]; [reflexivity|].
  change ((String x s) ++ str1 c) with (String x (s ++ str1 c)).
  destruct (s ++ str1 c) eqn:E.
  - destruct s; discriminate.
  - cbn [set_last]. cbn [set_last] in IH. rewrite IH. reflexivity.
Qed.


(** ** Levels *)

Lemma wrap64_small (z : Z) : in_int64 z -> wrap64 z = z.
Proof.
  unfold in_int64, wrap64, min_int64, max_int64. intros Hz.
  rewrite Z.mod_small; lia.
Qed.

Lemma AppendInt_offset (buf : buffer) (d : Z) :
  appendLevelDelta buf d = buf ++ offset_suffix d.
Proof.
  unfold appendLevelDelta, offset_suffix, strconv.AppendInt, WriteByte, decimal.
  destruct d as [|p|p]; simpl.
  - now rewrite sapp_nil_r.
  - now rewrite sapp_assoc.
  - reflexivity.
Qed.

Section Levels.

Context `{L : GoLib}.

Lemma WriteStringIf_styled (h : Handler) (buf : buffer) (code : string) :
  WriteStringIf buf (negb (noColor h)) code = buf ++ styled h code.
Proof.
  unfold WriteStringIf, styled, WriteString.
  destruct (noColor h); simpl; [now rewrite sapp_nil_r | reflexivity].
Qed.

Lemma appendLevel_text (h : Handler) (buf : buffer) (lvl : Z) :
  in_int64 lvl ->
  appendLevel h buf lvl
  = buf ++ styled h (band_colour lvl) ++ band_name lvl
        ++ offset_suffix (lvl - band_level lvl) ++ styled h ansiReset.
Proof.
  intros Hl.
  assert (Hw : forall base, -4 <= base <= 8 ->
                 (lvl < 0 -> base = -4) -> (0 <= lvl -> 0 <= base) ->
                 wrap64 (lvl - base) = lvl - base).
  { intros base Hb H1 H2. apply wrap64_small.
    unfold in_int64, min_int64, max_int64 in *.
    destruct (Z_lt_le_dec lvl 0) as [Hn|Hp]; [rewrite (H1 Hn) | specialize (H2 Hp)]; lia. }
  unfold appendLevel, band_colour, band_name, band_level, WriteString,
    slog.LevelInfo, slog.LevelWarn, slog.LevelError, slog.LevelDebug.
  destruct (lvl <? 0) eqn:E0; [apply Z.ltb_lt in E0 | apply Z.ltb_ge in E0];
    [| destruct (lvl <? 4) eqn:E1; [apply Z.ltb_lt in E1 | apply Z.ltb_ge in E1];
       [| destruct (lvl <? 8) eqn:E2; [apply Z.ltb_lt in E2 | apply Z.ltb_ge in E2]]];
    rewrite !WriteStringIf_styled, AppendInt_offset, Hw by lia;
    now rewrite !sapp_assoc.
Qed.

End Levels.

(** ** Bytes *)

Lemma Z_of_byte_range (c : byte) : 0 <= Z_of_byte c < 256.
Proof.
  unfold Z_of_byte. pose proof (N_ascii_bounded c) as Hb. lia.
Qed.

Lemma Z_of_byte_of_Z (z : Z) : Z_of_byte (byte_of_Z z) = z mod 256.
Proof.
  unfold Z_of_byte, byte_of_Z.
  pose proof (Z.mod_pos_bound z 256 ltac:(lia)) as Hm.
  rewrite N_ascii_embedding by lia. lia.
Qed.

Lemma byte_of_Z_of_byte (c : byte) : byte_of_Z (Z_of_byte c) = c.
Proof.
  unfold byte_of_Z. pose proof (Z_of_byte_range c) as Hr.
  rewrite Z.mod_small by lia. unfold Z_of_byte.
  rewrite N2Z.id. apply ascii_N_embedding.
Qed.

Lemma plain_of_Z (z : Z) :
  z mod 256 <> 92 -> z mod 256 <> 34 -> plain (byte_of_Z z).
Proof.
  intros H1 H2. split; apply Ascii.eqb_neq; intros E;
    apply (f_equal Z_of_byte) in E; rewrite Z_of_byte_of_Z in E;
    [apply H1 | apply H2]; exact E.
Qed.

Lemma high_bit_plain (z : Z) : Z.testbit z 7 = true -> plain (byte_of_Z z).
Proof.
  intros Hb.
  assert (Hm : Z.testbit (z mod 2 ^ 8) 7 = true)
    by (rewrite Z.mod_pow2_bits_low by lia; exact Hb).
  change (2 ^ 8) with 256 in Hm.
  apply plain_of_Z; intros E; rewrite E in Hm; discriminate.
Qed.

Lemma lor_high_bit (t x : Z) : Z.testbit t 7 = true -> Z.testbit (Z.lor t x) 7 = true.
Proof. intros Ht. now rewrite Z.lor_spec, Ht. Qed.

(** ** Quoting *)

Lemma chunk_nil : chunk EmptyString.
Proof. intros b. reflexivity. Qed.

Lemma chunk_app (a b : string) : chunk a -> chunk b -> chunk (a ++ b).
Proof. intros Ha Hb c. now rewrite sapp_assoc, Ha, Hb. Qed.

Lemma chunk_plain (c : byte) : plain c -> chunk (str1 c).
Proof. intros [H1 H2] b. simpl. now rewrite H1, H2. Qed.

Lemma chunk_escape (c : byte) : chunk (str1 backslash ++ str1 c).
Proof. intros b. reflexivity. Qed.

Lemma chunk_escape_then (c : byte) (rest : string) :
  chunk rest -> chunk (String backslash (String c rest)).
Proof. intros H b. simpl. apply H. Qed.

Lemma chunk_escaped (a : string) : chunk a -> escaped false a = true.
Proof. intros Ha. rewrite <- (sapp_nil_r a). now rewrite Ha. Qed.

Lemma chunk_hexdigit (n : Z) : chunk (strconv.hexdigit n).
Proof.
  unfold strconv.hexdigit, strconv.lowerhex.
  destruct (Z.to_nat n) as [|k]; [apply chunk_plain; now split|].
  do 15 (destruct k as [|k]; [apply chunk_plain; now split|]).
  apply chunk_nil.
Qed.

Lemma chunk_hexdigits (n : nat) (r : Z) : chunk (strconv.hexdigits n r).
Proof.
  induction n as [|n IH]; [apply chunk_nil|].
  cbn [strconv.hexdigits]. apply chunk_app; [apply chunk_hexdigit | exact IH].
Qed.

Lemma AppendRune_app (p : string) (r : Z) :
  utf8.AppendRune p r = p ++ utf8.AppendRune EmptyString r.
Proof.
  unfold utf8.AppendRune.
  case_ifs;
    reflexivity.
Qed.

Lemma chunk_AppendRune (r : Z) :
  0 <= r -> r <> Z_of_byte dquote -> r <> Z_of_byte backslash ->
  chunk (utf8.AppendRune EmptyString r).
Proof.
  intros Hr Hq Hb. unfold utf8.AppendRune, utf8.rune1Max, utf8.tx, utf8.t2, utf8.t3, utf8.t4.
  change (Z_of_byte dquote) with 34 in Hq. change (Z_of_byte backslash) with 92 in Hb.
  destruct (r <=? 127) eqn:E1.
  - apply Z.leb_le in E1. apply chunk_plain.
    apply plain_of_Z; rewrite Z.mod_small by lia; assumption.
  - case_ifs;
      cbn [String.append];
      repeat (apply chunk_app;
              [apply chunk_plain, high_bit_plain, lor_high_bit; reflexivity|]);
      try apply chunk_nil;
      apply chunk_plain, high_bit_plain, lor_high_bit; reflexivity.
Qed.

Section Quoting.

Context `{L : GoLib}.

Lemma appendEscapedRune_app (buf : string) (r : Z) :
  strconv.appendEscapedRune buf r = buf ++ strconv.appendEscapedRune EmptyString r.
Proof.
  unfold strconv.appendEscapedRune.
  case_ifs;
    try reflexivity.
  apply AppendRune_app.
Qed.

Lemma chunk_appendEscapedRune (r : Z) :
  0 <= r -> chunk (strconv.appendEscapedRune EmptyString r).
Proof.
  intros Hr. unfold strconv.appendEscapedRune.
  destruct ((r =? Z_of_byte dquote) || (r =? Z_of_byte backslash)) eqn:Eq.
  - apply chunk_escape.
  - apply orb_false_iff in Eq. destruct Eq as [Eq1 Eq2].
    apply Z.eqb_neq in Eq1. apply Z.eqb_neq in Eq2.
    destruct (strconv.IsPrint r); [now apply chunk_AppendRune|].
    case_ifs;
      unfold str1; cbn [String.append];
      apply chunk_escape_then;
      first [ apply chunk_nil
            | apply chunk_hexdigits
            | apply chunk_app; apply chunk_hexdigit ].
Qed.

Lemma quoteLoop_app (fuel : nat) (buf s : string) :
  strconv.quoteLoop fuel buf s = buf ++ strconv.quoteLoop fuel EmptyString s.
Proof.
  revert buf s. induction fuel as [|fuel IH]; intros buf s; cbn [strconv.quoteLoop].
  - now rewrite sapp_nil_r.
  - destruct s as [|c s']; [now rewrite sapp_nil_r|].
    destruct (if utf8.RuneSelf <=? Z_of_byte c
              then utf8.DecodeRuneInString (String c s')
              else (Z_of_byte c, 1%nat)) as [r width].
    destruct ((width =? 1)%nat && (r =? utf8.RuneError)).
    + rewrite IH. rewrite (IH (EmptyString ++ _)). now rewrite !sapp_assoc.
    + rewrite IH. rewrite (IH (strconv.appendEscapedRune EmptyString r)).
      rewrite (appendEscapedRune_app buf). now rewrite !sapp_assoc.
Qed.

End Quoting.

Lemma at_nonneg (s : string) (i : nat) : 0 <= at_ s i.
Proof.
  unfold at_. destruct (String.get i s); [apply Z_of_byte_range | lia].
Qed.

Lemma DecodeRune_nonneg (s : string) : 0 <= fst (utf8.DecodeRuneInString s).
Proof.
  pose proof (at_nonneg s 0). pose proof (at_nonneg s 1).
  pose proof (at_nonneg s 2). pose proof (at_nonneg s 3).
  unfold utf8.DecodeRuneInString.
  case_ifs;
    cbn [fst]; unfold utf8.RuneError; try lia;
    repeat first [ apply Z.lor_nonneg; split
                 | apply Z.shiftl_nonneg
                 | apply Z.land_nonneg; left; assumption ].
Qed.

Section QuotingTheorems.

Context `{L : GoLib}.

Lemma chunk_quoteLoop (fuel : nat) (s : string) :
  chunk (strconv.quoteLoop fuel EmptyString s).
Proof.
  revert s. induction fuel as [|fuel IH]; intros s; cbn [strconv.quoteLoop];
    [apply chunk_nil|].
  destruct s as [|c s']; [apply chunk_nil|].
  assert (Hr : 0 <= fst (if utf8.RuneSelf <=? Z_of_byte c
                         then utf8.DecodeRuneInString (String c s')
                         else (Z_of_byte c, 1%nat))).
  { destruct (utf8.RuneSelf <=? Z_of_byte c);
      [apply DecodeRune_nonneg | apply Z_of_byte_range]. }
  destruct (if utf8.RuneSelf <=? Z_of_byte c
            then utf8.DecodeRuneInString (String c s')
            else (Z_of_byte c, 1%nat)) as [r width].
  cbn [fst] in Hr.
  destruct ((width =? 1)%nat && (r =? utf8.RuneError)); rewrite quoteLoop_app.
  - apply chunk_app; [|apply IH].
    unfold str1; cbn [String.append]. apply chunk_escape_then.
    apply chunk_app; apply chunk_hexdigit.
  - apply chunk_app; [now apply chunk_appendEscapedRune | apply IH].
Qed.

(** [strconv.AppendQuote] puts the text between two double quotes and
    leaves no double quote unescaped inside. *)
Lemma AppendQuote_escaped (buf s : string) :
  exists body,
    strconv.AppendQuote buf s = buf ++ str1 dquote ++ body ++ str1 dquote
    /\ escaped false body = true.
Proof.
  exists (strconv.quoteLoop (String.length s) EmptyString s). split.
  - unfold strconv.AppendQuote. rewrite quoteLoop_app. now rewrite !sapp_assoc.
  - apply chunk_escaped, chunk_quoteLoop.
Qed.

Lemma needsQuoting_iff (s : string) :
  needsQuoting s = true
  <-> s = EmptyString
      \/ exists r, In r (range_runes s)
                   /\ (unicode.IsSpace r = true \/ r = Z_of_byte dquote
                       \/ r = Z_of_byte "="%char \/ unicode.IsPrint r = false).
Proof.
  unfold needsQuoting. destruct (len s =? 0) eqn:El.
  - apply len_zero in El. split; [now left | reflexivity].
  - assert (Hs : s <> EmptyString).
    { intros E. apply len_zero in E. congruence. }
    rewrite existsb_exists. split.
    + intros [r [Hin Hr]]. right. exists r. split; [exact Hin|].
      rewrite !orb_true_iff, negb_true_iff, !Z.eqb_eq in Hr. tauto.
    + intros [E | [r [Hin Hr]]]; [contradiction|].
      exists r. split; [exact Hin|].
      rewrite !orb_true_iff, negb_true_iff, !Z.eqb_eq. tauto.
Qed.

End QuotingTheorems.


(** ** Claims on levels and on derivation with nothing to add *)

Section LevelClaims.

Context `{L : GoLib}.

(** C3.  A level renders as the name of its band, DEBUG below Info, INFO
    below Warn, WARN below Error and ERROR from Error on, in the colour of
    the band when colour is on; the name is followed by nothing when the
    level is the canonical level of the band, and by the signed decimal
    offset from it otherwise. *)
Theorem level_band_rendering (h : Handler) (buf : buffer) (lvl : Z) :
  in_int64 lvl ->
  appendLevel h buf lvl
  = buf ++ styled h (band_colour lvl) ++ band_name lvl
        ++ offset_suffix (lvl - band_level lvl) ++ styled h ansiReset
  /\ (lvl = band_level lvl -> offset_suffix (lvl - band_level lvl) = EmptyString)
  /\ (lvl <> band_level lvl ->
      offset_suffix (lvl - band_level lvl)
      = (if band_level lvl <? lvl then "+" else "-")
          ++ decimal (Z.abs (lvl - band_level lvl))).
Proof.
  intros Hl. split; [now apply appendLevel_text|]. split.
  - intros E. rewrite <- E, Z.sub_diag. reflexivity.
  - intros Hne. unfold offset_suffix.
    destruct (lvl - band_level lvl =? 0) eqn:E0; [apply Z.eqb_eq in E0; lia|].
    destruct (0 <? lvl - band_level lvl) eqn:E1;
      [apply Z.ltb_lt in E1 | apply Z.ltb_ge in E1].
    + replace (band_level lvl <? lvl) with true by (symmetry; apply Z.ltb_lt; lia).
      now rewrite Z.abs_eq by lia.
    + apply Z.eqb_neq in E0.
      replace (band_level lvl <? lvl) with false by (symmetry; apply Z.ltb_ge; lia).
      now rewrite Z.abs_neq by lia.
Qed.

(** C7.  [WithAttrs] of no attributes and [WithGroup] of the empty name
    return the receiver itself, the same pointer, and leave the world as it
    was. *)
Theorem derive_nothing_returns_receiver (fuel : nat) (st : World) (hp : nat) :
  WithAttrs fuel st hp [] = Some (st, hp)
  /\ WithGroup st hp EmptyString = Some (st, hp).
Proof. split; reflexivity. Qed.

(** C9.  When the gate of [Warn] or of [Error] passes, on [Handler] and on
    [Logger] alike, the record handed to [Handle] is the one [Info] builds:
    its level is [slog.LevelInfo], not [slog.LevelWarn] or
    [slog.LevelError]. *)
Theorem warn_and_error_records_are_info (fuel : nat) (st : World) (hp : nat)
        (h : Handler) (lg : Logger) (now : Time) (pc : Z) (s : string) (i : list GoArg) :
  nth_error (handlers st) hp = Some h ->
  Logger_Handler lg = hp ->
  Record_Level (info_record now pc s i) = slog.LevelInfo
  /\ (Enabled h slog.LevelWarn = true ->
      Handler_Warn fuel st hp now pc s i
      = option_map fst (Handle fuel st hp (info_record now pc s i))
      /\ Logger_Warn fuel st lg now pc s i
         = option_map fst (Handle fuel st hp (info_record now pc s i)))
  /\ (Enabled h slog.LevelError = true ->
      Handler_Error fuel st hp now pc s i
      = option_map fst (Handle fuel st hp (info_record now pc s i))
      /\ Logger_Error fuel st lg now pc s i
         = option_map fst (Handle fuel st hp (info_record now pc s i))).
Proof.
  intros Hh Hlg. split; [reflexivity|].
  unfold Handler_Warn, Logger_Warn, Handler_Error, Logger_Error.
  rewrite Hlg, Hh. split; intros E; rewrite E; split; reflexivity.
Qed.

End LevelClaims.

Lemma level_band_rendering_witness :
  in_int64 9
  /\ appendLevel (L := demo) Demo.plain_handler EmptyString 9
     = EmptyString ++ styled Demo.plain_handler (band_colour 9) ++ band_name 9
         ++ offset_suffix (9 - band_level 9) ++ styled Demo.plain_handler ansiReset.
Proof.
  assert (H9 : in_int64 9) by (unfold in_int64, min_int64, max_int64; lia).
  split; [exact H9|].
  exact (proj1 (level_band_rendering (L := demo) Demo.plain_handler EmptyString 9 H9)).
Defined.

(** The examples of the specification: one above Error, two above Warn,
    and the canonical levels themselves. *)
Example level_examples :
  appendLevel (L := demo) Demo.plain_handler EmptyString (slog.LevelError + 1) = "ERROR+1"
  /\ appendLevel (L := demo) Demo.plain_handler EmptyString (slog.LevelWarn + 2) = "WARN+2"
  /\ appendLevel (L := demo) Demo.plain_handler EmptyString slog.LevelWarn = "WARN"
  /\ appendLevel (L := demo) Demo.plain_handler EmptyString (slog.LevelDebug - 1) = "DEBUG-1"
  /\ appendLevel (L := demo) Demo.plain_handler EmptyString slog.LevelInfo = "INFO".
Proof. repeat split; reflexivity. Qed.

Lemma warn_and_error_records_are_info_witness :
  nth_error (handlers (Demo.world_of Demo.plain_handler)) 0 = Some Demo.plain_handler
  /\ Logger_Handler (mkLogger 0 0) = 0%nat
  /\ Record_Level (info_record (L := demo) 5 0 "slow query" []) = slog.LevelInfo.
Proof.
  split; [reflexivity|]. split; [reflexivity|].
  exact (proj1 (warn_and_error_records_are_info (L := demo) 1
                  (Demo.world_of Demo.plain_handler) 0 Demo.plain_handler
                  (mkLogger 0 0) 5 0 "slow query" [] eq_refl eq_refl)).
Defined.

(** What [Warn] makes of it: with the gate at Info, a call of [Warn]
    writes a line whose level field reads INFO. *)
Example warn_writes_info :
  option_map events
    (Handler_Warn (L := demo) 1 (Demo.world_of Demo.plain_handler) 0 5 0 "slow query" [])
  = Some [EvLock 0; EvWrite 0 ("T5 INFO  msg=" ++ str1 dquote ++ "slow query"
                                 ++ str1 dquote ++ str1 newline);
          EvUnlock 0].
Proof. reflexivity. Qed.

(** ** The recursion of [appendAttr] *)

Section AppendAttr.

Context `{L : GoLib}.

(** One step of [appendAttr], with the loop over the members of a group
    written as [appendAttrs]. *)
Lemma appendAttr_eq (fuel : nat) (h : Handler) (m : arrays) (buf : buffer)
      (attr : Attr) (gp : string) (g : slice) :
  appendAttr (S fuel) h m buf attr gp g
  = let a := rewritten h (slice_view m g) attr in
    if Attr_Equal_zero a then Some (m, buf)
    else
      match Value_of a with
      | GroupValue members =>
          if negb (Key a =? EmptyString)%string then
            let '(m', g') := append1 m g (Key a) in
            appendAttrs fuel h m' buf members (gp ++ Key a ++ ".") g'
          else appendAttrs fuel h m buf members gp g
      | _ => Some (m, leaf h buf a gp)
      end.
Proof.
  assert (Hloop : forall members m0 buf0 gp0 g0,
             (fix each (l : list Attr) (m1 : arrays) (buf1 : buffer)
                : option (arrays * buffer) :=
                match l with
                | [] => Some (m1, buf1)
                | groupAttr :: l' =>
                    match appendAttr fuel h m1 buf1 groupAttr gp0 g0 with
                    | Some (m', buf') => each l' m' buf'
                    | None => None
                    end
                end) members m0 buf0
             = appendAttrs fuel h m0 buf0 members gp0 g0).
  { induction members as [|x members IH]; intros m0 buf0 gp0 g0; [reflexivity|].
    cbn [appendAttrs]. destruct (appendAttr fuel h m0 buf0 x gp0 g0) as [[m' buf']|];
      [apply IH | reflexivity]. }
  cbn [appendAttr]. unfold rewritten, resolved, leaf. cbv zeta.
  match goal with |- context [Attr_Equal_zero ?x] => set (a := x) end.
  destruct (Attr_Equal_zero a); [reflexivity|].
  destruct (Value_of a) as [ | | | | | | | a0 | members | ]; try reflexivity;
    [destruct a0; reflexivity|].
  destruct (negb (Key a =? EmptyString)%string).
  - destruct (append1 m g (Key a)) as [m' g']. apply Hloop.
  - apply Hloop.
Qed.

End AppendAttr.

(** ** Every formatter only appends *)

Section Appenders.

Context `{L : GoLib}.

Lemma AppendQuote_app (buf s : string) :
  strconv.AppendQuote buf s = buf ++ strconv.AppendQuote EmptyString s.
Proof.
  unfold strconv.AppendQuote.
  rewrite quoteLoop_app, (quoteLoop_app _ (EmptyString ++ _)).
  now rewrite !sapp_assoc.
Qed.

Lemma appendString_app (buf s : string) (q : bool) :
  appendString buf s q = buf ++ appendString EmptyString s q.
Proof.
  unfold appendString, WriteString.
  destruct (q && needsQuoting s); [apply AppendQuote_app | reflexivity].
Qed.

Lemma appendTime_app (h : Handler) (buf : buffer) (t : Time) :
  appendTime h buf t = buf ++ appendTime h EmptyString t.
Proof.
  unfold appendTime. rewrite !WriteStringIf_styled. now rewrite !sapp_assoc.
Qed.

Lemma appendLevel_app (h : Handler) (buf : buffer) (lvl : Z) :
  appendLevel h buf lvl = buf ++ appendLevel h EmptyString lvl.
Proof.
  unfold appendLevel, WriteString.
  case_ifs;
    rewrite !WriteStringIf_styled, !AppendInt_offset; now rewrite !sapp_assoc.
Qed.

Lemma appendSource_app (h : Handler) (buf : buffer) (src : Source) :
  appendSource h buf src = buf ++ appendSource h EmptyString src.
Proof.
  unfold appendSource. destruct (filepath_Split (Source_File src)) as [dir file].
  unfold WriteString, WriteByte. rewrite !WriteStringIf_styled.
  now rewrite !sapp_assoc.
Qed.

Lemma appendKey_app (h : Handler) (buf : buffer) (key gp : string) :
  appendKey h buf key gp = buf ++ appendKey h EmptyString key gp.
Proof.
  unfold appendKey, WriteByte. rewrite !WriteStringIf_styled.
  rewrite (appendString_app (buf ++ _)), (appendString_app (EmptyString ++ _)).
  now rewrite !sapp_assoc.
Qed.

Lemma appendError_app (h : Handler) (buf : buffer) (err gp : string) :
  appendError h buf err gp = buf ++ appendError h EmptyString err gp.
Proof.
  unfold appendError, WriteByte. rewrite !WriteStringIf_styled.
  rewrite (appendString_app (_ ++ styled h ansiResetFaint)).
  rewrite (appendString_app (buf ++ _)).
  rewrite (appendString_app ((_ ++ _) ++ styled h ansiResetFaint)).
  rewrite (appendString_app (EmptyString ++ _)).
  now rewrite !sapp_assoc.
Qed.

Lemma appendValue_app (h : Handler) (buf : buffer) (v : Value) (q : bool) :
  appendValue h buf v q = buf ++ appendValue h EmptyString v q.
Proof.
  destruct v as [s|i|u|f|b|d|t|a|l|ty v]; cbn [appendValue];
    try apply appendString_app; try reflexivity; try (now rewrite sapp_nil_r).
  - unfold strconv.AppendBool. destruct b; reflexivity.
  - destruct a as [|lvl|msg|[data|e]|src|text];
      try apply appendString_app; try (now rewrite sapp_nil_r).
    + apply appendLevel_app.
    + apply appendSource_app.
Qed.

Lemma leaf_app (h : Handler) (buf : buffer) (a : Attr) (gp : string) :
  leaf h buf a gp = buf ++ leaf h EmptyString a gp.
Proof.
  assert (Hgen : WriteByte (appendValue h (appendKey h buf (Key a) gp) (Value_of a) true) space
                 = buf ++ WriteByte (appendValue h (appendKey h EmptyString (Key a) gp)
                                                 (Value_of a) true) space).
  { unfold WriteByte.
    rewrite appendValue_app, (appendValue_app h (appendKey h EmptyString _ _)).
    rewrite appendKey_app. now rewrite !sapp_assoc. }
  unfold leaf. destruct (Value_Any (Value_of a)) as [[|lvl|msg|res|src|text]|];
    try exact Hgen.
  unfold WriteByte. rewrite appendError_app. now rewrite !sapp_assoc.
Qed.

Lemma leaf_field (h : Handler) (a : Attr) (gp : string) :
  exists text, leaf h EmptyString a gp = text ++ str1 space.
Proof.
  unfold leaf, WriteByte.
  destruct (Value_Any (Value_of a)) as [[|lvl|msg|res|src|text]|]; eexists; reflexivity.
Qed.

End Appenders.

(** ** [appendAttr] only appends, and appends fields *)

Section AppendAttrShape.

Context `{L : GoLib}.

Lemma behind_behind (a b : buffer) (res : option (arrays * buffer)) :
  behind a (behind b res) = behind (a ++ b) res.
Proof. destruct res as [[m t]|]; simpl; [now rewrite sapp_assoc | reflexivity]. Qed.

Lemma appendAttrs_cons (fuel : nat) (h : Handler) (m : arrays) (buf : buffer)
      (a : Attr) (l : list Attr) (gp : string) (g : slice) :
  appendAttrs fuel h m buf (a :: l) gp g
  = match appendAttr fuel h m buf a gp g with
    | Some (m', buf') => appendAttrs fuel h m' buf' l gp g
    | None => None
    end.
Proof. reflexivity. Qed.

Lemma appendAttrs_app_from (fuel : nat) (h : Handler) :
  (forall m buf a gp g,
      appendAttr fuel h m buf a gp g = behind buf (appendAttr fuel h m EmptyString a gp g)) ->
  forall l m buf gp g,
    appendAttrs fuel h m buf l gp g = behind buf (appendAttrs fuel h m EmptyString l gp g).
Proof.
  intros Hone. induction l as [|a l IH]; intros m buf gp g.
  - simpl. now rewrite sapp_nil_r.
  - rewrite !appendAttrs_cons. rewrite (Hone m buf).
    destruct (appendAttr fuel h m EmptyString a gp g) as [[m' d]|]; [|reflexivity].
    cbn [behind]. rewrite (IH m' (buf ++ d)), (IH m' d).
    now rewrite behind_behind.
Qed.

Lemma appendAttr_app (fuel : nat) (h : Handler) :
  forall m buf a gp g,
    appendAttr fuel h m buf a gp g = behind buf (appendAttr fuel h m EmptyString a gp g).
Proof.
  induction fuel as [|fuel IH]; intros m buf a gp g; [reflexivity|].
  rewrite !appendAttr_eq. cbv zeta.
  destruct (Attr_Equal_zero (rewritten h (slice_view m g) a)).
  { simpl. now rewrite sapp_nil_r. }
  pose proof (appendAttrs_app_from fuel h IH) as Hl.
  destruct (Value_of (rewritten h (slice_view m g) a)) eqn:Ev;
    try (cbn [behind]; now rewrite leaf_app).
  destruct (negb (Key (rewritten h (slice_view m g) a) =? EmptyString)%string).
  - destruct (append1 m g (Key (rewritten h (slice_view m g) a))) as [m' g'].
    apply Hl.
  - apply Hl.
Qed.

Lemma appendAttrs_app (fuel : nat) (h : Handler) (l : list Attr) (m : arrays)
      (buf : buffer) (gp : string) (g : slice) :
  appendAttrs fuel h m buf l gp g = behind buf (appendAttrs fuel h m EmptyString l gp g).
Proof. apply appendAttrs_app_from, appendAttr_app. Qed.

Lemma field_nil : field EmptyString.
Proof. now left. Qed.

Lemma field_app (a b : string) : field a -> field b -> field (a ++ b).
Proof.
  intros Ha [Eb | [t Eb]]; subst b.
  - now rewrite sapp_nil_r.
  - right. exists (a ++ t). now rewrite sapp_assoc.
Qed.

Lemma field_snoc (text : string) : field (text ++ str1 space).
Proof. right. now exists text. Qed.

Lemma appendAttrs_field_from (fuel : nat) (h : Handler) :
  (forall m a gp g m' d, appendAttr fuel h m EmptyString a gp g = Some (m', d) -> field d) ->
  forall l m gp g m' d,
    appendAttrs fuel h m EmptyString l gp g = Some (m', d) -> field d.
Proof.
  intros Hone. induction l as [|a l IH]; intros m gp g m' d E.
  - injection E as _ E. subst d. apply field_nil.
  - rewrite appendAttrs_cons in E.
    destruct (appendAttr fuel h m EmptyString a gp g) as [[m1 d1]|] eqn:E1; [|discriminate].
    rewrite appendAttrs_app in E.
    destruct (appendAttrs fuel h m1 EmptyString l gp g) as [[m2 d2]|] eqn:E2; [|discriminate].
    injection E as _ E. subst d. apply field_app; eauto.
Qed.

(** What an attribute adds to the buffer is nothing, or ends in the space
    that closes its last field. *)
Lemma appendAttr_field (fuel : nat) (h : Handler) :
  forall m a gp g m' d, appendAttr fuel h m EmptyString a gp g = Some (m', d) -> field d.
Proof.
  induction fuel as [|fuel IH]; intros m a gp g m' d E; [discriminate|].
  rewrite appendAttr_eq in E. cbv zeta in E.
  destruct (Attr_Equal_zero (rewritten h (slice_view m g) a)).
  { injection E as _ E. subst d. apply field_nil. }
  pose proof (appendAttrs_field_from fuel h IH) as Hl.
  destruct (Value_of (rewritten h (slice_view m g) a)) eqn:Ev;
    try (injection E as _ E; subst d;
         destruct (leaf_field h (rewritten h (slice_view m g) a) gp) as [txt Etxt];
         rewrite Etxt; apply field_snoc).
  destruct (negb (Key (rewritten h (slice_view m g) a) =? EmptyString)%string).
  - destruct (append1 m g (Key (rewritten h (slice_view m g) a))) as [m1 g1].
    eapply Hl; exact E.
  - eapply Hl; exact E.
Qed.

Lemma concat_strings_field (texts : list string) :
  Forall field texts -> field (concat_strings texts).
Proof.
  induction 1 as [|t texts Ht _ IH]; [apply field_nil|].
  simpl. now apply field_app.
Qed.

(** The walk over a list of attributes appends the text of each, in the
    order of the list. *)
Lemma appendAttrs_fields (fuel : nat) (h : Handler) (l : list Attr) (m : arrays)
      (buf : buffer) (gp : string) (g : slice) :
  appendAttrs fuel h m buf l gp g
  = match attr_fields fuel h m l gp g with
    | Some (m', texts) => Some (m', buf ++ concat_strings texts)
    | None => None
    end.
Proof.
  revert m buf. induction l as [|a l IH]; intros m buf.
  - simpl. now rewrite sapp_nil_r.
  - rewrite appendAttrs_cons. cbn [attr_fields]. rewrite appendAttr_app.
    destruct (appendAttr fuel h m EmptyString a gp g) as [[m1 d1]|]; [|reflexivity].
    cbn [behind]. rewrite IH.
    destruct (attr_fields fuel h m1 l gp g) as [[m2 texts]|]; [|reflexivity].
    simpl. now rewrite sapp_assoc.
Qed.

Lemma attr_fields_shape (fuel : nat) (h : Handler) (l : list Attr) (gp : string)
      (g : slice) :
  forall m m' texts,
    attr_fields fuel h m l gp g = Some (m', texts) ->
    List.length texts = List.length l /\ Forall field texts.
Proof.
  induction l as [|a l IH]; intros m m' texts E.
  - injection E as _ E. subst texts. split; [reflexivity | constructor].
  - cbn [attr_fields] in E.
    destruct (appendAttr fuel h m EmptyString a gp g) as [[m1 d1]|] eqn:E1; [|discriminate].
    destruct (attr_fields fuel h m1 l gp g) as [[m2 ts]|] eqn:E2; [|discriminate].
    injection E as _ E. subst texts.
    destruct (IH _ _ _ E2) as [Hlen Hf]. split; [simpl; now rewrite Hlen|].
    constructor; [eapply appendAttr_field; eassumption | exact Hf].
Qed.

End AppendAttrShape.

(** ** [appendAttr] returns when the hook makes no groups *)

Section Termination.

Context `{L : GoLib}.

Lemma depth_resolve_loop (n : nat) (orig : string) (v : Value) :
  (depth (resolve_loop n orig v) <= depth v)%nat.
Proof.
  revert v. induction n as [|n IH]; intros v; cbn [resolve_loop].
  - simpl. lia.
  - destruct v; try (apply Nat.le_refl). cbn [depth]. apply IH.
Qed.

Lemma depth_Resolve (v : Value) : (depth (Resolve v) <= depth v)%nat.
Proof.
  destruct v; try (apply Nat.le_refl). unfold Resolve. apply depth_resolve_loop.
Qed.

Lemma depth_member (l : list Attr) (a : Attr) :
  In a l -> (depth (snd a) < depth (GroupValue l))%nat.
Proof.
  intros Hin. cbn [depth]. apply Nat.lt_succ_r.
  pose proof (proj1 (list_max_le (map (fun a => depth (snd a)) l)
                                 (list_max (map (fun a => depth (snd a)) l)))
                    (Nat.le_refl _)) as Hall.
  rewrite Forall_forall in Hall. apply Hall.
  apply (in_map (fun a => depth (snd a))). exact Hin.
Qed.

Lemma rewritten_group (h : Handler) (gs : list string) (a : Attr) (members : list Attr) :
  flat_hook h ->
  Value_of (rewritten h gs a) = GroupValue members ->
  Resolve (Value_of a) = GroupValue members.
Proof.
  intros Hflat. unfold rewritten.
  destruct (replaceAttr h) as [rep|] eqn:Er; [|intros E; exact E].
  destruct (negb (slog.Kind_eqb (Value_Kind (Value_of (resolved a))) slog.KindGroup));
    [|intros E; exact E].
  intros E. exfalso. apply (Hflat rep Er gs (resolved a)).
  change (Resolve (Value_of (rep gs (resolved a))) = GroupValue members) in E.
  now rewrite E.
Qed.

Lemma appendAttrs_total_from (fuel : nat) (h : Handler) (l : list Attr) :
  (forall a, In a l -> forall m buf gp g,
        exists m' buf', appendAttr fuel h m buf a gp g = Some (m', buf')) ->
  forall m buf gp g, exists m' buf', appendAttrs fuel h m buf l gp g = Some (m', buf').
Proof.
  induction l as [|a l IH]; intros Hall m buf gp g.
  - now exists m, buf.
  - rewrite appendAttrs_cons.
    destruct (Hall a (or_introl eq_refl) m buf gp g) as [m1 [b1 E1]]. rewrite E1.
    apply IH. intros a' Hin. apply Hall. now right.
Qed.

Lemma appendAttr_total (h : Handler) :
  flat_hook h ->
  forall fuel a, (depth (Value_of a) < fuel)%nat ->
  forall m buf gp g, exists m' buf', appendAttr fuel h m buf a gp g = Some (m', buf').
Proof.
  intros Hflat. induction fuel as [|fuel IH]; intros a Hd m buf gp g; [lia|].
  rewrite appendAttr_eq. cbv zeta.
  destruct (Attr_Equal_zero (rewritten h (slice_view m g) a)); [now exists m, buf|].
  destruct (Value_of (rewritten h (slice_view m g) a)) as [ | | | | | | | | members | ] eqn:Ev;
    try (eexists; eexists; reflexivity).
  apply (rewritten_group h _ _ _ Hflat) in Ev.
  assert (Hm : forall a', In a' members -> forall m buf gp g,
               exists m' buf', appendAttr fuel h m buf a' gp g = Some (m', buf')).
  { intros a' Hin. apply IH.
    pose proof (depth_member members a' Hin) as H1.
    pose proof (depth_Resolve (Value_of a)) as H2. rewrite Ev in H2.
    unfold Value_of in *. lia. }
  destruct (negb (Key (rewritten h (slice_view m g) a) =? EmptyString)%string).
  - destruct (append1 m g (Key (rewritten h (slice_view m g) a))) as [m1 g1].
    now apply appendAttrs_total_from.
  - now apply appendAttrs_total_from.
Qed.

Lemma appendAttrs_total (h : Handler) (fuel : nat) (l : list Attr) :
  flat_hook h ->
  (fuel_for l <= fuel)%nat ->
  forall m buf gp g, exists m' buf', appendAttrs fuel h m buf l gp g = Some (m', buf').
Proof.
  intros Hflat Hf. apply appendAttrs_total_from. intros a Hin.
  apply appendAttr_total; [exact Hflat|].
  unfold fuel_for in Hf.
  pose proof (proj1 (list_max_le (map (fun a => depth (snd a)) l)
                                 (list_max (map (fun a => depth (snd a)) l)))
                    (Nat.le_refl _)) as Hall.
  rewrite Forall_forall in Hall.
  specialize (Hall _ (in_map (fun a => depth (snd a)) l a Hin)).
  unfold Value_of. cbn beta in Hall. lia.
Qed.

End Termination.

(** ** The line [Handle] writes *)

Section HandleLine.

Context `{L : GoLib}.

Lemma time_field_field (h : Handler) (r : Record_) : field (time_field h r).
Proof.
  unfold time_field.
  destruct (Time_IsZero (Record_Time r)); [apply field_nil|].
  destruct (replaceAttr h) as [rep|]; [|apply field_snoc].
  cbv zeta. destruct (Key _ =? EmptyString)%string; [apply field_nil | apply field_snoc].
Qed.

Lemma level_field_field (h : Handler) (r : Record_) : field (level_field h r).
Proof.
  unfold level_field. destruct (replaceAttr h) as [rep|]; [|apply field_snoc].
  cbv zeta. destruct (Key _ =? EmptyString)%string; [apply field_nil | apply field_snoc].
Qed.

Lemma source_field_field (h : Handler) (r : Record_) : field (source_field h r).
Proof.
  unfold source_field. cbv zeta.
  destruct (addSource h && negb (Frame_File (CallersFrames (Record_PC r)) =? EmptyString)%string);
    [|apply field_nil].
  destruct (replaceAttr h) as [rep|]; [|apply field_snoc].
  destruct (Key _ =? EmptyString)%string; [apply field_nil | apply field_snoc].
Qed.

Lemma message_field_field (h : Handler) (r : Record_) : field (message_field h r).
Proof.
  unfold message_field. destruct (replaceAttr h) as [rep|]; [|apply field_snoc].
  cbv zeta. destruct (Key _ =? EmptyString)%string; [apply field_nil | apply field_snoc].
Qed.

Lemma time_step (h : Handler) (r : Record_) (buf : buffer) :
  (if negb (Time_IsZero (Record_Time r)) then
     match replaceAttr h with
     | None => WriteByte (appendTime h buf (Record_Time r)) space
     | Some rep =>
         if negb (Key (rep [] (slog_Time slog.TimeKey (Time_Round0 (Record_Time r))))
                  =? EmptyString)%string
         then
           WriteByte
             match Value_of (rep [] (slog_Time slog.TimeKey (Time_Round0 (Record_Time r)))) with
             | TimeValue t => appendTime h buf t
             | v => appendValue h buf v false
             end space
         else buf
     end
   else buf)
  = buf ++ time_field h r.
Proof.
  unfold time_field, WriteByte.
  destruct (Time_IsZero (Record_Time r)); cbn [negb]; [now rewrite sapp_nil_r|].
  destruct (replaceAttr h) as [rep|].
  - cbv zeta. destruct (Key _ =? EmptyString)%string; cbn [negb]; [now rewrite sapp_nil_r|].
    destruct (Value_of _);
      first [ rewrite appendTime_app | rewrite appendValue_app ]; now rewrite sapp_assoc.
  - rewrite appendTime_app. now rewrite sapp_assoc.
Qed.

Lemma level_step (h : Handler) (r : Record_) (buf : buffer) :
  match replaceAttr h with
  | None => WriteByte (appendLevel h buf (Record_Level r)) space
  | Some rep =>
      if negb (Key (rep [] (slog.LevelKey, AnyValue (ALevel (Record_Level r))))
               =? EmptyString)%string
      then WriteByte
             (appendValue h buf
                (Value_of (rep [] (slog.LevelKey, AnyValue (ALevel (Record_Level r))))) false)
             space
      else buf
  end
  = buf ++ level_field h r.
Proof.
  unfold level_field, WriteByte. destruct (replaceAttr h) as [rep|].
  - cbv zeta. destruct (Key _ =? EmptyString)%string; cbn [negb]; [now rewrite sapp_nil_r|].
    rewrite appendValue_app. now rewrite sapp_assoc.
  - rewrite appendLevel_app. now rewrite sapp_assoc.
Qed.

Lemma source_step (h : Handler) (r : Record_) (buf : buffer) :
  (if addSource h then
     if negb (Frame_File (CallersFrames (Record_PC r)) =? EmptyString)%string then
       match replaceAttr h with
       | None =>
           WriteByte
             (appendSource h buf
                (mkSource (Frame_Function (CallersFrames (Record_PC r)))
                          (Frame_File (CallersFrames (Record_PC r)))
                          (Frame_Line (CallersFrames (Record_PC r))))) space
       | Some rep =>
           if negb (Key (rep [] (slog.SourceKey,
                                 AnyValue (ASource
                                   (mkSource (Frame_Function (CallersFrames (Record_PC r)))
                                             (Frame_File (CallersFrames (Record_PC r)))
                                             (Frame_Line (CallersFrames (Record_PC r)))))))
                    =? EmptyString)%string
           then WriteByte
                  (appendValue h buf
                     (Value_of (rep [] (slog.SourceKey,
                                 AnyValue (ASource
                                   (mkSource (Frame_Function (CallersFrames (Record_PC r)))
                                             (Frame_File (CallersFrames (Record_PC r)))
                                             (Frame_Line (CallersFrames (Record_PC r))))))))
                     false) space
           else buf
       end
     else buf
   else buf)
  = buf ++ source_field h r.
Proof.
  unfold source_field, WriteByte. cbv zeta.
  destruct (addSource h); cbn [andb]; [|now rewrite sapp_nil_r].
  destruct (Frame_File (CallersFrames (Record_PC r)) =? EmptyString)%string; cbn [negb];
    [now rewrite sapp_nil_r|].
  destruct (replaceAttr h) as [rep|].
  - destruct (Key _ =? EmptyString)%string; cbn [negb]; [now rewrite sapp_nil_r|].
    rewrite appendValue_app. now rewrite sapp_assoc.
  - rewrite appendSource_app. now rewrite sapp_assoc.
Qed.

Lemma message_step (h : Handler) (r : Record_) (buf : buffer) :
  match replaceAttr h with
  | None => WriteByte (WriteString buf (Record_Message r)) space
  | Some rep =>
      if negb (Key (rep [] (slog_String slog.MessageKey (Record_Message r)))
               =? EmptyString)%string
      then WriteByte
             (appendValue h buf
                (Value_of (rep [] (slog_String slog.MessageKey (Record_Message r)))) false)
             space
      else buf
  end
  = buf ++ message_field h r.
Proof.
  unfold message_field, WriteByte, WriteString. destruct (replaceAttr h) as [rep|].
  - cbv zeta. destruct (Key _ =? EmptyString)%string; cbn [negb]; [now rewrite sapp_nil_r|].
    rewrite appendValue_app. now rewrite sapp_assoc.
  - now rewrite sapp_assoc.
Qed.

Lemma prefix_step (h : Handler) (buf : buffer) :
  (if 0 <? len (attrsPrefix h) then WriteString buf (attrsPrefix h) else buf)
  = buf ++ attrsPrefix h.
Proof.
  unfold WriteString. destruct (0 <? len (attrsPrefix h)) eqn:E; [reflexivity|].
  assert (Hn : attrsPrefix h = EmptyString).
  { apply len_zero. apply Z.ltb_ge in E. unfold len in *. apply Z.eqb_eq. lia. }
  rewrite Hn. now rewrite sapp_nil_r.
Qed.

(** The buffer of [Handle]: the four fields of the record, the prefix of
    the handler and the texts of the attributes, in this order. *)
Lemma Handle_render_eq (fuel : nat) (h : Handler) (m : arrays) (r : Record_) :
  Handle_render fuel h m r
  = match attr_fields fuel h m (Record_Attrs r) (groupPrefix h) (groups h) with
    | Some (m', texts) =>
        Some (m', time_field h r ++ level_field h r ++ source_field h r
                    ++ message_field h r ++ attrsPrefix h ++ concat_strings texts)
    | None => None
    end.
Proof.
  unfold Handle_render. cbv zeta.
  rewrite time_step, level_step, source_step, message_step, prefix_step.
  rewrite appendAttrs_fields.
  destruct (attr_fields fuel h m (Record_Attrs r) (groupPrefix h) (groups h))
    as [[m' texts]|]; [|reflexivity].
  unfold newBuffer. cbn [String.append]. now rewrite !sapp_assoc.
Qed.

End HandleLine.

Section HandleClaim.

Context `{L : GoLib}.

Lemma attr_fields_total (h : Handler) (fuel : nat) (l : list Attr) (m : arrays)
      (gp : string) (g : slice) :
  flat_hook h -> (fuel_for l <= fuel)%nat ->
  exists m' texts, attr_fields fuel h m l gp g = Some (m', texts).
Proof.
  intros Hflat Hf.
  destruct (appendAttrs_total h fuel l Hflat Hf m EmptyString gp g) as [m' [b E]].
  rewrite appendAttrs_fields in E.
  destruct (attr_fields fuel h m l gp g) as [[m1 texts]|]; [|discriminate].
  now exists m1, texts.
Qed.

Lemma field_ends (s : string) :
  field s -> s <> EmptyString -> exists line, s = line ++ str1 space.
Proof. intros [E | H] Hne; [contradiction | exact H]. Qed.

End HandleClaim.



(** The scenario of the specification: an Info record with two
    attributes, no colour. *)
Example Handle_scenario :
  Demo.output
    (Handle 1 (Demo.world_of Demo.plain_handler) 0
       (AddAttrs (NewRecord (L := demo) 5 slog.LevelInfo "Starting server" 0)
                 [("addr", StringValue ":8080"); ("env", StringValue "production")]))
  = Some ([EvLock 0;
           EvWrite 0 ("T5 INFO Starting server addr=:8080 env=production" ++ str1 newline);
           EvUnlock 0], nil_error).
Proof. reflexivity. Qed.

(** A record that renders to nothing: the hook drops the level and the
    message, the time is zero and there are no attributes.  Nothing is
    written. *)
Example Handle_nothing :
  Demo.output
    (Handle 1 (Demo.world_of Demo.drop_handler) 0
       (NewRecord (L := demo) 0 slog.LevelInfo "dropped" 0))
  = Some ([], nil_error).
Proof. reflexivity. Qed.

(** ** Attributes the hook drops, values that fail to marshal, errors *)

Section AttrClaims.

Context `{L : GoLib}.

Lemma rewritten_kept (h : Handler) (gs : list string) (key : string) (x : AnyVal) :
  hook_keeps h gs (key, AnyValue x) ->
  rewritten h gs (key, AnyValue x) = (key, AnyValue x).
Proof.
  unfold hook_keeps, rewritten. destruct (replaceAttr h) as [rep|]; [|reflexivity].
  intros E. cbn. unfold resolved, Key, Value_of. cbn. rewrite E. reflexivity.
Qed.

Lemma Attr_Equal_zero_resolved (x : Attr) :
  Attr_Equal_zero (resolved x)
  = ((Key x =? EmptyString)%string
     && match Resolve (Value_of x) with
        | AnyValue ANil => true
        | _ => false
        end).
Proof. reflexivity. Qed.

(** C5, as amended.  The hook suppresses a non-group attribute when what
    it returns is, once resolved, the zero attribute: empty key and zero
    value.  Then nothing is written for it, whatever the group context.  An
    attribute the hook returns with an empty key and any other value that
    is not a group is written as a field all the same. *)
Theorem hook_zero_attr_suppressed (fuel : nat) (h : Handler) (rep : ReplaceAttrFn)
        (m : arrays) (buf : buffer) (attr : Attr) (gp : string) (g : slice) :
  replaceAttr h = Some rep ->
  Value_Kind (Resolve (Value_of attr)) <> slog.KindGroup ->
  Key (rep (slice_view m g) (resolved attr)) = EmptyString ->
  (Resolve (Value_of (rep (slice_view m g) (resolved attr))) = AnyValue ANil ->
   appendAttr (S fuel) h m buf attr gp g = Some (m, buf))
  /\ (Resolve (Value_of (rep (slice_view m g) (resolved attr))) <> AnyValue ANil ->
      Value_Kind (Resolve (Value_of (rep (slice_view m g) (resolved attr))))
      <> slog.KindGroup ->
      exists text,
        appendAttr (S fuel) h m buf attr gp g = Some (m, buf ++ text ++ str1 space)).
Proof.
  intros Hrep Hk Hkey.
  assert (Hrw : rewritten h (slice_view m g) attr
                = resolved (rep (slice_view m g) (resolved attr))).
  { unfold rewritten. rewrite Hrep.
    change (Value_of (resolved attr)) with (Resolve (Value_of attr)).
    destruct (Resolve (Value_of attr)); try reflexivity. now contradiction Hk. }
  split.
  - intros Hz. rewrite appendAttr_eq. cbv zeta. rewrite Hrw.
    rewrite Attr_Equal_zero_resolved, Hkey, Hz. reflexivity.
  - intros Hnz Hng. rewrite appendAttr_eq. cbv zeta. rewrite Hrw.
    destruct (leaf_field h (resolved (rep (slice_view m g) (resolved attr))) gp)
      as [text Et].
    exists text.
    assert (Hzero : Attr_Equal_zero (resolved (rep (slice_view m g) (resolved attr)))
                    = false).
    { rewrite Attr_Equal_zero_resolved.
      destruct (Resolve (Value_of (rep (slice_view m g) (resolved attr))))
        as [ | | | | | | | [| | | | |] | | ];
        try (now rewrite andb_false_r). now contradiction Hnz. }
    rewrite Hzero, leaf_app, Et.
    change (Value_of (resolved (rep (slice_view m g) (resolved attr))))
      with (Resolve (Value_of (rep (slice_view m g) (resolved attr)))).
    destruct (Resolve (Value_of (rep (slice_view m g) (resolved attr))));
      try reflexivity. now contradiction Hng.
Qed.

(** The error [Handle] returns is nil or the answer of the writer to the
    one call of [Write]; formatting contributes none. *)
Lemma Handle_error_is_write_error (fuel : nat) (st st' : World) (hp : nat)
      (h : Handler) (r : Record_) (err : error) :
  nth_error (handlers st) hp = Some h ->
  Handle fuel st hp r = Some (st', err) ->
  err = nil_error
  \/ exists wr line, nth_error (writers st) (w h) = Some wr /\ err = write_result wr line.
Proof.
  intros Hh. unfold Handle. rewrite Hh.
  destruct (Handle_render fuel h (heap st) r) as [[m buf]|]; [|discriminate].
  destruct (len buf =? 0).
  - intros E. injection E as _ E. now left.
  - destruct (mu h); [discriminate|].
    destruct (nth_error (writers st) (w h)) as [wr|]; [|discriminate].
    cbn. intros E. injection E as _ E. right. exists wr. eexists. split; [reflexivity|].
    symmetry. exact E.
Qed.

(** C8, as amended.  A value whose [MarshalText] fails is written as the
    empty text, with quoting on or off, and the failure goes nowhere: the
    error of [Handle] is nil or that of the writer.  The field itself is not
    left out: as an attribute it is written as its key and the equals sign,
    followed by the space that closes the field. *)
Theorem marshal_failure_swallowed (fuel : nat) (st st' : World) (hp : nat) (h : Handler)
        (r : Record_) (err : error) (m : arrays) (buf : buffer) (key e gp : string)
        (g : slice) (quote : bool) :
  nth_error (handlers st) hp = Some h ->
  hook_keeps h (slice_view m g) (key, AnyValue (ATextMarshaler (inr e))) ->
  appendValue h buf (AnyValue (ATextMarshaler (inr e))) quote = buf
  /\ appendAttr (S fuel) h m buf (key, AnyValue (ATextMarshaler (inr e))) gp g
     = Some (m, appendKey h buf key gp ++ str1 space)
  /\ (Handle fuel st hp r = Some (st', err) ->
      err = nil_error
      \/ exists wr line,
          nth_error (writers st) (w h) = Some wr /\ err = write_result wr line).
Proof.
  intros Hh Hkeep. split; [reflexivity|]. split.
  - rewrite appendAttr_eq. cbv zeta. rewrite (rewritten_kept _ _ _ _ Hkeep).
    unfold Attr_Equal_zero. cbn [Value_of snd]. rewrite andb_false_r. reflexivity.
  - now apply Handle_error_is_write_error.
Qed.

Lemma nil_text_is_plain : needsQuoting "<nil>" = false.
Proof. reflexivity. Qed.

(** C10.  [Err(nil)] is the attribute [err] holding the nil interface, not
    an [Error]; it is written like any other attribute, with the key in the
    style of keys and the text [<nil>].  [Err] of an error that is not nil
    holds the error wrapped in [Error] and is written by [appendError]. *)
Theorem Err_nil_is_not_wrapped (fuel : nat) (h : Handler) (m : arrays) (buf : buffer)
        (msg gp : string) (g : slice) :
  hook_keeps h (slice_view m g) (Err None) ->
  hook_keeps h (slice_view m g) (Err (Some msg)) ->
  Err None = (errKey, AnyValue ANil)
  /\ Err (Some msg) = (errKey, AnyValue (AError msg))
  /\ appendAttr (S fuel) h m buf (Err None) gp g
     = Some (m, appendKey h buf errKey gp ++ "<nil>" ++ str1 space)
  /\ appendAttr (S fuel) h m buf (Err (Some msg)) gp g
     = Some (m, appendError h buf msg gp ++ str1 space).
Proof.
  intros Hnil Hsome. split; [reflexivity|]. split; [reflexivity|]. split.
  - rewrite appendAttr_eq. cbv zeta. unfold Err in *.
    rewrite (rewritten_kept _ _ _ _ Hnil).
    change (Attr_Equal_zero (errKey, AnyValue ANil)) with false. cbv iota.
    unfold leaf, WriteByte. cbn [Value_of Key fst snd Value_Any appendValue Sprint].
    unfold appendString, WriteString. rewrite nil_text_is_plain. cbn [andb].
    now rewrite !sapp_assoc.
  - rewrite appendAttr_eq. cbv zeta. unfold Err in *.
    rewrite (rewritten_kept _ _ _ _ Hsome). reflexivity.
Qed.

End AttrClaims.

(** C5, as the claim states it, fails: a hook that returns every attribute
    with an empty key does not suppress the attribute [user]; the line
    shows its value under the quoted empty key. *)
Lemma hook_empty_key_counterexample :
  Key (Demo.unname [] ("user", StringValue (L := demo) "ann")) = EmptyString
  /\ Demo.output
       (Handle 1 (Demo.world_of Demo.unname_handler) 0
          (AddAttrs (NewRecord (L := demo) 0 slog.LevelInfo "m" 0)
                    [("user", StringValue "ann")]))
     = Some ([EvLock 0;
              EvWrite 0 (str1 dquote ++ str1 dquote ++ "=ann" ++ str1 newline);
              EvUnlock 0], nil_error).
Proof. split; reflexivity. Qed.

Lemma hook_zero_attr_suppressed_witness :
  replaceAttr Demo.drop_handler = Some Demo.drop_all
  /\ Value_Kind (Resolve (Value_of ("user", StringValue (L := demo) "ann")))
     <> slog.KindGroup
  /\ Key (Demo.drop_all [] (resolved ("user", StringValue (L := demo) "ann")))
     = EmptyString
  /\ appendAttr 1 Demo.drop_handler [] "INFO m " ("user", StringValue (L := demo) "ann")
                EmptyString nil_slice
     = Some ([], "INFO m ").
Proof.
  assert (Hk : Value_Kind (Resolve (Value_of ("user", StringValue (L := demo) "ann")))
               <> slog.KindGroup) by discriminate.
  split; [reflexivity|]. split; [exact Hk|]. split; [reflexivity|].
  exact (proj1 (hook_zero_attr_suppressed (L := demo) 0 Demo.drop_handler Demo.drop_all
                  [] "INFO m " ("user", StringValue "ann") EmptyString nil_slice
                  eq_refl Hk eq_refl) eq_refl).
Defined.

(** C8, as the claim states it, fails: the field of a value whose
    [MarshalText] fails is not omitted.  The line of a record with such an
    attribute [k] differs from the line of the record without it: it shows
    the key and the equals sign. *)
Lemma marshal_failure_counterexample :
  Demo.output
    (Handle 1 (Demo.world_of Demo.plain_handler) 0
       (AddAttrs (NewRecord (L := demo) 0 slog.LevelInfo "m" 0)
                 [("k", AnyValue (ATextMarshaler (inr "bad")))]))
  = Some ([EvLock 0; EvWrite 0 ("INFO m k=" ++ str1 newline); EvUnlock 0], nil_error)
  /\ Demo.output
       (Handle 1 (Demo.world_of Demo.plain_handler) 0
          (NewRecord (L := demo) 0 slog.LevelInfo "m" 0))
     = Some ([EvLock 0; EvWrite 0 ("INFO m" ++ str1 newline); EvUnlock 0], nil_error).
Proof. split; reflexivity. Qed.

Lemma marshal_failure_swallowed_witness :
  nth_error (handlers (Demo.world_of Demo.plain_handler)) 0 = Some Demo.plain_handler
  /\ hook_keeps (L := demo) Demo.plain_handler []
                ("k", AnyValue (ATextMarshaler (inr "bad")))
  /\ appendAttr (L := demo) 1 Demo.plain_handler [] "INFO m "
                ("k", AnyValue (ATextMarshaler (inr "bad"))) EmptyString nil_slice
     = Some ([], appendKey Demo.plain_handler "INFO m " "k" EmptyString ++ str1 space).
Proof.
  split; [reflexivity|]. split; [exact I|].
  exact (proj1 (proj2 (marshal_failure_swallowed (L := demo) 0
                         (Demo.world_of Demo.plain_handler)
                         (Demo.world_of Demo.plain_handler) 0 Demo.plain_handler
                         (NewRecord (L := demo) 0 slog.LevelInfo "m" 0) nil_error
                         [] "INFO m " "k" "bad" EmptyString nil_slice true
                         eq_refl I))).
Defined.

Lemma Err_nil_is_not_wrapped_witness :
  hook_keeps (L := demo) Demo.keep_handler [] (Err None)
  /\ hook_keeps (L := demo) Demo.keep_handler [] (Err (Some "boom"))
  /\ appendAttr (L := demo) 1 Demo.keep_handler [] EmptyString (Err None)
                EmptyString nil_slice
     = Some ([], appendKey Demo.keep_handler EmptyString errKey EmptyString
                   ++ "<nil>" ++ str1 space).
Proof.
  split; [reflexivity|]. split; [reflexivity|].
  exact (proj1 (proj2 (proj2 (Err_nil_is_not_wrapped (L := demo) 0 Demo.keep_handler
                                [] EmptyString "boom" EmptyString nil_slice
                                eq_refl eq_refl)))).
Defined.

(** With colour on, the nil error has the faint key of every attribute
    and the wrapped error the bright red one of [appendError]. *)
Example Err_styles :
  appendAttr (L := demo) 1
    (mkHandler EmptyString EmptyString nil_slice false 0 false 0 None
               defaultTimeFormat false 4)
    [] EmptyString (Err None) EmptyString nil_slice
  = Some ([], ansiFaint ++ "err=" ++ ansiReset ++ "<nil> ")
  /\ appendAttr (L := demo) 1
       (mkHandler EmptyString EmptyString nil_slice false 0 false 0 None
                  defaultTimeFormat false 4)
       [] EmptyString (Err (Some "boom")) EmptyString nil_slice
     = Some ([], ansiBrightRedFaint ++ "err=" ++ ansiResetFaint ++ "boom"
                   ++ ansiReset ++ " ").
Proof. split; reflexivity. Qed.

(** ** Binary64: the quotient of [Trace] is a finite number

    [SpecFloat] rounds with [binary_round_aux]; the lemmas below bound the
    exponent it returns, so that the conversion of a 64-bit integer and its
    division by one million never overflow to an infinity. *)

Section Binary64.

Lemma digits2_pos_size (p : positive) : digits2_pos p = Pos.size p.
Proof. induction p as [p IH|p IH|]; simpl; now rewrite ?IH. Qed.

Lemma Zdigits2_log2 (p : positive) : Zdigits2 (Zpos p) = Z.log2 (Zpos p) + 1.
Proof.
  unfold Zdigits2. rewrite digits2_pos_size.
  destruct p as [p|p|]; simpl; rewrite ?Pos.add_1_r; reflexivity.
Qed.

Lemma Zdigits2_nonneg (m : Z) : 0 <= Zdigits2 m.
Proof. destruct m; simpl; lia. Qed.

Lemma Zdigits2_mono (a b : Z) : 0 <= a <= b -> Zdigits2 a <= Zdigits2 b.
Proof.
  intros [Ha Hab]. destruct a as [|pa|pa]; [apply Zdigits2_nonneg | | lia].
  destruct b as [|pb|pb]; try lia.
  rewrite !Zdigits2_log2. pose proof (Z.log2_le_mono (Zpos pa) (Zpos pb) Hab). lia.
Qed.

Lemma Zdigits2_succ (a : Z) : 0 <= a -> Zdigits2 (a + 1) <= Zdigits2 a + 1.
Proof.
  intros Ha. destruct a as [|pa|pa]; [simpl; lia | | lia].
  change (Zpos pa + 1) with (Z.succ (Zpos pa)).
  destruct (Z.succ (Zpos pa)) as [|ps|ps] eqn:Es; try lia.
  rewrite !Zdigits2_log2. rewrite <- Es.
  pose proof (Z.log2_succ_le (Zpos pa)). lia.
Qed.

Lemma Zdigits2_shiftl (p : positive) (s : Z) :
  0 <= s -> Zdigits2 (Z.shiftl (Zpos p) s) = Zdigits2 (Zpos p) + s.
Proof.
  intros Hs. rewrite Z.shiftl_mul_pow2 by exact Hs.
  assert (Hpos : 0 < Zpos p * 2 ^ s) by (apply Z.mul_pos_pos; [lia | now apply Z.pow_pos_nonneg]).
  destruct (Zpos p * 2 ^ s) as [|q|q] eqn:Eq; try lia.
  rewrite !Zdigits2_log2. rewrite <- Eq.
  rewrite Z.log2_mul_pow2 by lia. lia.
Qed.

Lemma shr_1_bounds (mrs : shr_record) :
  0 <= shr_m mrs -> 0 <= shr_m (shr_1 mrs) <= shr_m mrs.
Proof.
  destruct mrs as [m r s]. cbn [shr_m]. intros Hm.
  destruct m as [|[p|p|]|p]; cbn; lia.
Qed.

Lemma iter_shr_1_bounds (p : positive) :
  forall mrs, 0 <= shr_m mrs -> 0 <= shr_m (iter_pos shr_1 p mrs) <= shr_m mrs.
Proof.
  induction p as [p IH|p IH|]; intros mrs Hm; cbn [iter_pos].
  - pose proof (shr_1_bounds mrs Hm) as H1.
    pose proof (IH _ (proj1 H1)) as H2.
    pose proof (IH _ (proj1 H2)) as H3. lia.
  - pose proof (IH _ Hm) as H2.
    pose proof (IH _ (proj1 H2)) as H3. lia.
  - now apply shr_1_bounds.
Qed.

Lemma shr_m_of_loc (m : Z) (l : location) : shr_m (shr_record_of_loc m l) = m.
Proof. destruct l as [|[ | | ]]; reflexivity. Qed.

Lemma shr_fexp_bounds (m e : Z) (l : location) (mrs : shr_record) (e' : Z) :
  0 <= m ->
  shr_fexp 53 1024 m e l = (mrs, e') ->
  0 <= shr_m mrs <= m /\ e' = Z.max e (fexp 53 1024 (Zdigits2 m + e)).
Proof.
  intros Hm. unfold shr_fexp, shr.
  destruct (fexp 53 1024 (Zdigits2 m + e) - e) as [|p|p] eqn:En; intros E;
    injection E as E1 E2; subst mrs e'.
  - rewrite shr_m_of_loc. lia.
  - pose proof (iter_shr_1_bounds p (shr_record_of_loc m l)) as Hb.
    rewrite shr_m_of_loc in Hb. specialize (Hb Hm). lia.
  - rewrite shr_m_of_loc. lia.
Qed.

Lemma round_nearest_even_bounds (m : Z) (l : location) :
  m <= round_nearest_even m l <= m + 1.
Proof.
  unfold round_nearest_even. destruct l as [|[ | | ]]; try lia.
  destruct (Z.even m); lia.
Qed.

Lemma binary_round_aux_finite (sx : bool) (m ex : Z) (lx : location) (D E : Z) :
  0 <= m -> Zdigits2 m <= D -> ex <= E -> -1074 <= E ->
  E + 2 * D + 2 <= 971 ->
  finite_within (D + 1) (E + 2 * D + 2) (binary_round_aux 53 1024 sx m ex lx).
Proof.
  intros Hm HD HE HlowE Hfit. unfold binary_round_aux.
  pose proof (Zdigits2_nonneg m) as Hd0.
  destruct (shr_fexp 53 1024 m ex lx) as [mrs1 e1] eqn:E1.
  destruct (shr_fexp_bounds _ _ _ _ _ Hm E1) as [Hm1 He1].
  pose proof (round_nearest_even_bounds (shr_m mrs1) (loc_of_shr_record mrs1)) as Hr.
  set (m1 := round_nearest_even (shr_m mrs1) (loc_of_shr_record mrs1)) in *.
  assert (Hm1' : 0 <= m1) by lia.
  assert (Hd1 : Zdigits2 m1 <= D + 1).
  { pose proof (Zdigits2_mono m1 (m + 1) ltac:(lia)).
    pose proof (Zdigits2_succ m Hm). lia. }
  pose proof (Zdigits2_nonneg m1) as Hd1'.
  destruct (shr_fexp 53 1024 m1 e1 loc_Exact) as [mrs2 e2] eqn:E2.
  destruct (shr_fexp_bounds _ _ _ _ _ Hm1' E2) as [Hm2 He2].
  unfold fexp, emin in He1, He2.
  destruct (shr_m mrs2) as [|mf|mf] eqn:Emf; [exact I | | lia].
  assert (He2' : e2 <= E + 2 * D + 2) by lia.
  replace (e2 <=? 1024 - 53) with true by (symmetry; apply Z.leb_le; lia).
  cbn [finite_within]. split; [|exact He2'].
  pose proof (Zdigits2_mono (Zpos mf) m1 ltac:(lia)) as Hmono.
  cbn [Zdigits2] in Hmono. lia.
Qed.

Lemma digits2_iter_xO (d m : positive) :
  Zpos (digits2_pos (Pos.iter xO m d)) = Zpos (digits2_pos m) + Zpos d.
Proof.
  induction d as [|d IH] using Pos.peano_ind.
  - simpl. lia.
  - rewrite Pos.iter_succ. cbn [digits2_pos]. lia.
Qed.

Lemma digits2_pos_le64 (p : positive) :
  Zpos p <= 2 ^ 63 -> Zpos (digits2_pos p) <= 64.
Proof.
  intros Hp. change (Zpos (digits2_pos p)) with (Zdigits2 (Zpos p)).
  rewrite Zdigits2_log2.
  pose proof (Z.log2_le_mono (Zpos p) (2 ^ 63) Hp) as Hl.
  rewrite Z.log2_pow2 in Hl by lia. lia.
Qed.

Lemma float64_of_int_finite (i : Z) :
  in_int64 i -> finite_within 65 130 (float64_of_int i).
Proof.
  unfold in_int64, min_int64, max_int64. intros Hi.
  unfold float64_of_int, binary_normalize.
  assert (Hgen : forall sx p, Zpos p <= 2 ^ 63 ->
                   finite_within 65 130 (binary_round 53 1024 sx p 0)).
  { intros sx p Hp. unfold binary_round.
    pose proof (digits2_pos_le64 p Hp) as Hd.
    assert (Hf : fexp 53 1024 (Zpos (digits2_pos p) + 0) = Zpos (digits2_pos p) - 53)
      by (unfold fexp, emin; lia).
    rewrite Hf.
    destruct (shl_align p 0 (Zpos (digits2_pos p) - 53)) as [mz ez] eqn:Ea.
    assert (Hz : Zpos (digits2_pos mz) <= 64 /\ ez <= 0).
    { unfold shl_align in Ea.
      destruct (Zpos (digits2_pos p) - 53 - 0) as [|d|d] eqn:Ed;
        apply pair_equal_spec in Ea; destruct Ea as [E1 E2]; subst mz ez; try lia.
      rewrite digits2_iter_xO. lia. }
    apply (binary_round_aux_finite sx (Zpos mz) ez loc_Exact 64 0); cbn [Zdigits2]; lia. }
  destruct i as [|p|p]; [exact I | apply Hgen; lia | apply Hgen; lia].
Qed.

Lemma SFdiv_finite (x : spec_float) (sy : bool) (my : positive) (ey : Z) :
  finite_within 65 130 x ->
  Zpos (digits2_pos my) = 53 -> -100 <= ey <= 0 ->
  finite_within 1000 971 (SFdiv 53 1024 x (S754_finite sy my ey)).
Proof.
  intros Hx Hdy Hey. destruct x as [sx| |  |sx mx ex]; cbn [finite_within] in Hx;
    try contradiction; [exact I|].
  destruct Hx as [Hdx Hex]. cbn [SFdiv].
  destruct (SFdiv_core_binary 53 1024 (Zpos mx) ex (Zpos my) ey) as [[mz ez] lz] eqn:Ec.
  unfold SFdiv_core_binary in Ec. cbn [Zdigits2] in Ec. rewrite Hdy in Ec.
  set (e' := Z.min (fexp 53 1024 (Zpos (digits2_pos mx) + ex - (53 + ey))) (ex - ey)) in *.
  set (s := ex - ey - e') in *.
  set (m' := match s with
             | 0 => Zpos mx
             | Zpos _ => Z.shiftl (Zpos mx) s
             | Zneg _ => 0
             end) in *.
  assert (Hs : 0 <= s <= 106).
  { unfold s, e', fexp, emin. pose proof (Zdigits2_nonneg (Zpos mx)) as H0.
    cbn [Zdigits2] in H0. lia. }
  assert (Hm' : 0 <= m' /\ Zdigits2 m' <= Zpos (digits2_pos mx) + s).
  { unfold m'. destruct s as [|ps|ps] eqn:Es; try lia.
    - cbn [Zdigits2]. lia.
    - rewrite Zdigits2_shiftl by lia. cbn [Zdigits2].
      split; [|lia]. apply Z.shiftl_nonneg. lia. }
  pose proof (Z_div_mod m' (Zpos my) ltac:(lia)) as Hdiv.
  destruct (Z.div_eucl m' (Zpos my)) as [q r] eqn:Eqr.
  injection Ec as E1 E2 E3. subst mz ez lz.
  destruct Hdiv as [Hq Hr].
  assert (Hq0 : 0 <= q <= m') by nia.
  pose proof (Zdigits2_mono q m' Hq0) as Hdq.
  assert (He' : e' <= 230) by (unfold e'; lia).
  pose proof (binary_round_aux_finite (xorb sx sy) q e' (new_location (Zpos my) r)
                172 230 ltac:(lia) ltac:(lia) He' ltac:(lia) ltac:(lia)) as Hfin.
  destruct (binary_round_aux 53 1024 (xorb sx sy) q e' (new_location (Zpos my) r));
    cbn [finite_within] in *; try assumption; lia.
Qed.

Lemma elapsed_ms_finite (ns : Z) :
  in_int64 ns ->
  finite_within 1000 971 (float64_div (float64_of_int ns) (float64_of_int 1000000)).
Proof.
  intros Hns. unfold float64_div.
  pose proof (float64_of_int_finite ns Hns) as Hx.
  assert (E6 : float64_of_int 1000000 = S754_finite false 8589934592000000 (-33))
    by (vm_compute; reflexivity).
  rewrite E6. apply SFdiv_finite; [exact Hx | reflexivity | lia].
Qed.

End Binary64.

(** ** [Trace] *)

Lemma Itoa_nonneg (z : Z) : 0 <= z -> strconv.Itoa z = decimal z.
Proof. intros Hz. destruct z as [|p|p]; [reflexivity | reflexivity | lia]. Qed.

Lemma digit_decimal (k : Z) : 0 <= k <= 9 -> digit k = decimal k.
Proof.
  intros Hk.
  assert (H : k = 0 \/ k = 1 \/ k = 2 \/ k = 3 \/ k = 4 \/ k = 5 \/ k = 6 \/ k = 7
              \/ k = 8 \/ k = 9) by lia.
  repeat (destruct H as [H | H]; [subst k; reflexivity|]). subst k. reflexivity.
Qed.

Lemma round_half_even_nonneg (num den : Z) :
  0 <= num -> 0 < den -> 0 <= round_half_even num den.
Proof.
  intros Hn Hd. unfold round_half_even.
  pose proof (Z.div_pos num den Hn Hd).
  case_ifs; lia.
Qed.

Lemma three_decimals (neg : bool) (n : Z) :
  0 <= n ->
  milliseconds_text ((if neg then "-" else EmptyString) ++ strconv.Itoa (n / 1000)
                       ++ "." ++ pad3 (n mod 1000) ++ "ms").
Proof.
  intros Hn. pose proof (Z.mod_pos_bound n 1000 ltac:(lia)) as Hf.
  set (f := n mod 1000) in *.
  exists neg, (n / 1000), (f / 100), ((f / 10) mod 10), (f mod 10).
  assert (H1 : 0 <= n / 1000) by (apply Z.div_pos; lia).
  assert (H2 : 0 <= f / 100 <= 9).
  { split; [apply Z.div_pos; lia|].
    pose proof (Z.div_lt_upper_bound f 100 10 ltac:(lia) ltac:(lia)). lia. }
  assert (H3 : 0 <= (f / 10) mod 10 <= 9)
    by (pose proof (Z.mod_pos_bound (f / 10) 10 ltac:(lia)); lia).
  assert (H4 : 0 <= f mod 10 <= 9)
    by (pose proof (Z.mod_pos_bound f 10 ltac:(lia)); lia).
  repeat (split; [assumption|]).
  unfold pad3. rewrite Itoa_nonneg by exact H1.
  rewrite !digit_decimal by assumption. now rewrite !sapp_assoc.
Qed.

(** [%.3fms] of a 64-bit count of nanoseconds divided by one million is a
    decimal figure with three decimals, then [ms]. *)
Lemma Sprintf_3fms_shape (ns : Z) : in_int64 ns -> milliseconds_text (Sprintf_3fms ns).
Proof.
  intros Hns. unfold Sprintf_3fms.
  pose proof (elapsed_ms_finite ns Hns) as Hfin.
  destruct (float64_div (float64_of_int ns) (float64_of_int 1000000))
    as [s| | |s m e]; cbn [finite_within] in Hfin; try contradiction.
  - exists s, 0, 0, 0, 0. repeat (split; [lia|]). cbn [Sprintf_f3].
    now rewrite !sapp_assoc.
  - cbn [Sprintf_f3]. rewrite !sapp_assoc.
    apply (three_decimals s).
    destruct (0 <=? e) eqn:Ee.
    + apply Z.leb_le in Ee. pose proof (Z.pow_nonneg 2 e ltac:(lia)). nia.
    + apply Z.leb_gt in Ee. apply round_half_even_nonneg; [lia|].
      apply Z.pow_pos_nonneg; lia.
Qed.

Section TraceClaim.

Context `{L : GoLib}.

Lemma rewritten_kept_string (h : Handler) (gs : list string) (key text : string) :
  hook_keeps h gs (key, StringValue text) ->
  rewritten h gs (key, StringValue text) = (key, StringValue text).
Proof.
  unfold hook_keeps, rewritten. destruct (replaceAttr h) as [rep|]; [|reflexivity].
  intros E. cbn. unfold resolved, Key, Value_of. cbn. rewrite E. reflexivity.
Qed.

End TraceClaim.



(** The scenario of the specification: 12,345,000 ns, three rows, no
    error; and the same call with the row count -1 and an error. *)
Example Trace_scenarios :
  option_map events
    (Handler_Trace (L := demo) 1 (Demo.world_of Demo.plain_handler) 0 5 0
                   12345000 ("SELECT 1", 3) nil_error)
  = Some [EvLock 0;
          EvWrite 0 ("T5 INFO  time=12.345ms sql=" ++ str1 dquote ++ "SELECT 1"
                       ++ str1 dquote ++ str1 newline);
          EvUnlock 0]
  /\ option_map events
       (Handler_Trace (L := demo) 1 (Demo.world_of Demo.plain_handler) 0 5 0
                      12345000 ("SELECT 1", -1) (Some "no rows"))
     = Some [EvLock 0;
             EvWrite 0 ("T5 INFO  err=" ++ str1 dquote ++ "no rows" ++ str1 dquote
                          ++ " time=12.345ms sql=-" ++ str1 newline);
             EvUnlock 0].
Proof. split; reflexivity. Qed.

(** ** Derived handlers *)

Lemma list_set_length {A : Type} (i : nat) (x : A) (l : list A) :
  List.length (list_set i x l) = List.length l.
Proof.
  revert i. induction l as [|y l IH]; intros i; [now destruct i|].
  destruct i; simpl; [reflexivity | now rewrite IH].
Qed.

Lemma nth_list_set_eq {A : Type} (i : nat) (x d : A) (l : list A) :
  (i < List.length l)%nat -> nth i (list_set i x l) d = x.
Proof.
  revert i. induction l as [|y l IH]; intros i Hi; simpl in Hi; [lia|].
  destruct i; simpl; [reflexivity | apply IH; lia].
Qed.

Lemma nth_list_set_neq {A : Type} (i j : nat) (x d : A) (l : list A) :
  i <> j -> nth j (list_set i x l) d = nth j l d.
Proof.
  revert i j. induction l as [|y l IH]; intros i j Hij; [now destruct i|].
  destruct i, j; simpl; try reflexivity; try congruence.
  apply IH. congruence.
Qed.

Lemma firstn_list_set_ge {A : Type} (n i : nat) (x : A) (l : list A) :
  (n <= i)%nat -> firstn n (list_set i x l) = firstn n l.
Proof.
  revert n i. induction l as [|y l IH]; intros n i Hn; [now destruct i|].
  destruct i, n; simpl; try reflexivity; try lia.
  f_equal. apply IH. lia.
Qed.

Lemma firstn_S_list_set {A : Type} (i : nat) (x : A) (l : list A) :
  (i < List.length l)%nat -> firstn (S i) (list_set i x l) = (firstn i l ++ [x])%list.
Proof.
  revert i. induction l as [|y l IH]; intros i Hi; simpl in Hi; [lia|].
  destruct i; simpl; [reflexivity|]. f_equal. apply IH. lia.
Qed.

Lemma nth_error_list_set_neq {A : Type} (i j : nat) (x : A) (l : list A) :
  i <> j -> nth_error (list_set i x l) j = nth_error l j.
Proof.
  revert i j. induction l as [|y l IH]; intros i j Hij; [now destruct i|].
  destruct i, j; simpl; try reflexivity; try congruence.
  apply IH. congruence.
Qed.

Lemma firstn_le_eq {A : Type} (n k : nat) (l1 l2 : list A) :
  (n <= k)%nat -> firstn k l1 = firstn k l2 -> firstn n l1 = firstn n l2.
Proof.
  intros Hle E. rewrite <- (Nat.min_l n k Hle), <- !firstn_firstn. now rewrite E.
Qed.

Section Slices.

Context `{L : GoLib}.

(** [append] gives a slice with the element added at the end, and leaves
    the view of the slice it was given as it was. *)
Lemma append1_view (m : arrays) (s : slice) (x : string) :
  slice_ok m s ->
  slice_view (fst (append1 m s x)) (snd (append1 m s x)) = (slice_view m s ++ [x])%list
  /\ slice_view (fst (append1 m s x)) s = slice_view m s
  /\ slice_ok (fst (append1 m s x)) (snd (append1 m s x)).
Proof.
  intros [Hlen Hcap]. unfold append1, slice_view, slice_ok.
  destruct (slice_len s <? slice_cap s)%nat eqn:E; cbn [fst snd slice_array slice_len slice_cap].
  - apply Nat.ltb_lt in E. destruct (Hcap ltac:(lia)) as [Ha Hl].
    rewrite nth_list_set_eq by exact Ha.
    split; [apply firstn_S_list_set; lia|].
    split; [apply firstn_list_set_ge; lia|].
    split; [lia|]. intros _. rewrite list_set_length. split; [exact Ha|].
    rewrite ?nth_list_set_eq by exact Ha. rewrite list_set_length. exact Hl.
  - apply Nat.ltb_ge in E.
    assert (Hv : List.length (firstn (slice_len s) (nth (slice_array s) m [])) = slice_len s).
    { destruct (Nat.eq_dec (slice_cap s) 0) as [H0|H0].
      - assert (slice_len s = 0)%nat by lia.
        replace (slice_len s) with 0%nat by lia. reflexivity.
      - destruct (Hcap ltac:(lia)) as [Ha Hl]. rewrite length_firstn. lia. }
    pose proof (growslice_fits (slice_cap s)) as Hg.
    rewrite app_nth2 by lia. rewrite Nat.sub_diag. cbn [nth].
    split.
    + rewrite firstn_app, Hv.
      replace (S (slice_len s) - slice_len s)%nat with 1%nat by lia.
      rewrite firstn_all2 by lia. reflexivity.
    + split.
      * destruct (Nat.eq_dec (slice_cap s) 0) as [H0|H0].
        -- replace (slice_len s) with 0%nat by lia. reflexivity.
        -- destruct (Hcap ltac:(lia)) as [Ha Hl]. now rewrite app_nth1 by exact Ha.
      * split; [lia|]. intros _. rewrite length_app. cbn [List.length].
        split; [lia|].
        rewrite length_app, Hv. cbn [List.length]. rewrite repeat_length. lia.
Qed.

Lemma append1_frame (m : arrays) (s : slice) (x : string) :
  frame s m (fst (append1 m s x)) /\ extends s (snd (append1 m s x)) m.
Proof.
  unfold append1, frame, extends.
  destruct (slice_len s <? slice_cap s)%nat eqn:E; cbn [fst snd slice_array slice_len].
  - split; [|left; split; [reflexivity | lia]].
    rewrite list_set_length. split; [lia|]. intros a Ha. split.
    + intros Hne. apply nth_list_set_neq. congruence.
    + intros ->. rewrite nth_list_set_eq by exact Ha.
      split; [apply firstn_list_set_ge; lia | apply list_set_length].
  - split; [|right; lia].
    rewrite length_app. cbn [List.length]. split; [lia|]. intros a Ha.
    rewrite app_nth1 by exact Ha. split; [reflexivity | split; reflexivity].
Qed.

Lemma frame_refl (g : slice) (m : arrays) : frame g m m.
Proof. split; [lia|]. intros a _. split; [reflexivity | split; reflexivity]. Qed.

Lemma frame_trans (g g1 : slice) (m m1 m2 : arrays) :
  frame g m m1 -> extends g g1 m -> frame g1 m1 m2 -> frame g m m2.
Proof.
  intros [Hl1 H1] Hext [Hl2 H2]. split; [lia|]. intros a Ha.
  destruct (H1 a Ha) as [H1n H1e]. destruct (H2 a ltac:(lia)) as [H2n H2e].
  split.
  - intros Hne. rewrite <- (H1n Hne). apply H2n.
    destruct Hext as [[Earr _] | Hnew]; [congruence | lia].
  - intros ->. destruct (H1e eq_refl) as [Hf1 Hlen1].
    destruct Hext as [[Earr Hle] | Hnew].
    + destruct (H2e (eq_sym Earr)) as [Hf2 Hlen2]. split; [|congruence].
      rewrite <- Hf1. exact (firstn_le_eq _ _ _ _ Hle Hf2).
    + assert (Hne : slice_array g <> slice_array g1) by lia.
      rewrite (H2n Hne). split; assumption.
Qed.

End Slices.

Section Derivation.

Context `{L : GoLib}.

Lemma appendAttrs_frame_from (fuel : nat) (h : Handler) :
  (forall m buf a gp g m' buf',
      appendAttr fuel h m buf a gp g = Some (m', buf') -> frame g m m') ->
  forall l m buf gp g m' buf',
    appendAttrs fuel h m buf l gp g = Some (m', buf') -> frame g m m'.
Proof.
  intros Hone. induction l as [|a l IH]; intros m buf gp g m' buf' E.
  - injection E as E _. subst m'. apply frame_refl.
  - rewrite appendAttrs_cons in E.
    destruct (appendAttr fuel h m buf a gp g) as [[m1 b1]|] eqn:E1; [|discriminate].
    apply (frame_trans g g m m1 m').
    + eapply Hone; eassumption.
    + left. split; [reflexivity | lia].
    + eapply IH; eassumption.
Qed.

(** Rendering an attribute under the group stack [g] changes the heap
    only beyond the view of [g]. *)
Lemma appendAttr_frame (fuel : nat) (h : Handler) :
  forall m buf a gp g m' buf',
    appendAttr fuel h m buf a gp g = Some (m', buf') -> frame g m m'.
Proof.
  induction fuel as [|fuel IH]; intros m buf a gp g m' buf' E; [discriminate|].
  rewrite appendAttr_eq in E. cbv zeta in E.
  destruct (Attr_Equal_zero (rewritten h (slice_view m g) a)).
  { injection E as E _. subst m'. apply frame_refl. }
  pose proof (appendAttrs_frame_from fuel h IH) as Hl.
  destruct (Value_of (rewritten h (slice_view m g) a)) eqn:Ev;
    try (injection E as E _; subst m'; apply frame_refl).
  destruct (negb (Key (rewritten h (slice_view m g) a) =? EmptyString)%string).
  - destruct (append1_frame m g (Key (rewritten h (slice_view m g) a))) as [Hf Hx].
    destruct (append1 m g (Key (rewritten h (slice_view m g) a))) as [m1 g1].
    cbn [fst snd] in Hf, Hx.
    apply (frame_trans g g1 m m1 m'); [exact Hf | exact Hx|].
    eapply Hl; exact E.
  - eapply Hl; exact E.
Qed.

Lemma appendAttrs_frame (fuel : nat) (h : Handler) (l : list Attr) (m : arrays)
      (buf : buffer) (gp : string) (g : slice) (m' : arrays) (buf' : buffer) :
  appendAttrs fuel h m buf l gp g = Some (m', buf') -> frame g m m'.
Proof. apply appendAttrs_frame_from, appendAttr_frame. Qed.

Lemma frame_view (g : slice) (m m' : arrays) :
  frame g m m' -> slice_ok m g -> slice_view m' g = slice_view m g.
Proof.
  intros [_ Hf] [Hlen Hcap]. unfold slice_view.
  destruct (Nat.eq_dec (slice_cap g) 0) as [H0|H0].
  - replace (slice_len g) with 0%nat by lia. reflexivity.
  - destruct (Hcap ltac:(lia)) as [Ha _].
    destruct (Hf _ Ha) as [_ He]. now destruct (He eq_refl).
Qed.

Lemma clone_copies (h : Handler) :
  attrsPrefix (clone h) = attrsPrefix h
  /\ groupPrefix (clone h) = groupPrefix h
  /\ groups (clone h) = groups h
  /\ same_options h (clone h)
  /\ skip (clone h) = 0
  /\ mu (clone h) = false.
Proof. repeat split. Qed.

(** [WithGroup] with a name: the parent struct and its group stack are as
    before; the derived handler is a new struct with the writer and the
    options of the parent, the prefix and the stack extended by the name. *)
Lemma WithGroup_derives (st : World) (hp : nat) (h : Handler) (name : string) :
  name <> EmptyString ->
  nth_error (handlers st) hp = Some h ->
  slice_ok (heap st) (groups h) ->
  exists st' d,
    WithGroup st hp name = Some (st', List.length (handlers st))
    /\ List.length (handlers st) <> hp
    /\ nth_error (handlers st') hp = Some h
    /\ slice_view (heap st') (groups h) = slice_view (heap st) (groups h)
    /\ writers st' = writers st
    /\ nth_error (handlers st') (List.length (handlers st)) = Some d
    /\ same_options h d
    /\ attrsPrefix d = attrsPrefix h
    /\ groupPrefix d = groupPrefix h ++ name ++ "."
    /\ slice_view (heap st') (groups d) = (slice_view (heap st) (groups h) ++ [name])%list
    /\ skip d = 0
    /\ mu d = false.
Proof.
  intros Hname Hh Hok. unfold WithGroup.
  apply String.eqb_neq in Hname. rewrite Hname, Hh.
  destruct (append1_view (heap st) (groups h) name Hok) as [Hv [Hp _]].
  change (groups (set_groupPrefix (clone h) (groupPrefix (clone h) ++ name ++ ".")))
    with (groups h).
  destruct (append1 (heap st) (groups h) name) as [m g]. cbn [fst snd] in Hv, Hp.
  assert (Hlt : (hp < List.length (handlers st))%nat)
    by (apply nth_error_Some; congruence).
  eexists. eexists. split; [reflexivity|]. cbn [handlers heap writers].
  split; [lia|].
  split; [rewrite nth_error_app1 by exact Hlt; exact Hh|].
  split; [exact Hp|]. split; [reflexivity|].
  split; [rewrite nth_error_app2 by lia; rewrite Nat.sub_diag; reflexivity|].
  repeat split. exact Hv.
Qed.

(** [WithAttrs] with attributes: the parent struct and its group stack
    are as before; the derived handler is a new struct with the writer,
    the options and the groups of the parent, and the prefix of the parent
    followed by the texts of the attributes. *)
Lemma WithAttrs_derives (fuel : nat) (st st' : World) (hp hp' : nat) (h : Handler)
      (attrs : list Attr) :
  attrs <> [] ->
  nth_error (handlers st) hp = Some h ->
  slice_ok (heap st) (groups h) ->
  WithAttrs fuel st hp attrs = Some (st', hp') ->
  hp' = List.length (handlers st)
  /\ hp' <> hp
  /\ nth_error (handlers st') hp = Some h
  /\ slice_view (heap st') (groups h) = slice_view (heap st) (groups h)
  /\ writers st' = writers st
  /\ exists d texts,
      nth_error (handlers st') hp' = Some d
      /\ attr_fields fuel h (heap st) attrs (groupPrefix h) (groups h)
         = Some (heap st', texts)
      /\ same_options h d
      /\ attrsPrefix d = attrsPrefix h ++ concat_strings texts
      /\ groupPrefix d = groupPrefix h
      /\ groups d = groups h
      /\ skip d = 0
      /\ mu d = false.
Proof.
  intros Hne Hh Hok. unfold WithAttrs.
  destruct attrs as [|a0 attrs0]; [contradiction|]. cbn [List.length Nat.eqb].
  rewrite Hh.
  destruct (appendAttrs fuel h (heap st) newBuffer (a0 :: attrs0) (groupPrefix h) (groups h))
    as [[m buf]|] eqn:E; [|discriminate].
  pose proof (appendAttrs_frame _ _ _ _ _ _ _ _ _ E) as Hf.
  rewrite appendAttrs_fields in E.
  destruct (attr_fields fuel h (heap st) (a0 :: attrs0) (groupPrefix h) (groups h))
    as [[m1 texts]|] eqn:Ef; [|discriminate].
  some_pair E as [-> <-].
  intros E. some_pair E as [<- <-].
  assert (Hlt : (hp < List.length (handlers st))%nat)
    by (apply nth_error_Some; congruence).
  cbn [handlers heap writers].
  split; [reflexivity|]. split; [lia|].
  split; [rewrite nth_error_app1 by exact Hlt; exact Hh|].
  split; [now apply frame_view|]. split; [reflexivity|].
  eexists. exists texts.
  split; [rewrite nth_error_app2 by lia; rewrite Nat.sub_diag; reflexivity|].
  split; [reflexivity|]. repeat split.
Qed.

(** [Handle] leaves every handler struct as it was, and the group stack
    of the handler it is called on. *)
Lemma Handle_keeps_handlers (fuel : nat) (st st' : World) (hp : nat) (h : Handler)
      (r : Record_) (err : error) :
  nth_error (handlers st) hp = Some h ->
  slice_ok (heap st) (groups h) ->
  Handle fuel st hp r = Some (st', err) ->
  handlers st' = handlers st
  /\ slice_view (heap st') (groups h) = slice_view (heap st) (groups h).
Proof.
  intros Hh Hok. unfold Handle, Handle_render. rewrite Hh. cbv zeta.
  match goal with |- context [appendAttrs fuel h (heap st) ?b _ _ _] => set (buf0 := b) end.
  destruct (appendAttrs fuel h (heap st) buf0 (Record_Attrs r) (groupPrefix h) (groups h))
    as [[m buf]|] eqn:E; [|discriminate].
  pose proof (frame_view _ _ _ (appendAttrs_frame _ _ _ _ _ _ _ _ _ E) Hok) as Hv.
  destruct (len buf =? 0).
  - intros E1. some_pair E1 as [<- _]. split; [reflexivity | exact Hv].
  - destruct (mu h); [discriminate|].
    destruct (nth_error (writers st) (w h)) as [wr|]; [|discriminate].
    cbn. intros E1. some_pair E1 as [<- _]. split; [reflexivity | exact Hv].
Qed.

End Derivation.

(** C4, evaluated where the code departs from it.  [NewHandler] with the
    default options gives a handler, at address 0, whose [skip] is 4.  The
    handler derived from it by [WithGroup], at address 1, has the writer of
    its parent and leaves the parent as it was, but its [skip] is 0: [clone]
    does not copy the field.  Nor does it share the lock: the mutex is a
    field of the struct, and [Handle] on the derived handler locks the mutex
    of the new struct (address 1) while [Handle] on the parent locks that of
    the parent (address 0), both around a write to the same writer 0. *)
Theorem derived_handler_drops_skip_and_lock :
  snd Derived.fresh = 0%nat
  /\ option_map skip (nth_error (handlers (fst Derived.fresh)) 0) = Some 4
  /\ option_map snd Derived.derived = Some 1%nat
  /\ option_map (fun x => nth_error (handlers (fst x)) 0) Derived.derived
     = Some (nth_error (handlers (fst Derived.fresh)) 0)
  /\ option_map (fun x => option_map skip (nth_error (handlers (fst x)) 1)) Derived.derived
     = Some (Some 0)
  /\ option_map (fun x => option_map w (nth_error (handlers (fst x)) 1)) Derived.derived
     = option_map (fun x => option_map w (nth_error (handlers (fst x)) 0)) Derived.derived
  /\ option_map
       (fun x => Demo.output (Handle (L := demo) 1 (fst x) 0
                                     (NewRecord (L := demo) 0 slog.LevelInfo "m" 0)))
       Derived.derived
     = Some (Some ([EvLock 0; EvWrite 0 ("INFO m" ++ str1 newline); EvUnlock 0],
                   nil_error))
  /\ option_map
       (fun x => Demo.output (Handle (L := demo) 1 (fst x) 1
                                     (NewRecord (L := demo) 0 slog.LevelInfo "m" 0)))
       Derived.derived
     = Some (Some ([EvLock 1; EvWrite 0 ("INFO m" ++ str1 newline); EvUnlock 1],
                   nil_error)).
Proof.
  split; [reflexivity|]. split; [reflexivity|]. split; [reflexivity|].
  split; [reflexivity|]. split; [reflexivity|]. split; [reflexivity|].
  split; vm_compute; reflexivity.
Qed.

(** The group stacks of derived handlers share backing arrays.  With
    capacities that double, the third handler of a chain of [WithGroup]
    holds three names in an array of four; the two handlers derived from
    it, the first with the name [d] and the second with [e], write their
    name into the same free element, and the first of them ends with the
    name of the second in its stack. *)
Example group_stacks_alias :
  option_map
    (fun x => (Derived.groups_of (fst x) (fst (snd x)),
               Derived.groups_of (fst x) (snd (snd x)),
               option_map groupPrefix (nth_error (handlers (fst x)) (fst (snd x))),
               option_map groupPrefix (nth_error (handlers (fst x)) (snd (snd x)))))
    Derived.chain
  = Some (Some ["a"; "b"; "c"; "e"], Some ["a"; "b"; "c"; "e"],
          Some "a.b.c.d.", Some "a.b.c.e.").
Proof. vm_compute. reflexivity. Qed.

(** ** The invariant of the handlers *)

Section Invariant.

Context `{L : GoLib}.

Lemma frame_slice_ok (g t : slice) (m m' : arrays) :
  frame g m m' -> slice_ok m t -> slice_ok m' t.
Proof.
  intros [Hlen Hf] [Hl Hc]. split; [exact Hl|]. intros Hpos.
  destruct (Hc Hpos) as [Ha Hn]. split; [lia|].
  destruct (Hf _ Ha) as [Hne He].
  destruct (Nat.eq_dec (slice_array t) (slice_array g)) as [E|E].
  - destruct (He E) as [_ Hlen']. congruence.
  - rewrite (Hne E). exact Hn.
Qed.

Lemma frame_handler_ok (g : slice) (m m' : arrays) (h : Handler) :
  frame g m m' -> handler_ok m h -> handler_ok m' h.
Proof.
  intros Hf [Hp [Hs Hm]]. split; [exact Hp|]. split; [|exact Hm].
  eapply frame_slice_ok; eassumption.
Qed.

Lemma NewHandler_ok (st : World) (wr : nat) (opts : option Options) :
  World_ok st -> World_ok (fst (NewHandler st wr opts)).
Proof.
  intros Hok. unfold NewHandler, World_ok. cbn [fst handlers heap].
  apply Forall_app. split; [exact Hok|]. constructor; [|constructor].
  destruct opts as [o|]; (split; [now left|]); (split; [|reflexivity]);
    (split; [cbn; lia | cbn; lia]).
Qed.

Lemma WithGroup_ok (st st' : World) (hp hp' : nat) (name : string) :
  World_ok st -> WithGroup st hp name = Some (st', hp') -> World_ok st'.
Proof.
  intros Hok. unfold WithGroup.
  destruct (name =? EmptyString)%string.
  { intros E. some_pair E as [<- _]; assumption || reflexivity. }
  destruct (nth_error (handlers st) hp) as [h|] eqn:Hh; [|discriminate].
  assert (Hhok : handler_ok (heap st) h).
  { unfold World_ok in Hok. rewrite Forall_forall in Hok.
    apply Hok. eapply nth_error_In; eassumption. }
  destruct Hhok as [Hp [Hs Hm]].
  change (groups (set_groupPrefix (clone h) (groupPrefix (clone h) ++ name ++ ".")))
    with (groups h).
  destruct (append1_view (heap st) (groups h) name Hs) as [_ [_ Hs']].
  destruct (append1_frame (heap st) (groups h) name) as [Hf _].
  destruct (append1 (heap st) (groups h) name) as [m g]. cbn [fst snd] in Hs', Hf.
  intros E. some_pair E as [<- _].
  unfold World_ok. cbn [handlers heap]. apply Forall_app. split.
  - unfold World_ok in Hok. eapply Forall_impl; [|exact Hok].
    intros h0. apply frame_handler_ok with (g := groups h). exact Hf.
  - constructor; [|constructor]. split; [exact Hp|]. split; [exact Hs' | reflexivity].
Qed.

Lemma WithAttrs_ok (fuel : nat) (st st' : World) (hp hp' : nat) (attrs : list Attr) :
  World_ok st -> WithAttrs fuel st hp attrs = Some (st', hp') -> World_ok st'.
Proof.
  intros Hok. destruct attrs as [|a0 attrs0].
  { intros E. some_pair E as [<- _]; assumption || reflexivity. }
  unfold WithAttrs. cbn [List.length Nat.eqb].
  destruct (nth_error (handlers st) hp) as [h|] eqn:Hh; [|discriminate].
  assert (Hhok : handler_ok (heap st) h).
  { unfold World_ok in Hok. rewrite Forall_forall in Hok.
    apply Hok. eapply nth_error_In; eassumption. }
  destruct Hhok as [Hp [Hs Hm]].
  destruct (appendAttrs fuel h (heap st) newBuffer (a0 :: attrs0) (groupPrefix h) (groups h))
    as [[m buf]|] eqn:E; [|discriminate].
  pose proof (appendAttrs_frame _ _ _ _ _ _ _ _ _ E) as Hf.
  assert (Hbuf : field buf).
  { rewrite appendAttrs_fields in E.
    destruct (attr_fields fuel h (heap st) (a0 :: attrs0) (groupPrefix h) (groups h))
      as [[m1 texts]|] eqn:Ef; [|discriminate].
    some_pair E as [_ <-].
    apply concat_strings_field. eapply attr_fields_shape. exact Ef. }
  intros E1. some_pair E1 as [<- _].
  unfold World_ok. cbn [handlers heap]. apply Forall_app. split.
  - unfold World_ok in Hok. eapply Forall_impl; [|exact Hok].
    intros h0. apply frame_handler_ok with (g := groups h). exact Hf.
  - constructor; [|constructor]. split; [|split; [|reflexivity]].
    + unfold prefix_ok. cbn. now apply field_app.
    + eapply frame_slice_ok; eassumption.
Qed.

Lemma Handle_ok (fuel : nat) (st st' : World) (hp : nat) (r : Record_) (err : error) :
  World_ok st -> Handle fuel st hp r = Some (st', err) -> World_ok st'.
Proof.
  intros Hok. unfold Handle.
  destruct (nth_error (handlers st) hp) as [h|] eqn:Hh; [|discriminate].
  unfold Handle_render. cbv zeta.
  match goal with |- context [appendAttrs fuel h (heap st) ?b _ _ _] => set (buf0 := b) end.
  destruct (appendAttrs fuel h (heap st) buf0 (Record_Attrs r) (groupPrefix h) (groups h))
    as [[m buf]|] eqn:E; [|discriminate].
  pose proof (appendAttrs_frame _ _ _ _ _ _ _ _ _ E) as Hf.
  assert (Hall : Forall (handler_ok m) (handlers st)).
  { unfold World_ok in Hok. eapply Forall_impl; [|exact Hok].
    intros h0. apply frame_handler_ok with (g := groups h). exact Hf. }
  destruct (len buf =? 0).
  - intros E1. some_pair E1 as [<- _]. exact Hall.
  - destruct (mu h); [discriminate|].
    destruct (nth_error (writers st) (w h)) as [wr|]; [|discriminate].
    cbn. intros E1. some_pair E1 as [<- _]. exact Hall.
Qed.

End Invariant.

(** * [Handle]: the line *)

Section HandleTheLine.

Context `{L : GoLib}.

Lemma Kind_eqb_group (k : slog.Kind) :
  slog.Kind_eqb k slog.KindGroup = true <-> k = slog.KindGroup.
Proof. destruct k; cbn; split; intros E; congruence. Qed.

Lemma leaf_text (h : Handler) (buf : buffer) (a : Attr) (gp : string) :
  leaf h buf a gp = buf ++ key_value h a gp ++ str1 space.
Proof.
  rewrite leaf_app. f_equal. unfold leaf, key_value, WriteByte.
  destruct (Value_Any (Value_of a)) as [[| | | | |]|]; reflexivity.
Qed.

Lemma all_texts_cons (x : option string) (l : list (option string)) (ts : list string) :
  all_texts (x :: l) = Some ts ->
  exists t ts', x = Some t /\ all_texts l = Some ts' /\ ts = t :: ts'.
Proof.
  cbn [all_texts]. destruct x as [t|]; [|discriminate].
  destruct (all_texts l) as [ts'|]; [|discriminate].
  intros E. apply some_eq in E. now exists t, ts'.
Qed.

Lemma all_texts_length (l : list (option string)) :
  forall ts, all_texts l = Some ts -> List.length ts = List.length l.
Proof.
  induction l as [|x l IH]; intros ts E.
  - apply some_eq in E. now subst ts.
  - apply all_texts_cons in E. destruct E as [t [ts' [_ [E ->]]]].
    cbn [List.length]. now rewrite (IH _ E).
Qed.

Lemma all_texts_Forall {A : Type} (P : string -> Prop) (f : A -> option string)
      (l : list A) :
  (forall x t, In x l -> f x = Some t -> P t) ->
  forall ts, all_texts (map f l) = Some ts -> Forall P ts.
Proof.
  induction l as [|x l IH]; intros Hall ts E.
  - apply some_eq in E. subst ts. constructor.
  - cbn [map] in E. apply all_texts_cons in E. destruct E as [t [ts' [Et [E ->]]]].
    constructor.
    + apply (Hall x); [now left | exact Et].
    + apply IH; [|exact E]. intros y u Hin. apply Hall. now right.
Qed.

Lemma all_texts_total {A : Type} (f : A -> option string) (l : list A) :
  (forall x, In x l -> exists t, f x = Some t) ->
  exists ts, all_texts (map f l) = Some ts.
Proof.
  induction l as [|x l IH]; intros Hall; [now exists []|].
  destruct (Hall x (or_introl eq_refl)) as [t Et].
  destruct IH as [ts Ets]; [intros y Hin; apply Hall; now right|].
  exists (t :: ts). cbn [map all_texts]. now rewrite Et, Ets.
Qed.

(** ** Every text is a field *)

Lemma attr_text_field (fuel : nat) (h : Handler) :
  forall gs gp a t, attr_text fuel h gs gp a = Some t -> field t.
Proof.
  induction fuel as [|fuel IH]; intros gs gp a t E; [discriminate|].
  cbn [attr_text] in E. cbv zeta in E.
  destruct (Attr_Equal_zero (rewritten h gs a)).
  { apply some_eq in E. subst t. apply field_nil. }
  assert (Hgroup : forall gs' gp' members,
             option_map concat_strings
               (all_texts (map (attr_text fuel h gs' gp') members)) = Some t ->
             field t).
  { intros gs' gp' members Eg.
    destruct (all_texts (map (attr_text fuel h gs' gp') members)) as [ts|] eqn:Ets;
      [|discriminate].
    apply some_eq in Eg. subst t. apply concat_strings_field.
    apply (all_texts_Forall field (attr_text fuel h gs' gp') members); [|exact Ets].
    intros x u _ Eu. now apply (IH gs' gp' x). }
  destruct (Value_of (rewritten h gs a)) eqn:Ev;
    try (apply some_eq in E; subst t; apply field_snoc).
  destruct (Key (rewritten h gs a) =? EmptyString)%string; eapply Hgroup; exact E.
Qed.

(** ** The rendering returns *)

Lemma rewritten_group_leaf (h : Handler) (gs : list string) (a : Attr)
      (members : list Attr) :
  leaf_hook h ->
  Value_of (rewritten h gs a) = GroupValue members ->
  Resolve (Value_of a) = GroupValue members.
Proof.
  intros Hleaf. unfold rewritten.
  destruct (replaceAttr h) as [rep|] eqn:Er; [|intros E; exact E].
  destruct (slog.Kind_eqb (Value_Kind (Value_of (resolved a))) slog.KindGroup) eqn:Ek;
    cbn [negb]; [intros E; exact E|].
  intros E. exfalso.
  apply (Hleaf rep Er gs a).
  - intros Hk. apply Kind_eqb_group in Hk. unfold resolved, Value_of in Ek.
    cbn [snd] in Ek. unfold Value_of in Hk. congruence.
  - change (Resolve (Value_of (rep gs (resolved a))) = GroupValue members) in E.
    now rewrite E.
Qed.

Lemma attr_text_total (h : Handler) :
  leaf_hook h ->
  forall fuel a, (depth (Value_of a) < fuel)%nat ->
  forall gs gp, exists t, attr_text fuel h gs gp a = Some t.
Proof.
  intros Hleaf. induction fuel as [|fuel IH]; intros a Hd gs gp; [lia|].
  cbn [attr_text]. cbv zeta.
  destruct (Attr_Equal_zero (rewritten h gs a)); [now eexists|].
  destruct (Value_of (rewritten h gs a)) as [ | | | | | | | | members | ] eqn:Ev;
    try (eexists; reflexivity).
  apply (rewritten_group_leaf h _ _ _ Hleaf) in Ev.
  assert (Hm : forall gs' gp', exists ts,
               all_texts (map (attr_text fuel h gs' gp') members) = Some ts).
  { intros gs' gp'. apply all_texts_total. intros a' Hin. apply IH.
    pose proof (depth_member members a' Hin) as H1.
    pose proof (depth_Resolve (Value_of a)) as H2. rewrite Ev in H2.
    unfold Value_of in *. lia. }
  destruct (Key (rewritten h gs a) =? EmptyString)%string.
  - destruct (Hm gs gp) as [ts ->]. now eexists.
  - destruct (Hm (gs ++ [Key (rewritten h gs a)])%list
                 (gp ++ Key (rewritten h gs a) ++ ".")) as [ts ->].
    now eexists.
Qed.

Lemma attr_texts_total (h : Handler) (fuel : nat) (l : list Attr) (gs : list string)
      (gp : string) :
  leaf_hook h ->
  (fuel_for l <= fuel)%nat ->
  exists texts, attr_texts fuel h gs gp l = Some texts.
Proof.
  intros Hleaf Hf. apply all_texts_total. intros a Hin.
  apply attr_text_total; [exact Hleaf|].
  unfold fuel_for in Hf.
  pose proof (proj1 (list_max_le (map (fun a => depth (snd a)) l)
                                 (list_max (map (fun a => depth (snd a)) l)))
                    (Nat.le_refl _)) as Hall.
  rewrite Forall_forall in Hall.
  specialize (Hall _ (in_map (fun a => depth (snd a)) l a Hin)).
  unfold Value_of. cbn beta in Hall. lia.
Qed.

(** ** The code writes these texts

    [appendAttr] threads the heap of backing arrays and reads the group
    names from it; what it writes depends on the heap only through the
    names its slice of groups shows. *)

Lemma attr_fields_texts_from (fuel : nat) (h : Handler) :
  (forall m a gp g, slice_ok m g ->
      match attr_text fuel h (slice_view m g) gp a with
      | Some t => exists m', appendAttr fuel h m EmptyString a gp g = Some (m', t)
      | None => appendAttr fuel h m EmptyString a gp g = None
      end) ->
  forall l m gp g, slice_ok m g ->
    match all_texts (map (attr_text fuel h (slice_view m g) gp) l) with
    | Some texts => exists m', attr_fields fuel h m l gp g = Some (m', texts)
    | None => attr_fields fuel h m l gp g = None
    end.
Proof.
  intros Hone. induction l as [|a l IH]; intros m gp g Hok; [now exists m|].
  cbn [map all_texts attr_fields].
  specialize (Hone m a gp g Hok).
  destruct (attr_text fuel h (slice_view m g) gp a) as [t|]; [|now rewrite Hone].
  destruct Hone as [m1 E1]. rewrite E1.
  pose proof (appendAttr_frame _ _ _ _ _ _ _ _ _ E1) as Hfr.
  pose proof (frame_slice_ok _ _ _ _ Hfr Hok) as Hok1.
  pose proof (frame_view _ _ _ Hfr Hok) as Hview.
  specialize (IH m1 gp g Hok1). rewrite Hview in IH.
  destruct (all_texts (map (attr_text fuel h (slice_view m g) gp) l)) as [ts|].
  - destruct IH as [m2 E2]. rewrite E2. now exists m2.
  - now rewrite IH.
Qed.

Lemma appendAttr_text (fuel : nat) (h : Handler) :
  forall m a gp g, slice_ok m g ->
    match attr_text fuel h (slice_view m g) gp a with
    | Some t => exists m', appendAttr fuel h m EmptyString a gp g = Some (m', t)
    | None => appendAttr fuel h m EmptyString a gp g = None
    end.
Proof.
  induction fuel as [|fuel IH]; intros m a gp g Hok; [reflexivity|].
  cbn [attr_text]. rewrite appendAttr_eq. cbv zeta.
  set (a' := rewritten h (slice_view m g) a).
  destruct (Attr_Equal_zero a'); [now exists m|].
  pose proof (attr_fields_texts_from fuel h IH) as Hl.
  destruct (Value_of a') as [ | | | | | | | | members | ] eqn:Ev;
    try (exists m; rewrite leaf_text; reflexivity).
  destruct (Key a' =? EmptyString)%string eqn:Ek; cbn [negb].
  - rewrite appendAttrs_fields. specialize (Hl members m gp g Hok).
    destruct (all_texts (map (attr_text fuel h (slice_view m g) gp) members)) as [ts|].
    + destruct Hl as [m' E]. rewrite E. now exists m'.
    + now rewrite Hl.
  - destruct (append1_view m g (Key a') Hok) as [Hv [_ Hok1]].
    destruct (append1 m g (Key a')) as [m1 g1]. cbn [fst snd] in Hv, Hok1.
    rewrite appendAttrs_fields.
    specialize (Hl members m1 (gp ++ Key a' ++ ".") g1 Hok1). rewrite Hv in Hl.
    destruct (all_texts (map (attr_text fuel h (slice_view m g ++ [Key a'])%list
                                        (gp ++ Key a' ++ ".")) members)) as [ts|].
    + destruct Hl as [m' E]. rewrite E. now exists m'.
    + now rewrite Hl.
Qed.

Lemma attr_fields_texts (fuel : nat) (h : Handler) (l : list Attr) (m : arrays)
      (gp : string) (g : slice) :
  slice_ok m g ->
  match attr_texts fuel h (slice_view m g) gp l with
  | Some texts => exists m', attr_fields fuel h m l gp g = Some (m', texts)
  | None => attr_fields fuel h m l gp g = None
  end.
Proof. apply attr_fields_texts_from. apply appendAttr_text. Qed.

(** C1.  [Handle] builds the line in the order time, level, source
    location, message, attribute prefix of the handler, attributes of the
    record in their order.  The first four are nothing, when they are not
    emitted, or their text followed by one space.  The text of an
    attribute is that of [attr_text]: its key under the names of its
    groups, the equals sign and its value, followed by one space; the
    texts of its members for a group; nothing for an attribute the hook
    has dropped.  A buffer that is empty is not written and [Handle]
    returns nil; otherwise the buffer ends in a space, which becomes a
    newline, and the line goes to the writer in one call, whose error is
    what [Handle] returns.  With no hook, or a hook that returns no group
    for an attribute that is not one, [Handle] returns on every record;
    when the rendering of an attribute does not return, [Handle] does
    not. *)
Theorem Handle_line (fuel : nat) (st : World) (hp : nat) (h : Handler) (wr : Writer)
        (r : Record_) :
  nth_error (handlers st) hp = Some h ->
  nth_error (writers st) (w h) = Some wr ->
  mu h = false ->
  prefix_ok h ->
  slice_ok (heap st) (groups h) ->
  (leaf_hook h -> (fuel_for (Record_Attrs r) <= fuel)%nat ->
   exists texts,
     attr_texts fuel h (slice_view (heap st) (groups h)) (groupPrefix h) (Record_Attrs r)
     = Some texts)
  /\ (attr_texts fuel h (slice_view (heap st) (groups h)) (groupPrefix h) (Record_Attrs r)
      = None ->
      Handle fuel st hp r = None)
  /\ (forall texts,
        attr_texts fuel h (slice_view (heap st) (groups h)) (groupPrefix h) (Record_Attrs r)
        = Some texts ->
        List.length texts = List.length (Record_Attrs r)
        /\ Forall field (time_field h r :: level_field h r :: source_field h r
                           :: message_field h r :: attrsPrefix h :: texts)
        /\ exists m,
            Handle_render fuel h (heap st) r = Some (m, line_buffer h r texts)
            /\ (line_buffer h r texts = EmptyString ->
                Handle fuel st hp r = Some (wrote_nothing st m, nil_error))
            /\ (line_buffer h r texts <> EmptyString ->
                exists line,
                  line_buffer h r texts = line ++ str1 space
                  /\ Handle fuel st hp r
                     = Some (wrote st hp h wr m (line ++ str1 newline),
                             write_result wr (line ++ str1 newline)))).
Proof.
  intros Hh Hw Hmu Hp Hok.
  pose proof (attr_fields_texts fuel h (Record_Attrs r) (heap st) (groupPrefix h)
                (groups h) Hok) as Href.
  split; [intros Hleaf Hf; now apply attr_texts_total|]. split.
  - intros E. rewrite E in Href. unfold Handle. rewrite Hh, Handle_render_eq, Href.
    reflexivity.
  - intros texts E. rewrite E in Href. destruct Href as [m Ef].
    assert (Hlen : List.length texts = List.length (Record_Attrs r)).
    { unfold attr_texts in E. rewrite (all_texts_length _ _ E). apply length_map. }
    assert (Hfields : Forall field texts).
    { unfold attr_texts in E.
      apply (all_texts_Forall field _ _ (fun x t _ => attr_text_field fuel h _ _ x t) _ E). }
    assert (Hall : Forall field (time_field h r :: level_field h r :: source_field h r
                                   :: message_field h r :: attrsPrefix h :: texts)).
    { apply Forall_cons; [apply time_field_field|].
      apply Forall_cons; [apply level_field_field|].
      apply Forall_cons; [apply source_field_field|].
      apply Forall_cons; [apply message_field_field|].
      apply Forall_cons; [exact Hp | exact Hfields]. }
    assert (Hr : Handle_render fuel h (heap st) r = Some (m, line_buffer h r texts)).
    { rewrite Handle_render_eq, Ef. reflexivity. }
    assert (Hbuf : field (line_buffer h r texts)).
    { unfold line_buffer.
      repeat apply field_app; auto using time_field_field, level_field_field,
        source_field_field, message_field_field, concat_strings_field. }
    split; [exact Hlen|]. split; [exact Hall|]. exists m. split; [exact Hr|]. split.
    + intros Hempty. unfold Handle. rewrite Hh, Hr.
      replace (len (line_buffer h r texts) =? 0) with true
        by (symmetry; now apply len_zero).
      reflexivity.
    + intros Hne. destruct (field_ends _ Hbuf Hne) as [line Eline].
      exists line. split; [exact Eline|].
      unfold Handle. rewrite Hh, Hr.
      destruct (len (line_buffer h r texts) =? 0) eqn:El;
        [apply len_zero in El; contradiction|].
      rewrite Hmu, Hw, Eline, set_last_snoc. reflexivity.
Qed.

Lemma Resolve_Resolve (v : Value) : Resolve (Resolve v) = Resolve v.
Proof.
  assert (Hloop : forall n orig x, Resolve (resolve_loop n orig x) = resolve_loop n orig x).
  { induction n as [|n IH]; intros orig x; cbn [resolve_loop]; [reflexivity|].
    destruct x; try reflexivity. apply IH. }
  destruct v; try reflexivity. unfold Resolve at 2. apply Hloop.
Qed.

(** The hook that returns what it is given is one of them. *)
Lemma leaf_hook_identity (h : Handler) :
  replaceAttr h = Some (fun _ a => a) -> leaf_hook h.
Proof.
  intros Hrep rep E gs a Hk. rewrite Hrep in E. apply some_eq in E. subst rep.
  unfold resolved, Value_of. cbn [snd]. now rewrite Resolve_Resolve.
Qed.

End HandleTheLine.

Lemma Handle_line_witness :
  nth_error (handlers (Demo.world_of Demo.keep_handler)) 0 = Some Demo.keep_handler
  /\ nth_error (writers (Demo.world_of Demo.keep_handler)) (w Demo.keep_handler)
     = Some Demo.sink
  /\ mu Demo.keep_handler = false
  /\ prefix_ok Demo.keep_handler
  /\ slice_ok (heap (Demo.world_of Demo.keep_handler)) (groups Demo.keep_handler)
  /\ leaf_hook Demo.keep_handler
  /\ exists texts,
       attr_texts (L := demo) 2 Demo.keep_handler [] EmptyString
                  [("addr", StringValue ":8080");
                   ("db", GroupValue [("rows", Int64Value 3)])]
       = Some texts.
Proof.
  assert (Hp : prefix_ok Demo.keep_handler) by (left; reflexivity).
  assert (Hok : slice_ok (heap (Demo.world_of Demo.keep_handler))
                         (groups Demo.keep_handler)).
  { split; [apply le_n|]. cbn. intros H0. inversion H0. }
  assert (Hleaf : leaf_hook Demo.keep_handler)
    by (apply (leaf_hook_identity (L := demo)); reflexivity).
  split; [reflexivity|]. split; [reflexivity|]. split; [reflexivity|].
  split; [exact Hp|]. split; [exact Hok|]. split; [exact Hleaf|].
  exact (proj1 (Handle_line (L := demo) 2 (Demo.world_of Demo.keep_handler) 0
                  Demo.keep_handler Demo.sink
                  (AddAttrs (NewRecord (L := demo) 5 slog.LevelInfo "Starting server" 0)
                            [("addr", StringValue ":8080");
                             ("db", GroupValue [("rows", Int64Value 3)])])
                  eq_refl eq_refl eq_refl Hp Hok) Hleaf (le_n 2)).
Defined.

(** The identity hook, a group among the attributes: the texts, and the
    line. *)
Example Handle_keep_scenario :
  attr_texts (L := demo) 2 Demo.keep_handler [] EmptyString
             [("addr", StringValue ":8080"); ("db", GroupValue [("rows", Int64Value 3)])]
  = Some ["addr=:8080 "; "db.rows=3 "]
  /\ Demo.output
       (Handle 2 (Demo.world_of Demo.keep_handler) 0
          (AddAttrs (NewRecord (L := demo) 5 slog.LevelInfo "Starting server" 0)
                    [("addr", StringValue ":8080");
                     ("db", GroupValue [("rows", Int64Value 3)])]))
     = Some ([EvLock 0;
              EvWrite 0 ("T5 INFO Starting server addr=:8080 db.rows=3" ++ str1 newline);
              EvUnlock 0], nil_error).
Proof. split; vm_compute; reflexivity. Qed.

(** * Quoting *)

Section QuotingClaim.

Context `{L : GoLib}.

Lemma appendValue_text (h : Handler) (buf : buffer) (v : Value) (s : string) (q : bool) :
  value_text v = Some s -> appendValue h buf v q = appendString buf s q.
Proof.
  intros Ev. destruct v as [s0|i|u|f|b|d|t|a|l|ty v]; try discriminate Ev;
    cbn [value_text] in Ev.
  - apply some_eq in Ev. now subst s0.
  - apply some_eq in Ev. now subst s.
  - apply some_eq in Ev. now subst s.
  - destruct a as [|lvl|msg|[data|e]|src|text]; try discriminate Ev;
      apply some_eq in Ev; now subst s.
Qed.


End QuotingClaim.

(** ** Binary64: how far the printed figure is from the elapsed time

    [SpecFloat] keeps 53 bits of a mantissa by shifting it right and
    rounding; the lemmas below give what the shift leaves, and from it how
    far the quotient of the nanoseconds by one million, printed with three
    decimals, can be from the exact quotient. *)

Section Accuracy.

Lemma shr_1_half (mrs : shr_record) :
  0 <= shr_m mrs -> shr_m (shr_1 mrs) = shr_m mrs / 2.
Proof.
  destruct mrs as [m r s]. cbn [shr_m]. intros Hm.
  destruct m as [|[p|p|]|p]; cbn [shr_1 shr_m]; try lia;
    try reflexivity; Z.div_mod_to_equations; lia.
Qed.

Lemma iter_shr_1_div (p : positive) :
  forall mrs, 0 <= shr_m mrs -> shr_m (iter_pos shr_1 p mrs) = shr_m mrs / 2 ^ Zpos p.
Proof.
  assert (Hnn : forall a k, 0 <= a -> 0 <= a / 2 ^ k).
  { intros a k Ha. destruct (Z.le_gt_cases 0 k) as [Hk|Hk].
    - apply Z.div_pos; [exact Ha | now apply Z.pow_pos_nonneg].
    - rewrite Z.pow_neg_r by exact Hk. now rewrite Z.div_0_r. }
  induction p as [p IH|p IH|]; intros mrs Hm; cbn [iter_pos].
  - pose proof (shr_1_half mrs Hm) as H1.
    assert (H1' : 0 <= shr_m (shr_1 mrs)) by (rewrite H1; apply Z.div_pos; lia).
    rewrite IH by (rewrite IH by exact H1'; now apply Hnn).
    rewrite IH by exact H1'. rewrite H1.
    rewrite !Z.div_div by (try apply Z.pow_pos_nonneg; lia).
    f_equal. rewrite Pos2Z.inj_xI. rewrite <- Z.pow_add_r by lia.
    rewrite <- (Z.pow_1_r 2) at 1. rewrite <- Z.pow_add_r by lia. f_equal. lia.
  - rewrite IH by (rewrite IH by exact Hm; now apply Hnn).
    rewrite IH by exact Hm.
    rewrite !Z.div_div by (try apply Z.pow_pos_nonneg; lia).
    f_equal. rewrite Pos2Z.inj_xO. rewrite <- Z.pow_add_r by lia. f_equal. lia.
  - rewrite shr_1_half by exact Hm. reflexivity.
Qed.

Lemma shr_fexp_div (m e : Z) (l : location) (mrs : shr_record) (e' : Z) :
  0 <= m -> -1074 <= e ->
  shr_fexp 53 1024 m e l = (mrs, e') ->
  e' = e + Z.max 0 (Zdigits2 m - 53)
  /\ shr_m mrs = m / 2 ^ Z.max 0 (Zdigits2 m - 53).
Proof.
  intros Hm He. unfold shr_fexp, shr, fexp, emin.
  destruct (Z.max (Zdigits2 m + e - 53) (3 - 1024 - 53) - e) as [|p|p] eqn:En; intros E;
    injection E as E1 E2; subst mrs e'.
  - rewrite shr_m_of_loc. replace (Z.max 0 (Zdigits2 m - 53)) with 0 by lia.
    rewrite Z.div_1_r. lia.
  - rewrite iter_shr_1_div by (now rewrite shr_m_of_loc). rewrite shr_m_of_loc.
    replace (Z.max 0 (Zdigits2 m - 53)) with (Zpos p) by lia. lia.
  - rewrite shr_m_of_loc. replace (Z.max 0 (Zdigits2 m - 53)) with 0 by lia.
    rewrite Z.div_1_r. lia.
Qed.

Lemma Zdigits2_bounds (m : Z) :
  0 < m -> 2 ^ (Zdigits2 m - 1) <= m < 2 ^ Zdigits2 m.
Proof.
  intros Hm. destruct m as [|p|p]; try lia.
  rewrite Zdigits2_log2. pose proof (Z.log2_spec (Zpos p) Hm) as Hs.
  replace (Z.log2 (Zpos p) + 1 - 1) with (Z.log2 (Zpos p)) by lia.
  replace (Z.log2 (Zpos p) + 1) with (Z.succ (Z.log2 (Zpos p))) by lia. exact Hs.
Qed.

Lemma Zdigits2_unique (m d : Z) :
  0 < d -> 2 ^ (d - 1) <= m < 2 ^ d -> Zdigits2 m = d.
Proof.
  intros Hd Hb.
  assert (Hm : 0 < m).
  { pose proof (Z.pow_pos_nonneg 2 (d - 1) ltac:(lia) ltac:(lia)). lia. }
  destruct m as [|p|p]; try lia.
  rewrite Zdigits2_log2.
  rewrite (Z.log2_unique (Zpos p) (d - 1)); [lia | lia |].
  replace (Z.succ (d - 1)) with d by lia. exact Hb.
Qed.

Lemma Zdigits2_div_pow2 (m k : Z) :
  0 < m -> 0 <= k < Zdigits2 m -> Zdigits2 (m / 2 ^ k) = Zdigits2 m - k.
Proof.
  intros Hm Hk. pose proof (Zdigits2_bounds m Hm) as Hb.
  set (d := Zdigits2 m) in *.
  assert (H2k : 0 < 2 ^ k) by (apply Z.pow_pos_nonneg; lia).
  apply Zdigits2_unique; [lia|]. split.
  - apply Z.div_le_lower_bound; [exact H2k|].
    rewrite <- Z.pow_add_r by lia. replace (k + (d - k - 1)) with (d - 1) by lia. lia.
  - apply Z.div_lt_upper_bound; [exact H2k|].
    rewrite <- Z.pow_add_r by lia. replace (k + (d - k)) with d by lia. lia.
Qed.

Lemma binary_round_aux_exact (sx : bool) (p : positive) (e : Z) :
  Zdigits2 (Zpos p) = 53 -> -1074 <= e <= 971 ->
  binary_round_aux 53 1024 sx (Zpos p) e loc_Exact = S754_finite sx p e.
Proof.
  intros Hd He. unfold binary_round_aux, shr_fexp, shr, fexp, emin.
  rewrite Hd.
  replace (Z.max (53 + e - 53) (3 - 1024 - 53) - e) with 0 by lia.
  cbn [shr_record_of_loc shr_m loc_of_shr_record round_nearest_even].
  rewrite Hd.
  replace (Z.max (53 + e - 53) (3 - 1024 - 53) - e) with 0 by lia.
  cbn [shr_record_of_loc shr_m].
  replace (e <=? 1024 - 53) with true by (symmetry; apply Z.leb_le; lia).
  reflexivity.
Qed.

(** Rounding: the mantissa the float keeps is the one it was given,
    shifted, or the next one. *)
Lemma binary_round_aux_near (sx : bool) (m e : Z) (l : location) :
  0 < m -> 53 <= Zdigits2 m -> -1074 <= e -> e + (Zdigits2 m - 53) + 1 <= 971 ->
  exists M K,
    binary_round_aux 53 1024 sx m e l = S754_finite sx M (e + K)
    /\ 0 <= K <= Zdigits2 m - 53 + 1
    /\ (Zpos M - 1) * 2 ^ K <= m < (Zpos M + 1) * 2 ^ K
    /\ 2 ^ 52 <= Zpos M < 2 ^ 53.
Proof.
  intros Hm Hd He Hfit. unfold binary_round_aux.
  destruct (shr_fexp 53 1024 m e l) as [mrs1 e1] eqn:E1.
  destruct (shr_fexp_div _ _ _ _ _ (Z.lt_le_incl _ _ Hm) He E1) as [He1 Hm1].
  set (k := Z.max 0 (Zdigits2 m - 53)) in *.
  assert (Hk : k = Zdigits2 m - 53) by (unfold k; lia).
  clearbody k.
  assert (H2k : 0 < 2 ^ k) by (apply Z.pow_pos_nonneg; lia).
  set (m' := shr_m mrs1) in *.
  assert (Hd' : Zdigits2 m' = 53).
  { rewrite Hm1, Zdigits2_div_pow2 by lia. lia. }
  assert (Hm'b : 2 ^ 52 <= m' < 2 ^ 53).
  { assert (Hpos : 0 < m').
    { rewrite Hm1. apply Z.div_str_pos. split; [exact H2k|].
      pose proof (Zdigits2_bounds m Hm) as Hb.
      apply Z.le_trans with (2 ^ (Zdigits2 m - 1)); [|lia].
      apply Z.pow_le_mono_r; lia. }
    pose proof (Zdigits2_bounds m' Hpos) as Hb. rewrite Hd' in Hb. exact Hb. }
  assert (Hdiv : m' * 2 ^ k <= m < (m' + 1) * 2 ^ k).
  { rewrite Hm1. pose proof (Z.mul_div_le m (2 ^ k) H2k).
    pose proof (Z.mul_succ_div_gt m (2 ^ k) H2k). lia. }
  pose proof (round_nearest_even_bounds m' (loc_of_shr_record mrs1)) as Hr.
  set (m1 := round_nearest_even m' (loc_of_shr_record mrs1)) in *.
  destruct (shr_fexp 53 1024 m1 e1 loc_Exact) as [mrs2 e2] eqn:E2.
  assert (Hm1pos : 0 <= m1) by lia.
  assert (He1low : -1074 <= e1) by lia.
  destruct (shr_fexp_div _ _ _ _ _ Hm1pos He1low E2) as [He2 Hm2].
  destruct (Z.eq_dec m1 (2 ^ 53)) as [Htop|Htop].
  - assert (Hd1 : Zdigits2 m1 = 54) by (rewrite Htop; reflexivity).
    rewrite Hd1 in He2, Hm2. change (Z.max 0 (54 - 53)) with 1 in He2, Hm2.
    rewrite Htop in Hm2. change (2 ^ 53 / 2 ^ 1) with (2 ^ 52) in Hm2.
    rewrite Hm2. change (2 ^ 52) with (Zpos (Z.to_pos (2 ^ 52))).
    replace (e2 <=? 1024 - 53) with true by (symmetry; apply Z.leb_le; lia).
    exists (Z.to_pos (2 ^ 52)), (k + 1). split; [f_equal; lia|].
    split; [lia|]. split; [|split; [now vm_compute | reflexivity]].
    change (Zpos (Z.to_pos (2 ^ 52))) with (2 ^ 52).
    rewrite Z.pow_add_r by lia. change (2 ^ 1) with 2.
    assert (Hm'e : m' = 2 ^ 53 - 1) by lia. rewrite Hm'e in Hdiv. nia.
  - assert (Hb1 : 2 ^ 52 <= m1 < 2 ^ 53) by lia.
    assert (Hd1 : Zdigits2 m1 = 53) by (apply Zdigits2_unique; [lia | exact Hb1]).
    rewrite Hd1 in He2, Hm2. change (Z.max 0 (53 - 53)) with 0 in He2, Hm2.
    rewrite Z.div_1_r in Hm2. rewrite Hm2.
    destruct m1 as [|M|M] eqn:Em1; try lia.
    replace (e2 <=? 1024 - 53) with true by (symmetry; apply Z.leb_le; lia).
    exists M, k. split; [f_equal; lia|]. split; [lia|]. split; [nia | exact Hb1].
Qed.



Lemma iter_xO_value (d m : positive) :
  Zpos (Pos.iter xO m d) = Zpos m * 2 ^ Zpos d.
Proof.
  induction d as [|d IH] using Pos.peano_ind.
  - simpl. lia.
  - rewrite Pos.iter_succ, Pos2Z.inj_xO, IH, Pos2Z.inj_succ, Z.pow_succ_r by lia. lia.
Qed.

Lemma int_to_float (sx : bool) (p : positive) :
  Zpos p <= 2 ^ 63 ->
  exists M E,
    binary_round 53 1024 sx p 0 = S754_finite sx M E
    /\ 2 ^ 52 <= Zpos M < 2 ^ 53
    /\ -52 <= E <= 12
    /\ (E <= 0 -> Zpos M = Zpos p * 2 ^ (- E))
    /\ (0 < E -> (Zpos M - 1) * 2 ^ E <= Zpos p < (Zpos M + 1) * 2 ^ E).
Proof.
  intros Hp. unfold binary_round.
  pose proof (Zdigits2_bounds (Zpos p) ltac:(lia)) as Hb.
  cbn [Zdigits2] in Hb. set (d := Zpos (digits2_pos p)) in *.
  assert (Hd : 1 <= d <= 64).
  { split; [unfold d; lia|].
    destruct (Z.le_gt_cases d 64) as [H|H]; [exact H|].
    assert (2 ^ 64 <= 2 ^ (d - 1)) by (apply Z.pow_le_mono_r; lia). lia. }
  replace (fexp 53 1024 (d + 0)) with (d - 53) by (unfold fexp, emin; lia).
  unfold shl_align.
  destruct (d - 53 - 0) as [|dd|dd] eqn:Ed.
  - assert (Hd53 : Zdigits2 (Zpos p) = 53) by (cbn [Zdigits2]; fold d; lia).
    rewrite binary_round_aux_exact by (try exact Hd53; lia).
    exists p, 0. split; [reflexivity|].
    replace d with 53 in Hb by lia. split; [exact Hb|]. split; [lia|].
    split; [intros _; cbn; lia | lia].
  - assert (Hge : 2 ^ 53 <= Zpos p).
    { apply Z.le_trans with (2 ^ (d - 1)); [apply Z.pow_le_mono_r; lia | lia]. }
    destruct (binary_round_aux_near sx (Zpos p) 0 loc_Exact ltac:(lia)
                ltac:(cbn [Zdigits2]; fold d; lia) ltac:(lia)
                ltac:(cbn [Zdigits2]; fold d; lia)) as [M [K [E [HK [Hnear HM]]]]].
    cbn [Zdigits2] in HK. fold d in HK.
    exists M, K. rewrite E. split; [reflexivity|]. split; [exact HM|].
    assert (HK0 : 0 < K).
    { destruct (Z.eq_dec K 0) as [E0|E0]; [|lia]. subst K. cbn in Hnear. lia. }
    split; [lia|]. split; [lia | intros _; exact Hnear].
  - assert (Hdd : Zpos dd = 53 - d) by lia.
    assert (Hd53 : Zdigits2 (Zpos (Pos.iter xO p dd)) = 53).
    { cbn [Zdigits2]. rewrite digits2_iter_xO. fold d. lia. }
    rewrite binary_round_aux_exact by (try exact Hd53; lia).
    exists (Pos.iter xO p dd), (d - 53). split; [reflexivity|].
    pose proof (Zdigits2_bounds (Zpos (Pos.iter xO p dd)) ltac:(lia)) as Hb2.
    rewrite Hd53 in Hb2. split; [exact Hb2|]. split; [lia|].
    split; [|lia]. intros _. rewrite iter_xO_value. f_equal. f_equal. lia.
Qed.

Lemma div_million (sx : bool) (Mx : positive) (Ex : Z) :
  2 ^ 52 <= Zpos Mx < 2 ^ 53 -> -52 <= Ex <= 12 ->
  exists M K,
    SFdiv 53 1024 (S754_finite sx Mx Ex) (S754_finite false 8589934592000000 (-33))
    = S754_finite sx M (Ex - 20 + K)
    /\ 0 <= K <= 2
    /\ (Zpos M - 1) * 2 ^ K * 10 ^ 6 <= Zpos Mx * 2 ^ 20 < (Zpos M + 1) * 2 ^ K * 10 ^ 6
    /\ 2 ^ 52 <= Zpos M.
Proof.
  intros HMx HEx. cbn [SFdiv]. unfold SFdiv_core_binary.
  assert (Hdx : Zdigits2 (Zpos Mx) = 53) by (apply Zdigits2_unique; [lia | exact HMx]).
  rewrite Hdx. change (Zdigits2 8589934592000000) with 53.
  replace (Z.min (fexp 53 1024 (53 + Ex - (53 + -33))) (Ex - -33)) with (Ex - 20)
    by (unfold fexp, emin; lia).
  replace (Ex - -33 - (Ex - 20)) with 53 by lia.
  cbv iota beta. rewrite Z.shiftl_mul_pow2 by lia.
  pose proof (Z_div_mod (Zpos Mx * 2 ^ 53) 8589934592000000 ltac:(lia)) as Hdiv.
  destruct (Z.div_eucl (Zpos Mx * 2 ^ 53) 8589934592000000) as [q r].
  destruct Hdiv as [Hq Hr].
  assert (Hqb : 2 ^ 52 <= q < 2 ^ 54).
  { change (2 ^ 52) with 4503599627370496 in *.
    change (2 ^ 53) with 9007199254740992 in *.
    change (2 ^ 54) with 18014398509481984. nia. }
  assert (Hdq : 53 <= Zdigits2 q <= 54).
  { destruct (Z.lt_ge_cases q (2 ^ 53)) as [H|H].
    - rewrite (Zdigits2_unique q 53); lia.
    - rewrite (Zdigits2_unique q 54); lia. }
  destruct (binary_round_aux_near (xorb sx false) q (Ex - 20)
              (new_location 8589934592000000 r) ltac:(lia) ltac:(lia) ltac:(lia)
              ltac:(lia)) as [M [K [E [HK [Hnear HM]]]]].
  exists M, K. rewrite E. rewrite Bool.xorb_false_r.
  split; [reflexivity|]. split; [lia|]. split; [|lia].
  assert (H2K : 0 < 2 ^ K) by (apply Z.pow_pos_nonneg; lia).
  change (2 ^ 53) with (2 ^ 20 * 8589934592) in Hq.
  change (10 ^ 6) with 1000000.
  set (T := 2 ^ K) in *. set (A := Zpos Mx * 2 ^ 20).
  assert (HA : A * 8589934592 = 8589934592000000 * q + r) by (unfold A; lia).
  clearbody A T. nia.
Qed.

Lemma round_half_even_near (num den : Z) :
  0 < den ->
  - den <= 2 * (round_half_even num den * den - num) <= den.
Proof.
  intros Hd. unfold round_half_even.
  pose proof (Z.div_mod num den ltac:(lia)) as Hdm.
  pose proof (Z.mod_pos_bound num den Hd) as Hr.
  destruct (2 * (num mod den) <? den) eqn:E1.
  - apply Z.ltb_lt in E1. nia.
  - apply Z.ltb_ge in E1. destruct (den <? 2 * (num mod den)) eqn:E2.
    + apply Z.ltb_lt in E2. nia.
    + apply Z.ltb_ge in E2. destruct (Z.even (num / den)); nia.
Qed.


Lemma figure_bound (n M T D A X : Z) :
  0 < D -> 0 < T -> 2 ^ 52 <= M ->
  - D <= 2 * (n * D - 1000 * M) <= D ->
  (M - 1) * T * 10 ^ 6 <= A < (M + 1) * T * 10 ^ 6 ->
  A = X * (D * T) ->
  (2 ^ 52 - 1) * (Z.abs (1000 * n - X) - 500) <= X.
Proof.
  change (2 ^ 52) with 4503599627370496. change (10 ^ 6) with 1000000.
  intros HD HT HM Hr Hq HA.
  set (F := D * T) in *.
  assert (HF : 0 < F) by (unfold F; nia).
  assert (H1 : - (500 * F) <= 1000 * n * F - 1000000 * (M * T) <= 500 * F).
  { unfold F. nia. }
  assert (H2 : - (1000000 * T) <= X * F - 1000000 * (M * T) < 1000000 * T) by nia.
  assert (H3 : 4503599627370495 * (1000000 * T) <= X * F) by nia.
  set (a := Z.abs (1000 * n - X)).
  assert (H4 : a * F <= 500 * F + 1000000 * T).
  { unfold a. destruct (Z.abs_spec (1000 * n - X)) as [[_ ->]|[_ ->]]; nia. }
  assert (H5 : (a - 500) * F <= 1000000 * T) by nia.
  assert (H6 : 4503599627370495 * (a - 500) * F <= X * F) by nia.
  apply Z.mul_le_mono_pos_r with F; [exact HF | exact H6].
Qed.

Lemma figure_bound_rounded (a aX X U p : Z) :
  0 < p -> 0 < U ->
  (2 ^ 52 - 1) * (aX - 500) <= X ->
  a <= aX + U ->
  Z.abs (X - p) <= U ->
  2 ^ 52 * U <= X ->
  2 ^ 50 * (a - 500) <= p.
Proof.
  change (2 ^ 52) with 4503599627370496. change (2 ^ 50) with 1125899906842624.
  intros Hp HU H1 H2 H3 H4.
  destruct (Z.le_gt_cases a 500) as [Hs|Hs]; [nia|].
  assert (HX : X <= p + U) by lia.
  assert (H5 : 4503599627370495 * (a - 500) <= 2 * X) by nia.
  assert (H6 : 4503599627370495 * X <= 4503599627370496 * p) by nia.
  nia.
Qed.

Lemma elapsed_figure (sx : bool) (p : positive) :
  Zpos p <= 2 ^ 63 ->
  exists M E,
    float64_div (binary_round 53 1024 sx p 0) (S754_finite false 8589934592000000 (-33))
    = S754_finite sx M E
    /\ E < 0
    /\ 0 <= round_half_even (Zpos M * 1000) (2 ^ (- E))
    /\ 2 ^ 50 * (Z.abs (1000 * round_half_even (Zpos M * 1000) (2 ^ (- E)) - Zpos p) - 500)
       <= Zpos p.
Proof.
  intros Hp.
  destruct (int_to_float sx p Hp) as [Mx [Ex [Ex_eq [HMx [HEx [Hexact Hnear]]]]]].
  destruct (div_million sx Mx Ex HMx HEx) as [M [K [Ediv [HK [Hq HM]]]]].
  exists M, (Ex - 20 + K). unfold float64_div. rewrite Ex_eq, Ediv.
  split; [reflexivity|]. split; [lia|].
  set (D := 2 ^ (- (Ex - 20 + K))).
  assert (HD : 0 < D) by (apply Z.pow_pos_nonneg; lia).
  assert (HT : 0 < 2 ^ K) by (apply Z.pow_pos_nonneg; lia).
  split; [apply round_half_even_nonneg; lia|].
  pose proof (round_half_even_near (Zpos M * 1000) D HD) as Hr.
  set (n := round_half_even (Zpos M * 1000) D) in *.
  assert (Hr' : - D <= 2 * (n * D - 1000 * Zpos M) <= D) by lia.
  assert (HF : D * 2 ^ K = 2 ^ (20 - Ex)).
  { unfold D. rewrite <- Z.pow_add_r by lia. f_equal. lia. }
  destruct (Z.le_gt_cases Ex 0) as [Hle|Hgt].
  - assert (HA : Zpos Mx * 2 ^ 20 = Zpos p * (D * 2 ^ K)).
    { rewrite HF, (Hexact Hle).
      replace (20 - Ex) with (- Ex + 20) by lia. rewrite Z.pow_add_r by lia. lia. }
    pose proof (figure_bound n (Zpos M) (2 ^ K) D (Zpos Mx * 2 ^ 20) (Zpos p)
                  HD HT HM Hr' Hq HA) as Hb.
    change (2 ^ 52) with 4503599627370496 in Hb.
    change (2 ^ 50) with 1125899906842624.
    destruct (Z.le_gt_cases (Z.abs (1000 * n - Zpos p)) 500); nia.
  - specialize (Hnear Hgt).
    assert (HU : 0 < 2 ^ Ex) by (apply Z.pow_pos_nonneg; lia).
    assert (HA : Zpos Mx * 2 ^ 20 = (Zpos Mx * 2 ^ Ex) * (D * 2 ^ K)).
    { rewrite HF. rewrite <- Z.mul_assoc, <- Z.pow_add_r by lia.
      f_equal. f_equal. lia. }
    pose proof (figure_bound n (Zpos M) (2 ^ K) D (Zpos Mx * 2 ^ 20) (Zpos Mx * 2 ^ Ex)
                  HD HT HM Hr' Hq HA) as Hb.
    apply (figure_bound_rounded (Z.abs (1000 * n - Zpos p))
             (Z.abs (1000 * n - Zpos Mx * 2 ^ Ex)) (Zpos Mx * 2 ^ Ex) (2 ^ Ex) (Zpos p));
      try lia.
    nia.
Qed.

End Accuracy.

(** * [Trace]: the record *)

Lemma three_decimals_value (n : Z) :
  0 <= n ->
  exists whole d1 d2 d3 : Z,
    0 <= whole /\ 0 <= d1 <= 9 /\ 0 <= d2 <= 9 /\ 0 <= d3 <= 9
    /\ strconv.Itoa (n / 1000) ++ "." ++ pad3 (n mod 1000)
       = decimal whole ++ "." ++ decimal d1 ++ decimal d2 ++ decimal d3
    /\ 1000 * whole + 100 * d1 + 10 * d2 + d3 = n.
Proof.
  intros Hn. pose proof (Z.mod_pos_bound n 1000 ltac:(lia)) as Hf.
  pose proof (Z.div_mod n 1000 ltac:(lia)) as Hdm.
  set (f := n mod 1000) in *.
  exists (n / 1000), (f / 100), ((f / 10) mod 10), (f mod 10).
  assert (H1 : 0 <= n / 1000) by (apply Z.div_pos; lia).
  assert (H2 : 0 <= f / 100 <= 9).
  { split; [apply Z.div_pos; lia|].
    pose proof (Z.div_lt_upper_bound f 100 10 ltac:(lia) ltac:(lia)). lia. }
  assert (H3 : 0 <= (f / 10) mod 10 <= 9)
    by (pose proof (Z.mod_pos_bound (f / 10) 10 ltac:(lia)); lia).
  assert (H4 : 0 <= f mod 10 <= 9)
    by (pose proof (Z.mod_pos_bound f 10 ltac:(lia)); lia).
  repeat (split; [assumption|]). split.
  - unfold pad3. rewrite Itoa_nonneg by exact H1.
    rewrite !digit_decimal by assumption. reflexivity.
  - pose proof (Z.div_mod f 10 ltac:(lia)).
    pose proof (Z.div_mod (f / 10) 10 ltac:(lia)).
    assert (f / 10 / 10 = f / 100) by (rewrite Z.div_div by lia; reflexivity).
    lia.
Qed.

(** What [%.3fms] prints for the nanoseconds divided by one million is
    the figure of the elapsed time, for every 64-bit count. *)
Lemma Sprintf_3fms_figure (ns : Z) : in_int64 ns -> milliseconds_of ns (Sprintf_3fms ns).
Proof.
  unfold in_int64, min_int64, max_int64. intros Hns.
  assert (E6 : float64_of_int 1000000 = S754_finite false 8589934592000000 (-33))
    by (vm_compute; reflexivity).
  assert (Hgen : forall sx p, Zpos p <= 2 ^ 63 ->
            exists whole d1 d2 d3 : Z,
              0 <= whole /\ 0 <= d1 <= 9 /\ 0 <= d2 <= 9 /\ 0 <= d3 <= 9
              /\ Sprintf_f3 (float64_div (binary_round 53 1024 sx p 0)
                                         (float64_of_int 1000000)) ++ "ms"
                 = (if sx then "-" else EmptyString) ++ decimal whole ++ "."
                     ++ decimal d1 ++ decimal d2 ++ decimal d3 ++ "ms"
              /\ 2 ^ 50 * (Z.abs (1000 * (1000 * whole + 100 * d1 + 10 * d2 + d3)
                                  - Zpos p) - 500) <= Zpos p).
  { intros sx p Hp. rewrite E6.
    destruct (elapsed_figure sx p Hp) as [M [E [Eq [HE [Hn Hb]]]]].
    unfold float64_div in *. rewrite Eq. cbn [Sprintf_f3].
    replace (0 <=? E) with false by (symmetry; apply Z.leb_gt; exact HE).
    set (n := round_half_even (Zpos M * 1000) (2 ^ (- E))) in *.
    destruct (three_decimals_value n Hn) as [whole [d1 [d2 [d3 [Hw [H1 [H2 [H3 [Et Ev]]]]]]]]].
    exists whole, d1, d2, d3. repeat (split; [assumption|]). split.
    - rewrite !sapp_assoc. f_equal. rewrite <- !sapp_assoc.
      rewrite (sapp_assoc (strconv.Itoa (n / 1000))), Et. now rewrite !sapp_assoc.
    - now rewrite Ev. }
  unfold Sprintf_3fms, milliseconds_of.
  destruct ns as [|p|p].
  - exists 0, 0, 0, 0. repeat (split; [lia|]). split; [reflexivity | cbn; lia].
  - destruct (Hgen false p ltac:(lia)) as [whole [d1 [d2 [d3 H]]]].
    exists whole, d1, d2, d3. exact H.
  - destruct (Hgen true p ltac:(lia)) as [whole [d1 [d2 [d3 H]]]].
    exists whole, d1, d2, d3. exact H.
Qed.

(** ** The figure needs no quotes *)

Lemma bytes_app (a b : string) : bytes (a ++ b) = (bytes a ++ bytes b)%list.
Proof.
  unfold bytes. induction a as [|c a IH]; [reflexivity|].
  cbn [String.append list_ascii_of_string map app]. f_equal. exact IH.
Qed.

Lemma DecodeRune_ascii (c : byte) (s : string) :
  Z_of_byte c < 0x80 -> utf8.DecodeRuneInString (String c s) = (Z_of_byte c, 1%nat).
Proof.
  intros Hc. unfold utf8.DecodeRuneInString. cbn [String.length Nat.ltb Nat.leb].
  unfold at_. cbn [String.get]. unfold utf8.first.
  replace (Z_of_byte c <? 128) with true by (symmetry; apply Z.ltb_lt; exact Hc).
  reflexivity.
Qed.

Lemma range_runes_ascii (s : string) :
  (forall b, In b (bytes s) -> b < 0x80) -> range_runes s = bytes s.
Proof.
  unfold range_runes. induction s as [|c s IH]; intros Hall; [reflexivity|].
  cbn [range_from]. rewrite DecodeRune_ascii by (apply Hall; now left).
  cbn [Nat.pred]. unfold bytes. cbn [list_ascii_of_string map]. f_equal.
  apply IH. intros b Hb. apply Hall. now right.
Qed.

Section FigureQuoting.

Context `{L : GoLib}.

(** A string of printable ASCII without the space, the double quote and
    the equals sign is written as it is. *)
Lemma needsQuoting_plain (s : string) :
  s <> EmptyString ->
  (forall b, In b (bytes s) -> 0x21 <= b <= 0x7E /\ b <> 0x22 /\ b <> 0x3D) ->
  needsQuoting s = false.
Proof.
  intros Hne Hall. unfold needsQuoting.
  destruct (len s =? 0) eqn:El; [apply len_zero in El; contradiction|].
  rewrite range_runes_ascii by (intros b Hb; destruct (Hall b Hb); lia).
  destruct (existsb _ (bytes s)) eqn:Ex; [|reflexivity].
  apply existsb_exists in Ex. destruct Ex as [r [Hin Hr]].
  destruct (Hall r Hin) as [Hb [Hq He]]. exfalso.
  change (Z_of_byte dquote) with 34 in Hr. change (Z_of_byte "="%char) with 61 in Hr.
  unfold unicode.IsSpace, unicode.IsPrint, unicode.MaxLatin1 in Hr.
  replace ((0 <=? r) && (r <=? 255)) with true in Hr
    by (symmetry; apply andb_true_iff; split; apply Z.leb_le; lia).
  replace ((32 <=? r) && (r <=? 126)) with true in Hr
    by (symmetry; apply andb_true_iff; split; apply Z.leb_le; lia).
  cbn [orb negb] in Hr.
  rewrite !orb_false_r in Hr.
  repeat (apply orb_true_iff in Hr; destruct Hr as [Hr|Hr]);
    apply Z.eqb_eq in Hr; lia.
Qed.

End FigureQuoting.

Lemma uint_bytes (d : Decimal.uint) :
  forall b, In b (bytes (NilEmpty.string_of_uint d)) -> 0x30 <= b <= 0x39.
Proof.
  induction d as [|d IH|d IH|d IH|d IH|d IH|d IH|d IH|d IH|d IH|d IH];
    cbn [NilEmpty.string_of_uint]; unfold bytes; cbn [list_ascii_of_string map];
    intros b Hb; try contradiction;
    (destruct Hb as [<-|Hb]; [vm_compute; split; discriminate | now apply IH]).
Qed.

Lemma decimal_bytes (n b : Z) : In b (bytes (decimal n)) -> 0x30 <= b <= 0x39.
Proof.
  unfold decimal, NilZero.string_of_uint.
  destruct (N.to_uint (Z.to_N n)) eqn:Eu; try (rewrite <- Eu; apply uint_bytes).
  unfold bytes. cbn. intros [<-|[]]. vm_compute. split; discriminate.
Qed.

Lemma milliseconds_plain (ns : Z) (text : string) :
  milliseconds_of ns text ->
  text <> EmptyString
  /\ forall b, In b (bytes text) -> 0x21 <= b <= 0x7E /\ b <> 0x22 /\ b <> 0x3D.
Proof.
  intros [whole [d1 [d2 [d3 [_ [_ [_ [_ [-> _]]]]]]]]]. split.
  - intros E. repeat (apply sapp_eq_nil in E; destruct E as [_ E]). discriminate E.
  - intros b Hb. rewrite !bytes_app in Hb.
    repeat (apply in_app_or in Hb; destruct Hb as [Hb|Hb]).
    + destruct (ns <? 0); [|contradiction]. destruct Hb as [<-|[]].
      vm_compute. repeat split; discriminate.
    + apply decimal_bytes in Hb. lia.
    + destruct Hb as [<-|[]]. vm_compute. repeat split; discriminate.
    + apply decimal_bytes in Hb. lia.
    + apply decimal_bytes in Hb. lia.
    + apply decimal_bytes in Hb. lia.
    + destruct Hb as [<-|[<-|[]]]; vm_compute; repeat split; discriminate.
Qed.

Section TraceRecord.

Context `{L : GoLib}.

(** C6.  A call of [Trace] that passes the gate, on [Handler] and on
    [Logger], hands [Handle] the record of [trace_record]: it carries the
    error wrapped as the attribute [err] when the error is not nil, then
    the attribute [time] and the attribute [sql].  The text of [time] is
    the figure of the elapsed time in milliseconds with three decimals:
    read in microseconds, it is the elapsed nanoseconds divided by 1000
    and rounded.  The text of [sql] is [-] when the row count is -1 and
    the SQL text otherwise.  The field [time] is written as the figure,
    without quotes; the field [sql] is written as its text under the
    string rule, and [-] is written as it is. *)
Theorem Trace_record_contents (fuel : nat) (st : World) (hp : nat) (h : Handler)
        (lg : Logger) (now : Time) (pc elapsed : Z) (sql : string) (rows : Z)
        (err : error) (m : arrays) (buf : buffer) (gp : string) (g : slice) :
  nth_error (handlers st) hp = Some h ->
  Logger_Handler lg = hp ->
  Enabled h slog.LevelInfo = true ->
  in_int64 elapsed ->
  hook_keeps h (slice_view m g) ("sql", StringValue (if rows =? -1 then "-" else sql)) ->
  exists text,
    milliseconds_of elapsed text
    /\ Handler_Trace fuel st hp now pc elapsed (sql, rows) err
       = option_map fst (Handle fuel st hp (trace_record now pc text sql rows err))
    /\ Logger_Trace fuel st lg now pc elapsed (sql, rows) err
       = option_map fst (Handle fuel st hp (trace_record now pc text sql rows err))
    /\ (forall msg, err = Some msg ->
        Record_Attrs (trace_record now pc text sql rows err)
        = [Err (Some msg); ("time", StringValue text);
           ("sql", StringValue (if rows =? -1 then "-" else sql))])
    /\ (err = None ->
        Record_Attrs (trace_record now pc text sql rows err)
        = [("time", StringValue text);
           ("sql", StringValue (if rows =? -1 then "-" else sql))])
    /\ (hook_keeps h (slice_view m g) ("time", StringValue text) ->
        appendAttr (S fuel) h m buf ("time", StringValue text) gp g
        = Some (m, appendKey h buf "time" gp ++ text ++ str1 space))
    /\ appendAttr (S fuel) h m buf ("sql", StringValue (if rows =? -1 then "-" else sql)) gp g
       = Some (m, appendString (appendKey h buf "sql" gp)
                               (if rows =? -1 then "-" else sql) true ++ str1 space)
    /\ (rows = -1 ->
        appendString (appendKey h buf "sql" gp) (if rows =? -1 then "-" else sql) true
        = appendKey h buf "sql" gp ++ "-").
Proof.
  intros Hh Hlg Hen Hns Hkeep.
  exists (Sprintf_3fms elapsed).
  pose proof (Sprintf_3fms_figure elapsed Hns) as Hfig.
  assert (Hrec : forall hp', hp' = hp ->
            match nth_error (handlers st) hp' with
            | Some h0 =>
                if Enabled h0 slog.LevelInfo then
                  option_map fst
                    (Handle fuel st hp'
                       (let r := NewRecord now slog.LevelInfo EmptyString pc in
                        let r := match err with
                                 | Some _ => AddAttrs r [Err err]
                                 | None => r
                                 end in
                        if rows =? -1 then
                          AddAttrs r [slog_String "time" (Sprintf_3fms elapsed);
                                      slog_String "sql" "-"]
                        else
                          AddAttrs r [slog_String "time" (Sprintf_3fms elapsed);
                                      slog_String "sql" sql]))
                else Some st
            | None => None
            end
            = option_map fst
                (Handle fuel st hp
                   (trace_record now pc (Sprintf_3fms elapsed) sql rows err))).
  { intros hp' ->. rewrite Hh, Hen. unfold trace_record, trace_attrs.
    destruct err as [msg|]; destruct (rows =? -1); reflexivity. }
  split; [exact Hfig|].
  split; [|split; [|split; [|split; [|split; [|split]]]]].
  - unfold Handler_Trace. rewrite <- (Hrec hp eq_refl).
    destruct (nth_error (handlers st) hp) as [h0|]; [|reflexivity].
    destruct (Enabled h0 slog.LevelInfo); [|reflexivity].
    destruct (rows =? -1); reflexivity.
  - unfold Logger_Trace. rewrite <- (Hrec (Logger_Handler lg) Hlg).
    destruct (nth_error (handlers st) (Logger_Handler lg)) as [h0|]; [|reflexivity].
    destruct (Enabled h0 slog.LevelInfo); [|reflexivity].
    destruct (rows =? -1); reflexivity.
  - intros msg ->. reflexivity.
  - intros ->. reflexivity.
  - intros Hkt. rewrite appendAttr_eq. cbv zeta.
    rewrite (rewritten_kept_string _ _ _ _ Hkt).
    destruct (milliseconds_plain _ _ Hfig) as [Hne Hplain].
    cbn [Attr_Equal_zero Key Value_of fst snd andb]. unfold Attr_Equal_zero.
    cbn [Key Value_of fst snd]. rewrite Bool.andb_false_r.
    unfold leaf. cbn [Value_Any Value_of Key fst snd appendValue].
    unfold appendString. rewrite (needsQuoting_plain _ Hne Hplain).
    cbn [andb]. unfold WriteString, WriteByte. now rewrite !sapp_assoc.
  - rewrite appendAttr_eq. cbv zeta. rewrite (rewritten_kept_string _ _ _ _ Hkeep).
    reflexivity.
  - intros ->. reflexivity.
Qed.

End TraceRecord.

Lemma Trace_record_contents_witness :
  nth_error (handlers (Demo.world_of Demo.plain_handler)) 0 = Some Demo.plain_handler
  /\ Logger_Handler (mkLogger 0 0) = 0%nat
  /\ Enabled (L := demo) Demo.plain_handler slog.LevelInfo = true
  /\ in_int64 12345000
  /\ hook_keeps (L := demo) Demo.plain_handler [] ("sql", StringValue "SELECT 1")
  /\ exists text, milliseconds_of 12345000 text.
Proof.
  assert (Hns : in_int64 12345000) by (unfold in_int64, min_int64, max_int64; lia).
  split; [reflexivity|]. split; [reflexivity|]. split; [reflexivity|].
  split; [exact Hns|]. split; [exact I|].
  destruct (Trace_record_contents (L := demo) 0 (Demo.world_of Demo.plain_handler) 0
              Demo.plain_handler (mkLogger 0 0) 5 0 12345000 "SELECT 1" 3 nil_error
              [] EmptyString EmptyString nil_slice
              eq_refl eq_refl eq_refl Hns I) as [text [Hfig _]].
  now exists text.
Defined.

(** Three figures: 12,345,000 ns; 500 ns, where the quotient 0.0005 is
    not a binary fraction and the nearest float lies above it; 62,500 ns,
    where 0.0625 is one and the tie goes to the even digit. *)
Example Sprintf_3fms_examples :
  Sprintf_3fms 12345000 = "12.345ms"
  /\ Sprintf_3fms 500 = "0.001ms"
  /\ Sprintf_3fms 62500 = "0.062ms"
  /\ Sprintf_3fms (-1500000) = "-1.500ms"
  /\ Sprintf_3fms 0 = "0.000ms".
Proof. repeat split; vm_compute; reflexivity. Qed.

(** * Derived handlers and the lines they write *)

Section Laws.

Context `{L : GoLib}.

(** ** The formatter reads four fields of the handler *)

Lemma appendAttrs_ext (fuel : nat) (h h' : Handler) :
  (forall m buf a gp g, appendAttr fuel h m buf a gp g = appendAttr fuel h' m buf a gp g) ->
  forall l m buf gp g, appendAttrs fuel h m buf l gp g = appendAttrs fuel h' m buf l gp g.
Proof.
  intros Hone l. induction l as [|a l IH]; intros m buf gp g; [reflexivity|].
  rewrite !appendAttrs_cons, Hone.
  destruct (appendAttr fuel h' m buf a gp g) as [[m' buf']|]; [apply IH | reflexivity].
Qed.

Lemma appendAttr_style (fuel : nat) (h : Handler) :
  forall m buf a gp g,
    appendAttr fuel (style_of h) m buf a gp g = appendAttr fuel h m buf a gp g.
Proof.
  induction fuel as [|fuel IH]; intros m buf a gp g; [reflexivity|].
  rewrite !appendAttr_eq.
  change (rewritten (style_of h) (slice_view m g) a) with (rewritten h (slice_view m g) a).
  cbv zeta.
  destruct (Attr_Equal_zero (rewritten h (slice_view m g) a)); [reflexivity|].
  destruct (Value_of (rewritten h (slice_view m g) a)); try reflexivity.
  destruct (negb (Key (rewritten h (slice_view m g) a) =? EmptyString)%string).
  - destruct (append1 m g (Key (rewritten h (slice_view m g) a))) as [m' g'].
    now apply appendAttrs_ext.
  - now apply appendAttrs_ext.
Qed.

Lemma appendAttrs_style (fuel : nat) (h : Handler) (l : list Attr) (m : arrays)
      (buf : buffer) (gp : string) (g : slice) :
  appendAttrs fuel (style_of h) m buf l gp g = appendAttrs fuel h m buf l gp g.
Proof. apply appendAttrs_ext. apply appendAttr_style. Qed.

Lemma appendAttrs_same_style (fuel : nat) (h h' : Handler) (l : list Attr) (m : arrays)
      (buf : buffer) (gp : string) (g : slice) :
  style_of h = style_of h' ->
  appendAttrs fuel h m buf l gp g = appendAttrs fuel h' m buf l gp g.
Proof.
  intros E. rewrite <- (appendAttrs_style fuel h), <- (appendAttrs_style fuel h'), E.
  reflexivity.
Qed.

(** [Handle_render] as one walk of the attributes behind the text of the
    fields and of the prefix. *)
Lemma Handle_render_walk (fuel : nat) (h : Handler) (m : arrays) (r : Record_) :
  Handle_render fuel h m r
  = appendAttrs fuel h m
      (time_field h r ++ level_field h r ++ source_field h r ++ message_field h r
         ++ attrsPrefix h)
      (Record_Attrs r) (groupPrefix h) (groups h).
Proof.
  unfold Handle_render. cbv zeta.
  rewrite time_step, level_step, source_step, message_step, prefix_step.
  unfold newBuffer. cbn [String.append]. now rewrite !sapp_assoc.
Qed.

Lemma fields_style (h : Handler) (r : Record_) :
  time_field h r = time_field (style_of h) r
  /\ level_field h r = level_field (style_of h) r
  /\ source_field h r = source_field (style_of h) r
  /\ message_field h r = message_field (style_of h) r.
Proof. repeat split; reflexivity. Qed.

Lemma fields_same_style (h h' : Handler) (r : Record_) :
  style_of h = style_of h' ->
  time_field h r ++ level_field h r ++ source_field h r ++ message_field h r
  = time_field h' r ++ level_field h' r ++ source_field h' r ++ message_field h' r.
Proof.
  intros E.
  destruct (fields_style h r) as [-> [-> [-> ->]]].
  destruct (fields_style h' r) as [-> [-> [-> ->]]].
  now rewrite E.
Qed.

Lemma clone_style (h : Handler) : style_of (clone h) = style_of h.
Proof. reflexivity. Qed.

Lemma appendAttrs_concat (fuel : nat) (h : Handler) (l1 l2 : list Attr) :
  forall m buf gp g,
    appendAttrs fuel h m buf (l1 ++ l2) gp g
    = match appendAttrs fuel h m buf l1 gp g with
      | Some (m', buf') => appendAttrs fuel h m' buf' l2 gp g
      | None => None
      end.
Proof.
  induction l1 as [|a l1 IH]; intros m buf gp g; [reflexivity|].
  cbn [app]. rewrite !appendAttrs_cons.
  destruct (appendAttr fuel h m buf a gp g) as [[m' buf']|]; [apply IH | reflexivity].
Qed.

(** What [Handle] does with a buffer that has been rendered. *)
Lemma Handle_of_render (fuel : nat) (st : World) (hp : nat) (h : Handler) (r : Record_) :
  nth_error (handlers st) hp = Some h ->
  mu h = false ->
  outcome (w h) (Handle fuel st hp r)
  = match Handle_render fuel h (heap st) r with
    | None => None
    | Some (m, buf) =>
        if len buf =? 0 then
          Some (option_map written (nth_error (writers st) (w h)), nil_error)
        else
          match nth_error (writers st) (w h) with
          | None => None
          | Some wr =>
              Some (Some (written wr ++ [set_last buf newline])%list,
                    write_result wr (set_last buf newline))
          end
    end.
Proof.
  intros Hh Hmu. unfold Handle. rewrite Hh.
  destruct (Handle_render fuel h (heap st) r) as [[m buf]|]; [|reflexivity].
  destruct (len buf =? 0); [reflexivity|].
  rewrite Hmu.
  destruct (nth_error (writers st) (w h)) as [wr|] eqn:Ew; [|reflexivity].
  unfold io_Write, outcome. cbn [option_map fst snd writers].
  assert (Hlt : (w h < List.length (writers st))%nat)
    by (apply nth_error_Some; congruence).
  rewrite (nth_error_nth' _ wr) by now rewrite list_set_length.
  rewrite nth_list_set_eq by exact Hlt. reflexivity.
Qed.

Lemma nth_error_snoc {A : Type} (l : list A) (x : A) :
  nth_error (l ++ [x]) (List.length l) = Some x.
Proof. rewrite nth_error_app2 by lia. now rewrite Nat.sub_diag. Qed.

(** X1. A record handled by the handler that [WithAttrs] derived is
    rendered as the parent renders the record with the attributes of the
    derivation put before its own: the same buffer and the same heap.
    With the mutex of the parent free, the writer then holds the same
    lines and the call returns the same error. *)
Theorem WithAttrs_then_Handle (fuel : nat) (st st' : World) (hp hp' : nat) (h : Handler)
        (attrs : list Attr) (r : Record_) :
  attrs <> [] ->
  nth_error (handlers st) hp = Some h ->
  WithAttrs fuel st hp attrs = Some (st', hp') ->
  exists d,
    nth_error (handlers st') hp' = Some d
    /\ Handle_render fuel d (heap st') r
       = Handle_render fuel h (heap st) (with_attrs_first attrs r)
    /\ (mu h = false ->
        outcome (w h) (Handle fuel st' hp' r)
        = outcome (w h) (Handle fuel st hp (with_attrs_first attrs r))).
Proof.
  intros Hne Hh E. unfold WithAttrs in E.
  destruct attrs as [|a0 attrs0]; [contradiction|]. set (attrs := a0 :: attrs0) in *.
  cbn [List.length Nat.eqb] in E. rewrite Hh in E.
  destruct (appendAttrs fuel h (heap st) newBuffer attrs (groupPrefix h) (groups h))
    as [[m buf]|] eqn:Ea; [|discriminate].
  some_pair E as [Est Ehp]. subst st' hp'.
  set (d := set_attrsPrefix (clone h) (attrsPrefix h ++ buf)).
  exists d. cbn [handlers heap writers].
  assert (Hr : Handle_render fuel d m r
               = Handle_render fuel h (heap st) (with_attrs_first attrs r)).
  { rewrite !Handle_render_walk.
    cbn [with_attrs_first Record_Attrs].
    rewrite appendAttrs_concat.
    rewrite (appendAttrs_app fuel h attrs). unfold newBuffer in Ea. rewrite Ea.
    cbn [behind].
    change (time_field h (with_attrs_first attrs r)) with (time_field h r).
    change (level_field h (with_attrs_first attrs r)) with (level_field h r).
    change (source_field h (with_attrs_first attrs r)) with (source_field h r).
    change (message_field h (with_attrs_first attrs r)) with (message_field h r).
    rewrite (appendAttrs_same_style fuel d h) by reflexivity.
    cbn [d set_attrsPrefix clone attrsPrefix groupPrefix groups].
    f_equal. now rewrite <- !sapp_assoc. }
  split; [apply nth_error_snoc|]. split; [exact Hr|].
  intros Hmu.
  rewrite (Handle_of_render fuel st hp h) by assumption.
  change (w h) with (w d) at 1.
  rewrite (Handle_of_render fuel _ (List.length (handlers st)) d)
    by (try apply nth_error_snoc; reflexivity).
  cbn [heap writers]. rewrite Hr. reflexivity.
Qed.

(** X2. A record handled by the handler that [WithGroup] derived is
    rendered as the parent renders the record whose one attribute is the
    group of that name with the attributes of the record as members: the
    same buffer and the same heap.  With the mutex of the parent free, the
    writer then holds the same lines and the call returns the same
    error. *)
Theorem WithGroup_then_Handle (fuel : nat) (st st' : World) (hp hp' : nat) (h : Handler)
        (name : string) (r : Record_) :
  name <> EmptyString ->
  nth_error (handlers st) hp = Some h ->
  WithGroup st hp name = Some (st', hp') ->
  exists d,
    nth_error (handlers st') hp' = Some d
    /\ Handle_render fuel d (heap st') r
       = Handle_render (S fuel) h (heap st) (in_group name r)
    /\ (mu h = false ->
        outcome (w h) (Handle fuel st' hp' r)
        = outcome (w h) (Handle (S fuel) st hp (in_group name r))).
Proof.
  intros Hne Hh E. unfold WithGroup in E.
  destruct (String.eqb_spec name EmptyString) as [|_]; [contradiction|].
  rewrite Hh in E.
  destruct (append1 (heap st) (groups (set_groupPrefix (clone h)
              (groupPrefix (clone h) ++ name ++ "."))) name) as [m g] eqn:Ea.
  some_pair E as [Est Ehp]. subst st' hp'.
  set (d := set_groups (set_groupPrefix (clone h) (groupPrefix (clone h) ++ name ++ ".")) g).
  exists d. cbn [handlers heap writers].
  assert (Hr : Handle_render fuel d m r
               = Handle_render (S fuel) h (heap st) (in_group name r)).
  { rewrite !Handle_render_walk.
    cbn [in_group Record_Attrs].
    cbn [appendAttrs]. rewrite appendAttr_eq.
    assert (Hrw : rewritten h (slice_view (heap st) (groups h))
                            (name, GroupValue (Record_Attrs r))
                  = (name, GroupValue (Record_Attrs r))).
    { unfold rewritten, resolved. cbn. now destruct (replaceAttr h). }
    rewrite Hrw. cbv zeta.
    unfold Attr_Equal_zero. cbn [Key Value_of fst snd].
    rewrite Bool.andb_false_r.
    destruct (String.eqb_spec name EmptyString) as [|_]; [contradiction|].
    cbn [negb].
    change (groups (set_groupPrefix (clone h) (groupPrefix (clone h) ++ name ++ ".")))
      with (groups h) in Ea.
    rewrite Ea.
    change (time_field h (in_group name r)) with (time_field h r).
    change (level_field h (in_group name r)) with (level_field h r).
    change (source_field h (in_group name r)) with (source_field h r).
    change (message_field h (in_group name r)) with (message_field h r).
    rewrite (appendAttrs_same_style fuel d h) by reflexivity.
    cbn [d set_groups set_groupPrefix clone attrsPrefix groupPrefix groups].
    change (time_field d r) with (time_field h r).
    change (level_field d r) with (level_field h r).
    change (source_field d r) with (source_field h r).
    change (message_field d r) with (message_field h r).
    destruct (appendAttrs fuel h m _ (Record_Attrs r) (groupPrefix h ++ name ++ ".") g)
      as [[m' buf']|]; reflexivity. }
  split; [apply nth_error_snoc|]. split; [exact Hr|].
  intros Hmu.
  rewrite (Handle_of_render (S fuel) st hp h) by assumption.
  change (w h) with (w d) at 1.
  rewrite (Handle_of_render fuel _ (List.length (handlers st)) d)
    by (try apply nth_error_snoc; reflexivity).
  cbn [heap writers]. rewrite Hr. reflexivity.
Qed.

End Laws.

Lemma WithAttrs_then_Handle_witness :
  [("request", Int64Value (L := demo) 7)] <> []
  /\ nth_error (handlers (Demo.world_of Demo.plain_handler)) 0 = Some Demo.plain_handler
  /\ WithAttrs (L := demo) 1 (Demo.world_of Demo.plain_handler) 0 [("request", Int64Value 7)]
     = Some (fst Demo2.with_request, snd Demo2.with_request)
  /\ exists d,
       nth_error (handlers (fst Demo2.with_request)) (snd Demo2.with_request) = Some d
       /\ Handle_render 1 d (heap (fst Demo2.with_request)) Demo2.rows_record
          = Handle_render 1 Demo.plain_handler (heap (Demo.world_of Demo.plain_handler))
                          (with_attrs_first [("request", Int64Value 7)] Demo2.rows_record).
Proof.
  split; [discriminate|]. split; [reflexivity|]. split; [reflexivity|].
  destruct (WithAttrs_then_Handle (L := demo) 1 (Demo.world_of Demo.plain_handler)
              (fst Demo2.with_request) 0 (snd Demo2.with_request) Demo.plain_handler
              [("request", Int64Value 7)] Demo2.rows_record
              ltac:(discriminate) eq_refl eq_refl) as [d [Hd [Hr _]]].
  exists d. split; assumption.
Defined.

Lemma WithGroup_then_Handle_witness :
  "db"%string <> EmptyString
  /\ nth_error (handlers (Demo.world_of Demo.plain_handler)) 0 = Some Demo.plain_handler
  /\ WithGroup (L := demo) (Demo.world_of Demo.plain_handler) 0 "db"
     = Some (fst Demo2.under_db, snd Demo2.under_db)
  /\ exists d,
       nth_error (handlers (fst Demo2.under_db)) (snd Demo2.under_db) = Some d
       /\ Handle_render 1 d (heap (fst Demo2.under_db)) Demo2.rows_record
          = Handle_render 2 Demo.plain_handler (heap (Demo.world_of Demo.plain_handler))
                          (in_group "db" Demo2.rows_record).
Proof.
  split; [discriminate|]. split; [reflexivity|]. split; [reflexivity|].
  destruct (WithGroup_then_Handle (L := demo) 1 (Demo.world_of Demo.plain_handler)
              (fst Demo2.under_db) 0 (snd Demo2.under_db) Demo.plain_handler
              "db" Demo2.rows_record
              ltac:(discriminate) eq_refl eq_refl) as [d [Hd [Hr _]]].
  exists d. split; assumption.
Defined.

(** The two derivations at work: the attribute of the derivation stands
    before those of the record, and the group name before their keys. *)
Example derived_lines :
  Demo.output (Handle (L := demo) 1 (fst Demo2.with_request) (snd Demo2.with_request)
                      Demo2.rows_record)
  = Some ([EvLock 1; EvWrite 0 ("T5 INFO query request=7 rows=3" ++ str1 newline);
           EvUnlock 1], nil_error)
  /\ Demo.output (Handle (L := demo) 1 (fst Demo2.under_db) (snd Demo2.under_db)
                         Demo2.rows_record)
     = Some ([EvLock 1; EvWrite 0 ("T5 INFO query db.rows=3" ++ str1 newline);
              EvUnlock 1], nil_error).
Proof. split; vm_compute; reflexivity. Qed.

(** * Hooks that return groups, and [Log] *)

Section Never.

Context `{L : GoLib}.

Lemma appendAttrs_stuck (fuel : nat) (h : Handler) (x : Attr) (l : list Attr) :
  In x l ->
  (forall m buf gp g, appendAttr fuel h m buf x gp g = None) ->
  forall m buf gp g, appendAttrs fuel h m buf l gp g = None.
Proof.
  intros Hin Hx. induction l as [|a l IH]; intros m buf gp g; [contradiction|].
  rewrite appendAttrs_cons. destruct Hin as [->|Hin].
  - now rewrite Hx.
  - destruct (appendAttr fuel h m buf a gp g) as [[m' buf']|]; [now apply IH | reflexivity].
Qed.

Lemma appendAttr_expanding (h : Handler) (rep : ReplaceAttrFn) :
  replaceAttr h = Some rep ->
  expanding_hook rep ->
  forall fuel a, Value_Kind (Resolve (Value_of a)) <> slog.KindGroup ->
  forall m buf gp g, appendAttr fuel h m buf a gp g = None.
Proof.
  intros Hrep Hex. induction fuel as [|fuel IH]; intros a Hk m buf gp g; [reflexivity|].
  rewrite appendAttr_eq.
  assert (Hrw : rewritten h (slice_view m g) a
                = resolved (rep (slice_view m g) (resolved a))).
  { unfold rewritten. rewrite Hrep.
    change (Value_of (resolved a)) with (Resolve (Value_of a)).
    destruct (Resolve (Value_of a)); try reflexivity. now contradiction Hk. }
  rewrite Hrw. cbv zeta.
  destruct (Hex (slice_view m g) (resolved a)) as [members [x [Eg [Hin Hx]]]].
  rewrite Attr_Equal_zero_resolved, Eg, Bool.andb_false_r.
  change (Value_of (resolved (rep (slice_view m g) (resolved a))))
    with (Resolve (Value_of (rep (slice_view m g) (resolved a)))).
  rewrite Eg.
  destruct (negb (Key (resolved (rep (slice_view m g) (resolved a))) =? EmptyString)%string).
  - destruct (append1 m g (Key (resolved (rep (slice_view m g) (resolved a))))) as [m' g'].
    apply (appendAttrs_stuck fuel h x); [exact Hin|]. now apply IH.
  - apply (appendAttrs_stuck fuel h x); [exact Hin|]. now apply IH.
Qed.

(** X3. With a rewrite hook that turns every attribute into a group
    holding a member that is not a group, [appendAttr] does not return on
    an attribute that is not a group, whatever the depth allowed to the
    recursion: the hook is applied to the member, which becomes a group
    again.  [Handle] then does not return on a record that has such an
    attribute, nor [WithAttrs] on a list that has one. *)
Theorem expanding_hook_never_returns (fuel : nat) (st : World) (hp : nat) (h : Handler)
        (rep : ReplaceAttrFn) (a : Attr) :
  nth_error (handlers st) hp = Some h ->
  replaceAttr h = Some rep ->
  expanding_hook rep ->
  Value_Kind (Resolve (Value_of a)) <> slog.KindGroup ->
  (forall m buf gp g, appendAttr fuel h m buf a gp g = None)
  /\ (forall r, In a (Record_Attrs r) -> Handle fuel st hp r = None)
  /\ (forall attrs, In a attrs -> WithAttrs fuel st hp attrs = None).
Proof.
  intros Hh Hrep Hex Hk.
  assert (Hone : forall m buf gp g, appendAttr fuel h m buf a gp g = None)
    by (intros; now apply (appendAttr_expanding h rep)).
  split; [exact Hone|]. split.
  - intros r Hin. unfold Handle. rewrite Hh, Handle_render_walk.
    now rewrite (appendAttrs_stuck fuel h a).
  - intros attrs Hin. unfold WithAttrs.
    destruct attrs as [|a0 attrs0] eqn:El; [contradiction|]. rewrite <- El in *.
    replace (List.length attrs =? 0)%nat with false by (now rewrite El).
    rewrite Hh. now rewrite (appendAttrs_stuck fuel h a).
Qed.

End Never.

Lemma expanding_hook_never_returns_witness :
  nth_error (handlers (Demo.world_of Demo2.wrap_handler)) 0 = Some Demo2.wrap_handler
  /\ replaceAttr Demo2.wrap_handler = Some Demo2.wrap
  /\ expanding_hook (L := demo) Demo2.wrap
  /\ Value_Kind (Resolve (Value_of ("user", StringValue (L := demo) "ann")))
     <> slog.KindGroup
  /\ Handle (L := demo) 1000 (Demo.world_of Demo2.wrap_handler) 0
            (AddAttrs (NewRecord (L := demo) 5 slog.LevelInfo "m" 0)
                      [("user", StringValue "ann")])
     = None.
Proof.
  assert (Hex : expanding_hook (L := demo) Demo2.wrap).
  { intros gs a. exists [("x", Int64Value 1)], ("x", Int64Value 1).
    split; [reflexivity|]. split; [now left | discriminate]. }
  assert (Hk : Value_Kind (Resolve (Value_of ("user", StringValue (L := demo) "ann")))
               <> slog.KindGroup) by discriminate.
  split; [reflexivity|]. split; [reflexivity|]. split; [exact Hex|]. split; [exact Hk|].
  apply (proj1 (proj2 (expanding_hook_never_returns (L := demo) 1000
                         (Demo.world_of Demo2.wrap_handler) 0 Demo2.wrap_handler Demo2.wrap
                         ("user", StringValue "ann") eq_refl eq_refl Hex Hk))).
  now left.
Defined.

Section LogMethod.

Context `{L : GoLib}.

Lemma fuel_for_filter (f : Attr -> bool) (l : list Attr) :
  (fuel_for (filter f l) <= fuel_for l)%nat.
Proof.
  unfold fuel_for, list_max. apply le_n_S.
  induction l as [|a l IH]; [apply le_n|].
  cbn [filter]. destruct (f a); cbn [map fold_right]; lia.
Qed.

(** A call of [Handle] whose buffer is not empty writes it as one line. *)
Lemma Handle_writes (fuel : nat) (st : World) (hp : nat) (h : Handler) (wr : Writer)
      (r : Record_) (m : arrays) (text : string) :
  nth_error (handlers st) hp = Some h ->
  nth_error (writers st) (w h) = Some wr ->
  mu h = false ->
  Handle_render fuel h (heap st) r = Some (m, text ++ str1 space) ->
  Handle fuel st hp r
  = Some (wrote st hp h wr m (text ++ str1 newline), write_result wr (text ++ str1 newline)).
Proof.
  intros Hh Hw Hmu Hr. unfold Handle. rewrite Hh, Hr.
  destruct (len (text ++ str1 space) =? 0) eqn:El.
  - apply len_zero in El. apply sapp_eq_nil in El. destruct El as [_ El]. discriminate El.
  - rewrite Hmu, Hw, set_last_snoc. reflexivity.
Qed.

(** Without a hook every record gives a line: the level is always there. *)
Lemma hookless_line (fuel : nat) (h : Handler) (m : arrays) (r : Record_) :
  replaceAttr h = None ->
  prefix_ok h ->
  (fuel_for (Record_Attrs r) <= fuel)%nat ->
  exists m' text, Handle_render fuel h m r = Some (m', text ++ str1 space).
Proof.
  intros Hrep Hp Hf.
  assert (Hflat : flat_hook h) by (intros rep E; congruence).
  destruct (attr_fields_total h fuel (Record_Attrs r) m (groupPrefix h) (groups h) Hflat Hf)
    as [m' [texts E]].
  destruct (attr_fields_shape _ _ _ _ _ _ _ _ E) as [_ Hfields].
  rewrite Handle_render_eq, E. exists m'.
  assert (Hbuf : field (time_field h r ++ level_field h r ++ source_field h r
                          ++ message_field h r ++ attrsPrefix h ++ concat_strings texts)).
  { repeat apply field_app; auto using time_field_field, level_field_field,
      source_field_field, message_field_field, concat_strings_field. }
  assert (Hne : time_field h r ++ level_field h r ++ source_field h r
                  ++ message_field h r ++ attrsPrefix h ++ concat_strings texts
                <> EmptyString).
  { intros E0. apply sapp_eq_nil in E0. destruct E0 as [_ E0].
    apply sapp_eq_nil in E0. destruct E0 as [E0 _].
    unfold level_field in E0. rewrite Hrep in E0.
    apply sapp_eq_nil in E0. destruct E0 as [_ E0]. discriminate E0. }
  destruct (field_ends _ Hbuf Hne) as [text Et].
  exists text. now rewrite Et.
Qed.

(** X4. [Log] does not consult the minimum level of the handler: on a
    handler without hook it writes one line for every call, at any kratos
    level and whatever the level of the handler, and returns the answer
    of the writer; [Info], on a handler whose level is above Info, writes
    nothing.  A kratos level outside the five known ones leaves the
    key-values out: the record handled is the zero record. *)
Theorem Log_ignores_level (fuel : nat) (st : World) (hp : nat) (h : Handler) (wr : Writer)
        (lvl : Z) (now t0 : Time) (pc : Z) (keyvals : list GoArg) (s : string) :
  nth_error (handlers st) hp = Some h ->
  nth_error (writers st) (w h) = Some wr ->
  mu h = false ->
  replaceAttr h = None ->
  prefix_ok h ->
  (fuel_for (argsToAttrs keyvals) <= fuel)%nat ->
  (exists m line,
      Handler_Log fuel st hp lvl now t0 pc keyvals
      = Some (wrote st hp h wr m (line ++ str1 newline),
              write_result wr (line ++ str1 newline)))
  /\ (Enabled h slog.LevelInfo = false -> Handler_Info fuel st hp now pc s keyvals = Some st)
  /\ (lvl < kratos.LevelDebug \/ kratos.LevelFatal < lvl ->
      Handler_Log fuel st hp lvl now t0 pc keyvals = Handle fuel st hp (zero_Record t0)).
Proof.
  intros Hh Hw Hmu Hrep Hp Hf.
  assert (Hany : forall r, (fuel_for (Record_Attrs r) <= fuel)%nat ->
            exists m line,
              Handle fuel st hp r
              = Some (wrote st hp h wr m (line ++ str1 newline),
                      write_result wr (line ++ str1 newline))).
  { intros r Hr. destruct (hookless_line fuel h (heap st) r Hrep Hp Hr) as [m [text E]].
    exists m, text. now apply Handle_writes. }
  assert (Hadd : forall r0, Record_Attrs r0 = [] ->
            (fuel_for (Record_Attrs (Add r0 keyvals)) <= fuel)%nat).
  { intros r0 E0. unfold Add, AddAttrs. cbn [Record_Attrs]. rewrite E0. cbn [app].
    eapply Nat.le_trans; [apply fuel_for_filter | exact Hf]. }
  assert (Hzero : (fuel_for (Record_Attrs (zero_Record t0)) <= fuel)%nat).
  { eapply Nat.le_trans; [|exact Hf]. unfold fuel_for. cbn. lia. }
  split; [|split].
  - unfold Handler_Log. cbv zeta.
    repeat match goal with |- context [if ?c then _ else _] => destruct c end;
      apply Hany; try (apply Hadd; reflexivity); exact Hzero.
  - intros Hoff. unfold Handler_Info. now rewrite Hh, Hoff.
  - intros Hout. unfold Handler_Log, kratos.LevelDebug, kratos.LevelInfo, kratos.LevelWarn,
      kratos.LevelError, kratos.LevelFatal in *. cbv zeta.
    repeat match goal with
           | |- context [?a =? ?b] => destruct (Z.eqb_spec a b); [lia|]
           end.
    reflexivity.
Qed.

End LogMethod.

Lemma Log_ignores_level_witness :
  nth_error (handlers (Demo.world_of Demo2.error_handler)) 0 = Some Demo2.error_handler
  /\ nth_error (writers (Demo.world_of Demo2.error_handler)) (w Demo2.error_handler)
     = Some Demo.sink
  /\ mu Demo2.error_handler = false
  /\ replaceAttr Demo2.error_handler = None
  /\ prefix_ok Demo2.error_handler
  /\ (fuel_for (argsToAttrs (L := demo) [GString "k"; GString "v"]) <= 1)%nat
  /\ exists m line,
       Handler_Log (L := demo) 1 (Demo.world_of Demo2.error_handler) 0 kratos.LevelDebug
                   5 0 0 [GString "k"; GString "v"]
       = Some (wrote (Demo.world_of Demo2.error_handler) 0 Demo2.error_handler Demo.sink m
                     (line ++ str1 newline),
               write_result Demo.sink (line ++ str1 newline)).
Proof.
  assert (Hp : prefix_ok Demo2.error_handler) by (left; reflexivity).
  split; [reflexivity|]. split; [reflexivity|]. split; [reflexivity|].
  split; [reflexivity|]. split; [exact Hp|]. split; [apply le_n|].
  exact (proj1 (Log_ignores_level (L := demo) 1 (Demo.world_of Demo2.error_handler) 0
                  Demo2.error_handler Demo.sink kratos.LevelDebug 5 0 0
                  [GString "k"; GString "v"] "text"
                  eq_refl eq_refl eq_refl eq_refl Hp (le_n 1))).
Defined.

(** A handler whose minimum level is Error: [Log] at the kratos level
    Debug writes a line, [Info] none, and a level [Log] does not know
    gives a line without the key-values. *)
Example Log_scenarios :
  Demo.output (Handler_Log (L := demo) 1 (Demo.world_of Demo2.error_handler) 0
                           kratos.LevelDebug 5 0 0 [GString "k"; GString "v"])
  = Some ([EvLock 0; EvWrite 0 ("T5 DEBUG  k=v" ++ str1 newline); EvUnlock 0], nil_error)
  /\ option_map events
       (Handler_Info (L := demo) 1 (Demo.world_of Demo2.error_handler) 0 5 0 "text" [])
     = Some []
  /\ Demo.output (Handler_Log (L := demo) 1 (Demo.world_of Demo2.error_handler) 0
                              7 5 0 0 [GString "k"; GString "v"])
     = Some ([EvLock 0; EvWrite 0 ("INFO " ++ str1 newline); EvUnlock 0], nil_error).
Proof. repeat split; vm_compute; reflexivity. Qed.

(** * No control character comes out of [appendString] *)

Ltac case_ifs_eqn :=
  repeat match goal with
         | |- context [if ?c then _ else _] => let E := fresh "E" in destruct c eqn:E
         end.

Lemma at_S (c : byte) (s : string) (i : nat) : at_ (String c s) (S i) = at_ s i.
Proof. reflexivity. Qed.

Lemma first_cases (b : Z) :
  In (utf8.first b)
     [utf8.as_; utf8.xx; utf8.s1; utf8.s2; utf8.s3; utf8.s4; utf8.s5; utf8.s6; utf8.s7].
Proof. unfold utf8.first. case_ifs_eqn; cbn; tauto. Qed.

Lemma Decode_continuation (s : string) (r : Z) (w : nat) :
  utf8.DecodeRuneInString s = (r, w) ->
  forall i, (1 <= i < w)%nat -> 0x80 <= at_ s i.
Proof.
  unfold utf8.DecodeRuneInString. cbv zeta.
  pose proof (first_cases (at_ s 0)) as Hx.
  set (x := utf8.first (at_ s 0)) in *. clearbody x.
  cbn [In] in Hx.
  repeat (destruct Hx as [<-|Hx]); try contradiction;
    cbn -[Nat.ltb at_ Z.ltb Z.lor Z.land Z.shiftl];
    case_ifs_eqn; intros Eq; apply pair_equal_spec in Eq; destruct Eq as [_ Ew];
    subst w; intros i Hi; try lia;
    repeat match goal with
           | H : (_ || _) = false |- _ => apply orb_false_iff in H; destruct H
           | H : (_ <? _) = false |- _ => apply Z.ltb_ge in H
           end;
    assert (Hcase : i = 1%nat \/ i = 2%nat \/ i = 3%nat) by lia;
    destruct Hcase as [-> | [-> | ->]]; try lia;
    cbn -[at_] in *; unfold utf8.locb, utf8.hicb in *; try discriminate; try lia.
Qed.

Lemma bytes_cons (c : byte) (s : string) : bytes (String c s) = Z_of_byte c :: bytes s.
Proof. reflexivity. Qed.

Lemma bytes_range (s : string) (b : Z) : In b (bytes s) -> 0 <= b < 256.
Proof.
  unfold bytes. intros Hb. apply in_map_iff in Hb. destruct Hb as [c [<- _]].
  apply Z_of_byte_range.
Qed.

(** A [range] loop over a string meets every ASCII byte of it as a rune:
    the bytes it skips are the continuation bytes of the rune before. *)
Lemma ascii_bytes_are_runes (s : string) :
  forall skip, high_prefix skip s ->
  forall b, In b (bytes s) -> b < 0x80 -> In b (range_from skip s).
Proof.
  induction s as [|c s IH]; intros skip Hp b Hb Hlt; [contradiction|].
  rewrite bytes_cons in Hb. destruct skip as [|k]; cbn [range_from].
  - destruct (utf8.DecodeRuneInString (String c s)) as [r w] eqn:Ed.
    destruct Hb as [<-|Hb].
    + rewrite DecodeRune_ascii in Ed by exact Hlt.
      apply pair_equal_spec in Ed. destruct Ed as [<- _]. now left.
    + right. apply IH; try assumption. intros i Hi. rewrite <- (at_S c).
      apply (Decode_continuation _ _ _ Ed). lia.
  - destruct Hb as [<-|Hb].
    + exfalso. specialize (Hp 0%nat ltac:(lia)). unfold at_ in Hp. cbn in Hp. lia.
    + apply IH; try assumption. intros i Hi. rewrite <- (at_S c). apply Hp. lia.
Qed.

Lemma existsb_false {A : Type} (f : A -> bool) (l : list A) :
  existsb f l = false -> forall x, In x l -> f x = false.
Proof.
  intros E x Hin. destruct (f x) eqn:Ef; [|reflexivity].
  assert (Ht : existsb f l = true) by (apply existsb_exists; now exists x).
  congruence.
Qed.

Lemma no_control_nil : no_control EmptyString.
Proof. intros b []. Qed.

Lemma no_control_app (a b : string) : no_control a -> no_control b -> no_control (a ++ b).
Proof.
  intros Ha Hb x Hx. rewrite bytes_app in Hx. apply in_app_or in Hx.
  destruct Hx as [Hx|Hx]; [now apply Ha | now apply Hb].
Qed.

Lemma no_control_byte (c : byte) :
  0x20 <= Z_of_byte c -> Z_of_byte c <> 0x7F -> no_control (str1 c).
Proof. intros H1 H2 b [<-|[]]. now split. Qed.

Lemma no_control_of_Z (z : Z) :
  0x20 <= z mod 256 -> z mod 256 <> 0x7F -> no_control (str1 (byte_of_Z z)).
Proof. intros H1 H2. apply no_control_byte; now rewrite Z_of_byte_of_Z. Qed.

Lemma high_bit_byte (z : Z) : Z.testbit z 7 = true -> 0x80 <= z mod 256.
Proof.
  intros Hb.
  assert (Hm : Z.testbit (z mod 2 ^ 8) 7 = true)
    by (rewrite Z.mod_pow2_bits_low by lia; exact Hb).
  change (2 ^ 8) with 256 in Hm.
  pose proof (Z.mod_pos_bound z 256 ltac:(lia)) as Hr.
  destruct (Z.lt_ge_cases (z mod 256) 128) as [Hlt|Hge]; [|lia].
  assert (Hf : Z.testbit (z mod 256) 7 = false).
  { apply Z.testbit_false; [lia|]. change (2 ^ 7) with 128.
    rewrite Z.div_small by lia. reflexivity. }
  congruence.
Qed.

Lemma no_control_high (z : Z) : Z.testbit z 7 = true -> no_control (str1 (byte_of_Z z)).
Proof.
  intros Hb. pose proof (high_bit_byte z Hb). apply no_control_of_Z; lia.
Qed.

Lemma no_control_hexdigit (n : Z) : no_control (strconv.hexdigit n).
Proof.
  unfold strconv.hexdigit, strconv.lowerhex.
  destruct (Z.to_nat n) as [|k];
    [apply no_control_byte; vm_compute; [discriminate | discriminate]|].
  do 15 (destruct k as [|k];
         [apply no_control_byte; vm_compute; [discriminate | discriminate]|]).
  apply no_control_nil.
Qed.

Lemma no_control_hexdigits (n : nat) (r : Z) : no_control (strconv.hexdigits n r).
Proof.
  induction n as [|n IH]; [apply no_control_nil|].
  cbn [strconv.hexdigits]. apply no_control_app; [apply no_control_hexdigit | exact IH].
Qed.

Lemma no_control_AppendRune (r : Z) :
  0 <= r -> (r <= 0x7F -> 0x20 <= r <= 0x7E) ->
  no_control (utf8.AppendRune EmptyString r).
Proof.
  intros Hr Hp. unfold utf8.AppendRune, utf8.rune1Max, utf8.tx, utf8.t2, utf8.t3, utf8.t4.
  destruct (r <=? 127) eqn:E1.
  - apply Z.leb_le in E1. specialize (Hp E1).
    apply no_control_of_Z; rewrite Z.mod_small by lia; lia.
  - case_ifs;
      cbn [String.append];
      repeat (apply no_control_app;
              [apply no_control_high, lor_high_bit; reflexivity|]);
      try apply no_control_nil;
      apply no_control_high, lor_high_bit; reflexivity.
Qed.

Section Clean.

Context `{L : GoLib}.

Lemma IsPrint_ascii (r : Z) :
  0 <= r <= 0x7F -> unicode.IsPrint r = true -> 0x20 <= r <= 0x7E.
Proof.
  intros Hr. unfold unicode.IsPrint, unicode.MaxLatin1.
  replace ((0 <=? r) && (r <=? 255)) with true
    by (symmetry; apply andb_true_iff; split; apply Z.leb_le; lia).
  intros E. apply orb_true_iff in E. destruct E as [E|E].
  - apply andb_true_iff in E. destruct E as [E1 E2].
    apply Z.leb_le in E1. apply Z.leb_le in E2. lia.
  - apply andb_true_iff in E. destruct E as [E _].
    apply andb_true_iff in E. destruct E as [E _]. apply Z.leb_le in E. lia.
Qed.

Lemma no_control_escape (c : byte) (rest : string) :
  0x20 <= Z_of_byte c -> Z_of_byte c <> 0x7F -> no_control rest ->
  no_control (String backslash (String c rest)).
Proof.
  intros H1 H2 Hrest.
  change (String backslash (String c rest)) with (str1 backslash ++ str1 c ++ rest).
  apply no_control_app; [apply no_control_byte; vm_compute; discriminate|].
  apply no_control_app; [now apply no_control_byte | exact Hrest].
Qed.

Lemma no_control_appendEscapedRune (r : Z) :
  0 <= r -> no_control (strconv.appendEscapedRune EmptyString r).
Proof.
  intros Hr. unfold strconv.appendEscapedRune.
  change (Z_of_byte dquote) with 34. change (Z_of_byte backslash) with 92.
  destruct ((r =? 34) || (r =? 92)) eqn:Eq.
  - apply orb_true_iff in Eq. unfold str1. cbn [String.append].
    destruct Eq as [Eq|Eq]; apply Z.eqb_eq in Eq; subst r;
      (apply no_control_escape;
       [vm_compute; discriminate | vm_compute; discriminate | apply no_control_nil]).
  - destruct (strconv.IsPrint r) eqn:Ep.
    + apply no_control_AppendRune; [exact Hr|]. intros Hle.
      apply IsPrint_ascii; [lia | exact Ep].
    + case_ifs;
        unfold str1; cbn [String.append];
        (apply no_control_escape;
         [vm_compute; discriminate | vm_compute; discriminate |]);
        first [ apply no_control_nil
              | apply no_control_hexdigits
              | apply no_control_app; apply no_control_hexdigit ].
Qed.

Lemma no_control_quoteLoop (fuel : nat) (s : string) :
  no_control (strconv.quoteLoop fuel EmptyString s).
Proof.
  revert s. induction fuel as [|fuel IH]; intros s; cbn [strconv.quoteLoop];
    [apply no_control_nil|].
  destruct s as [|c s']; [apply no_control_nil|].
  assert (Hr : 0 <= fst (if utf8.RuneSelf <=? Z_of_byte c
                         then utf8.DecodeRuneInString (String c s')
                         else (Z_of_byte c, 1%nat))).
  { destruct (utf8.RuneSelf <=? Z_of_byte c);
      [apply DecodeRune_nonneg | apply Z_of_byte_range]. }
  destruct (if utf8.RuneSelf <=? Z_of_byte c
            then utf8.DecodeRuneInString (String c s')
            else (Z_of_byte c, 1%nat)) as [r width].
  cbn [fst] in Hr.
  destruct ((width =? 1)%nat && (r =? utf8.RuneError)); rewrite quoteLoop_app.
  - apply no_control_app; [|apply IH].
    unfold str1; cbn [String.append].
    apply no_control_escape; [vm_compute; discriminate | vm_compute; discriminate |].
    apply no_control_app; apply no_control_hexdigit.
  - apply no_control_app; [now apply no_control_appendEscapedRune | apply IH].
Qed.

Lemma no_control_AppendQuote (s : string) : no_control (strconv.AppendQuote EmptyString s).
Proof.
  unfold strconv.AppendQuote. rewrite quoteLoop_app.
  repeat apply no_control_app; try apply no_control_nil;
    try (apply no_control_byte; vm_compute; discriminate).
  apply no_control_quoteLoop.
Qed.

(** A string that is written as it is holds no ASCII control character,
    no space, no double quote and no equals sign. *)
Lemma raw_bytes (s : string) (b : Z) :
  needsQuoting s = false -> In b (bytes s) ->
  0x20 < b /\ b <> 0x22 /\ b <> 0x3D /\ b <> 0x7F.
Proof.
  unfold needsQuoting. destruct (len s =? 0); [discriminate|]. intros E Hb.
  pose proof (bytes_range s b Hb) as Hr.
  destruct (Z.lt_ge_cases b 0x80) as [Hlt|Hge]; [|lia].
  assert (Hin : In b (range_runes s)).
  { apply ascii_bytes_are_runes; [intros i Hi; lia | exact Hb | exact Hlt]. }
  pose proof (existsb_false _ _ E b Hin) as Hc. cbv beta in Hc.
  change (Z_of_byte dquote) with 34 in Hc. change (Z_of_byte "="%char) with 61 in Hc.
  apply orb_false_iff in Hc. destruct Hc as [Hc Hprint].
  apply orb_false_iff in Hc. destruct Hc as [Hc Heq].
  apply orb_false_iff in Hc. destruct Hc as [Hspace Hq].
  apply negb_false_iff in Hprint. apply Z.eqb_neq in Heq. apply Z.eqb_neq in Hq.
  pose proof (IsPrint_ascii b ltac:(lia) Hprint) as Hp.
  assert (Hns : b <> 32).
  { intros ->. vm_compute in Hspace. discriminate Hspace. }
  lia.
Qed.

(** X5.  What [appendString] writes with quoting enabled, for a key, a
    value or the text of an error, holds no ASCII control character: no
    byte below the space and no DEL, so no newline and no escape byte,
    whatever the string.  A string it writes without quotes holds no
    space, double quote or equals sign either, so it reads as one token.
    On a handler without colour the key and the value of an attribute
    with a string value are free of control characters as a whole. *)
Theorem quoted_text_has_no_control (h : Handler) (s key gp : string) :
  no_control (appendString EmptyString s true)
  /\ (needsQuoting s = false ->
      appendString EmptyString s true = s
      /\ forall b, In b (bytes s) -> 0x20 < b /\ b <> 0x22 /\ b <> 0x3D /\ b <> 0x7F)
  /\ (noColor h = true -> no_control (key_value h (key, StringValue s) gp)).
Proof.
  assert (Hone : forall t, no_control (appendString EmptyString t true)).
  { intros t. unfold appendString. cbn [andb].
    destruct (needsQuoting t) eqn:E; [apply no_control_AppendQuote|].
    unfold WriteString. cbn [String.append]. intros b Hb.
    destruct (raw_bytes t b E Hb) as [H1 [_ [_ H2]]]. lia. }
  split; [apply Hone|]. split.
  - intros E. split; [unfold appendString; now rewrite E|].
    intros b Hb. now apply (raw_bytes s).
  - intros Hnc. unfold key_value. cbn [Value_Any Value_of Key fst snd appendValue].
    rewrite appendString_app. apply no_control_app; [|apply Hone].
    unfold appendKey, WriteByte. rewrite !WriteStringIf_styled.
    unfold styled. rewrite Hnc. rewrite appendString_app.
    repeat apply no_control_app; try apply no_control_nil; try apply Hone.
    apply no_control_byte; vm_compute; discriminate.
Qed.

End Clean.

(** A value with a newline and an escape byte in it: both come out
    escaped, inside quotes. *)
Example control_bytes_escaped :
  appendString (L := demo) EmptyString ("a" ++ str1 newline ++ str1 esc ++ "[0m") true
  = str1 dquote ++ "a" ++ str1 backslash ++ "n" ++ str1 backslash ++ "x1b[0m" ++ str1 dquote.
Proof. vm_compute. reflexivity. Qed.

(** * The buffer pool *)

Lemma remove_nth_Forall {A : Type} (P : A -> Prop) (l : list A) :
  Forall P l -> forall i, Forall P (pool.remove_nth i l).
Proof.
  induction 1 as [|x l Hx Hl IH]; intros i; [destruct i; constructor|].
  destruct i as [|i]; cbn [pool.remove_nth]; [exact Hl|].
  constructor; [exact Hx | apply IH].
Qed.

Lemma pool_step_pooled (p : list pool.buffer) (o : pool.op) :
  Forall pool.pooled p -> Forall pool.pooled (pool.step p o).
Proof.
  intros Hp. destruct o as [pick|b]; cbn [pool.step].
  - unfold pool.newBuffer, pool.Get. destruct pick as [i|]; [|exact Hp].
    destruct (nth_error p i); [|exact Hp]. cbn [snd]. now apply remove_nth_Forall.
  - unfold pool.Free, pool.Put.
    destruct (pool.cap b <=? pool.maxBufferSize)%nat eqn:E; [|exact Hp].
    constructor; [|exact Hp]. split; [reflexivity|]. cbn [pool.cap].
    now apply Nat.leb_le.
Qed.

Lemma pool_run_pooled (ops : list pool.op) : Forall pool.pooled (pool.run ops).
Proof.
  unfold pool.run.
  assert (Hgen : forall p, Forall pool.pooled p ->
                   Forall pool.pooled (fold_left pool.step ops p)).
  { induction ops as [|o ops IH]; intros p Hp; [exact Hp|].
    cbn [fold_left]. apply IH. now apply pool_step_pooled. }
  apply Hgen. constructor.
Qed.

(** X6.  Whatever the callers have done with the buffers they took and
    freed, the buffer [newBuffer] hands out is empty, and its capacity is
    within the limit of 16 KiB: [Free] cuts a buffer to length 0 before it
    puts it back, and a buffer that has grown beyond the limit is not put
    back at all. *)
Theorem newBuffer_is_empty (ops : list pool.op) (pick : option nat) (b : pool.buffer) :
  pool.data (fst (pool.newBuffer (pool.run ops) pick)) = EmptyString
  /\ (pool.cap (fst (pool.newBuffer (pool.run ops) pick)) <= pool.maxBufferSize)%nat
  /\ ((pool.maxBufferSize < pool.cap b)%nat ->
      pool.Free (pool.run ops) b = pool.run ops)
  /\ ((pool.cap b <= pool.maxBufferSize)%nat ->
      pool.Free (pool.run ops) b
      = pool.mkBuffer EmptyString (pool.cap b) :: pool.run ops).
Proof.
  pose proof (pool_run_pooled ops) as Hp.
  assert (Hget : pool.pooled (fst (pool.newBuffer (pool.run ops) pick))).
  { unfold pool.newBuffer, pool.Get.
    assert (Hnew : pool.pooled pool.New).
    { split; [reflexivity|]. cbn. apply Nat.leb_le. reflexivity. }
    destruct pick as [i|]; [|exact Hnew].
    destruct (nth_error (pool.run ops) i) as [x|] eqn:Ex; [|exact Hnew].
    cbn [fst]. rewrite Forall_forall in Hp. apply Hp.
    eapply nth_error_In. exact Ex. }
  split; [exact (proj1 Hget)|]. split; [exact (proj2 Hget)|]. split.
  - intros Hbig. unfold pool.Free.
    replace (pool.cap b <=? pool.maxBufferSize)%nat with false; [reflexivity|].
    symmetry. apply Nat.leb_gt. exact Hbig.
  - intros Hsmall. unfold pool.Free, pool.Put.
    replace (pool.cap b <=? pool.maxBufferSize)%nat with true; [reflexivity|].
    symmetry. apply Nat.leb_le. exact Hsmall.
Qed.

(** * The world between calls *)

Section WorldClaims.

Context `{L : GoLib}.

Lemma set_last_ends (buf : buffer) (c : byte) :
  buf <> EmptyString -> exists line, set_last buf c = line ++ str1 c.
Proof.
  induction buf as [|x rest IH]; intros Hne; [contradiction|].
  destruct rest as [|y rest'].
  - exists EmptyString. reflexivity.
  - destruct IH as [line E]; [discriminate|].
    exists (String x line). cbn [set_last]. cbn [set_last] in E. rewrite E. reflexivity.
Qed.

(** X7.  The handlers of a world stay well formed: once the attribute
    prefix of every handler is a sequence of fields, its stack of groups
    fits the heap and its mutex is free, this holds again after
    [NewHandler], [WithGroup], [WithAttrs], [Handle] and [Log], whatever
    their arguments.  These are the conditions under which [Handle]
    writes a line. *)
Theorem World_ok_preserved (st : World) :
  World_ok st ->
  (forall wr opts, World_ok (fst (NewHandler st wr opts)))
  /\ (forall hp name st' hp', WithGroup st hp name = Some (st', hp') -> World_ok st')
  /\ (forall fuel hp attrs st' hp',
        WithAttrs fuel st hp attrs = Some (st', hp') -> World_ok st')
  /\ (forall fuel hp r st' err, Handle fuel st hp r = Some (st', err) -> World_ok st')
  /\ (forall fuel hp lvl now t0 pc keyvals st' err,
        Handler_Log fuel st hp lvl now t0 pc keyvals = Some (st', err) -> World_ok st').
Proof.
  intros Hok.
  split; [intros wr opts; now apply NewHandler_ok|].
  split; [intros hp name st' hp' E; now apply (WithGroup_ok st st' hp hp' name)|].
  split; [intros fuel hp attrs st' hp' E;
          now apply (WithAttrs_ok fuel st st' hp hp' attrs)|].
  split; [intros fuel hp r st' err E; now apply (Handle_ok fuel st st' hp r err)|].
  intros fuel hp lvl now t0 pc keyvals st' err E. unfold Handler_Log in E.
  eapply Handle_ok; [exact Hok | exact E].
Qed.

(** X8.  A call of [Handle] leaves the handlers as they are, with the
    group names of its own handler, and every writer but its own; to its
    own writer it gives nothing, and then returns nil, or one line that
    ends in a newline, in one call of [Write] between the lock and the
    unlock of its own mutex, and then returns what [Write] returned. *)
Theorem Handle_footprint (fuel : nat) (st st' : World) (hp : nat) (h : Handler)
        (r : Record_) (err : error) :
  nth_error (handlers st) hp = Some h ->
  slice_ok (heap st) (groups h) ->
  Handle fuel st hp r = Some (st', err) ->
  handlers st' = handlers st
  /\ slice_view (heap st') (groups h) = slice_view (heap st) (groups h)
  /\ (forall w', w' <> w h -> nth_error (writers st') w' = nth_error (writers st) w')
  /\ ((writers st' = writers st /\ events st' = events st /\ err = nil_error)
      \/ exists wr text,
           nth_error (writers st) (w h) = Some wr
           /\ nth_error (writers st') (w h)
              = Some (mkWriter (written wr ++ [(text ++ str1 newline)%string])%list
                              (write_result wr))
           /\ events st'
              = (events st ++ [EvLock hp; EvWrite (w h) (text ++ str1 newline)%string;
                               EvUnlock hp])%list
           /\ err = write_result wr (text ++ str1 newline)).
Proof.
  intros Hh Hok E.
  destruct (Handle_keeps_handlers fuel st st' hp h r err Hh Hok E) as [Hhs Hview].
  split; [exact Hhs|]. split; [exact Hview|].
  unfold Handle in E. rewrite Hh in E.
  destruct (Handle_render fuel h (heap st) r) as [[m buf]|]; [|discriminate].
  destruct (len buf =? 0) eqn:El.
  - some_pair E as [Est Eerr]. subst st' err. cbn [writers events].
    split; [reflexivity|]. left. now repeat split.
  - destruct (mu h); [discriminate|].
    destruct (nth_error (writers st) (w h)) as [wr|] eqn:Ew; [|discriminate].
    unfold io_Write in E. some_pair E as [Est Eerr]. subst st' err.
    cbn [writers events].
    assert (Hne : buf <> EmptyString).
    { intros ->. discriminate El. }
    destruct (set_last_ends buf newline Hne) as [text Et]. rewrite Et.
    split.
    + intros w' Hw'. apply nth_error_list_set_neq. congruence.
    + right. exists wr, text. split; [reflexivity|]. split; [|now split].
      assert (Hlt : (w h < List.length (writers st))%nat)
        by (apply nth_error_Some; congruence).
      rewrite (nth_error_nth' _ wr) by now rewrite list_set_length.
      now rewrite nth_list_set_eq by exact Hlt.
Qed.

End WorldClaims.

Lemma World_ok_preserved_witness :
  World_ok (L := demo) (mkWorld [] [] [Demo.sink] [])
  /\ World_ok (fst (NewHandler (L := demo) (mkWorld [] [] [Demo.sink] []) 0 None)).
Proof.
  assert (H0 : World_ok (L := demo) (mkWorld [] [] [Demo.sink] [])) by constructor.
  split; [exact H0|].
  exact (proj1 (World_ok_preserved (L := demo) _ H0) 0%nat None).
Defined.

Lemma Handle_footprint_witness :
  nth_error (handlers (Demo.world_of Demo.plain_handler)) 0 = Some Demo.plain_handler
  /\ slice_ok (heap (Demo.world_of Demo.plain_handler)) (groups Demo.plain_handler)
  /\ Handle (L := demo) 1 (Demo.world_of Demo.plain_handler) 0 Demo2.rows_record
     = Some (Demo2.after_rows, nil_error)
  /\ handlers Demo2.after_rows = handlers (Demo.world_of Demo.plain_handler).
Proof.
  assert (Hok : slice_ok (heap (Demo.world_of Demo.plain_handler))
                         (groups Demo.plain_handler)).
  { split; [apply le_n|]. cbn. intros H0. inversion H0. }
  split; [reflexivity|]. split; [exact Hok|]. split; [reflexivity|].
  exact (proj1 (Handle_footprint (L := demo) 1 (Demo.world_of Demo.plain_handler)
                  Demo2.after_rows 0 Demo.plain_handler Demo2.rows_record nil_error
                  eq_refl Hok eq_refl)).
Defined.
